(** * career-coach: the fetch / normalise / deduplicate / score / rank pipeline

    A shallow embedding of [src/matcher.ts], of the two versions of
    [src/fetcher.ts] (the early one, and the later one that adds the
    Web3.Career adapter and the de-duplication step), of [config.ts] and
    of the rendering functions of [src/emailer.ts], together with the
    properties the specification states about them.

    Modelling conventions.
    - A JavaScript [number] is [NaN], an infinity, or the rational value of
      a finite double; the sign of zero is not represented.  The arithmetic
      of the scorer rounds every result to the nearest double, ties to
      even ([Num.binary64]); the comparator of the ranking only looks at
      the sign of a difference, which rounding does not change, and uses
      the exact difference.
    - A JavaScript string is the [string] of the bytes of its UTF-8
      encoding, in which one text occurs in another exactly when its bytes
      do.  [toLowerCase] is the platform's and stays abstract (class
      [StringCase]); what is used of it is stated where it is used: that
      it lower-cases ASCII text letter by letter, and that it is
      idempotent.
    - Built-ins whose results cannot be computed in this setting (SHA-256,
      number/string conversion, date and URL parsing) are parameters of the
      sections that use them.
    - Log lines are an observability side channel and are left out; the
      counters that only feed log lines are kept in the loop states. *)

From Stdlib Require Import ZArith QArith Qround Qminmax Qabs Qpower Lqa String Ascii
  DecimalString List Permutation Sorted Lia.
From stdpp Require Import list gmap strings.

Close Scope Q_scope.
Set Warnings "-register-all".
Open Scope string_scope.
Open Scope list_scope.

(* ===================================================================== *)
(** * JavaScript numbers *)
(* ===================================================================== *)

Inductive number : Type :=
  | NaN
  | NegInf
  | Fin (q : Q)
  | PosInf.

Module Num.

Definition of_nat (n : nat) : number := Fin (inject_Z (Z.of_nat n)).
Definition of_Z (z : Z) : number := Fin (inject_Z z).

Definition Qltb (x y : Q) : bool :=
  match Qcompare x y with Lt => true | _ => false end.

(** [a < b]; every comparison with [NaN] is false. *)
Definition lt (a b : number) : bool :=
  match a, b with
  | NaN, _ | _, NaN => false
  | NegInf, NegInf => false
  | NegInf, _ => true
  | Fin _, NegInf => false
  | Fin x, Fin y => Qltb x y
  | Fin _, PosInf => true
  | PosInf, _ => false
  end.

Definition gt (a b : number) : bool := lt b a.

(** [a >= b] *)
Definition ge (a b : number) : bool :=
  match a, b with
  | NaN, _ | _, NaN => false
  | _, NegInf => true
  | NegInf, _ => false
  | PosInf, _ => true
  | Fin _, PosInf => false
  | Fin x, Fin y => Qle_bool y x
  end.

(** ToBoolean on a number: [NaN] and zero are falsy. *)
Definition truthy (a : number) : bool :=
  match a with
  | NaN => false
  | Fin q => negb (Qeq_bool q 0)
  | NegInf | PosInf => true
  end.

(** [a || b] on numbers. *)
Definition or (a b : number) : number := if truthy a then a else b.

Definition neg (a : number) : number :=
  match a with
  | NaN => NaN
  | NegInf => PosInf
  | Fin q => Fin (Qopp q)
  | PosInf => NegInf
  end.

Definition add (a b : number) : number :=
  match a, b with
  | NaN, _ | _, NaN => NaN
  | PosInf, NegInf | NegInf, PosInf => NaN
  | PosInf, _ | _, PosInf => PosInf
  | NegInf, _ | _, NegInf => NegInf
  | Fin x, Fin y => Fin (Qplus x y)
  end.

Definition sub (a b : number) : number := add a (neg b).

(** The infinity with the sign of the rational [s], [NaN] when [s] is zero. *)
Definition inf_signed (s : Q) : number :=
  match Qcompare s 0 with
  | Lt => NegInf
  | Eq => NaN
  | Gt => PosInf
  end.

Definition mul (a b : number) : number :=
  match a, b with
  | NaN, _ | _, NaN => NaN
  | Fin x, Fin y => Fin (Qmult x y)
  | Fin x, PosInf | PosInf, Fin x => inf_signed x
  | Fin x, NegInf | NegInf, Fin x => inf_signed (Qopp x)
  | PosInf, PosInf | NegInf, NegInf => PosInf
  | PosInf, NegInf | NegInf, PosInf => NegInf
  end.

Definition div (a b : number) : number :=
  match a, b with
  | NaN, _ | _, NaN => NaN
  | Fin x, Fin y => if Qeq_bool y 0 then inf_signed x else Fin (Qdiv x y)
  | Fin _, (PosInf | NegInf) => Fin 0
  | PosInf, Fin y => if Qltb y 0 then NegInf else PosInf
  | NegInf, Fin y => if Qltb y 0 then PosInf else NegInf
  | (PosInf | NegInf), (PosInf | NegInf) => NaN
  end.

(** ** Double precision

    [binary64 q] is the double nearest to the rational [q], ties to the even
    significand: 53 significant bits, with exponents from [-1074] (the
    subnormal numbers) upwards.  Overflow is handled by [rnd]. *)

(** [floor (log2 q)] for a positive [q]. *)
Definition ilog2 (q : Q) : Z :=
  let l := (Z.log2 (Qnum q) - Z.log2 (Z.pos (Qden q)))%Z in
  if Qle_bool (2 ^ l)%Q q then l else (l - 1)%Z.

(** The nearest integer, ties to even. *)
Definition rne (q : Q) : Z :=
  let f := Qfloor q in
  match Qcompare (q - inject_Z f)%Q (1 # 2)%Q with
  | Lt => f
  | Gt => (f + 1)%Z
  | Eq => if Z.even f then f else (f + 1)%Z
  end.

(** The exponent of the unit in the last place of a non-negative [q]. *)
Definition ulp_exp (q : Q) : Z := Z.max (ilog2 q - 52) (-1074).

Definition b64_abs (q : Q) : Q :=
  let e := ulp_exp q in
  (inject_Z (rne (q / 2 ^ e)) * 2 ^ e)%Q.

Definition binary64 (q : Q) : Q :=
  Qred (if Qle_bool 0 q then b64_abs q else (- b64_abs (- q))%Q).

(** The double that an exact result is rounded to: from [2^1024] on, the
    rounded magnitude is an infinity. *)
Definition rnd (a : number) : number :=
  match a with
  | Fin q =>
      let r := binary64 q in
      if Qle_bool (2 ^ 1024)%Q r then PosInf
      else if Qle_bool r (- 2 ^ 1024)%Q then NegInf
      else Fin r
  | _ => a
  end.

(** [a + b], [a * b] and [a / b] as JavaScript computes them. *)
Definition fadd (a b : number) : number := rnd (add a b).
Definition fmul (a b : number) : number := rnd (mul a b).
Definition fdiv (a b : number) : number := rnd (div a b).

(** [Math.round]: the nearest integer, ties towards plus infinity. *)
Definition round (a : number) : number :=
  match a with
  | Fin q => Fin (inject_Z (Qfloor (Qplus q (1 # 2))))
  | _ => a
  end.

(** [Math.min] of two arguments. *)
Definition min (a b : number) : number :=
  match a, b with
  | NaN, _ | _, NaN => NaN
  | _, _ => if lt b a then b else a
  end.

End Num.

(* ===================================================================== *)
(** * JavaScript strings *)
(* ===================================================================== *)

(** [s.toLowerCase()] applies the Unicode case mappings of the platform,
    which are not reproduced here: the development is parametric in the
    function, and every property holds for whatever it computes. *)
Class StringCase : Type := { toLowerCase : string -> string }.

(** On ASCII text the mapping is the familiar one: the letters [A]-[Z]
    become [a]-[z], every other character is left alone. *)
Definition ascii_toLowerCase (c : ascii) : ascii :=
  let n := nat_of_ascii c in
  if Nat.leb 65 n && Nat.leb n 90 then ascii_of_nat (n + 32) else c.

Fixpoint lowerASCII (s : string) : string :=
  match s with
  | EmptyString => EmptyString
  | String c s' => String (ascii_toLowerCase c) (lowerASCII s')
  end.

(** Every character of [s] is an ASCII character. *)
Fixpoint isASCII (s : string) : bool :=
  match s with
  | EmptyString => true
  | String c s' => Nat.ltb (nat_of_ascii c) 128 && isASCII s'
  end.

(** [s.includes(pat)]: [pat] occurs in [s] as a contiguous substring. *)
Fixpoint includes (s pat : string) : bool :=
  if String.prefix pat s then true
  else match s with
       | EmptyString => false
       | String _ s' => includes s' pat
       end.

(** [a || b] on strings: the empty string is falsy. *)
Definition str_or (a b : string) : string :=
  match a with
  | EmptyString => b
  | _ => a
  end.

(** [l.join(sep)] *)
Definition join (sep : string) (l : list string) : string := String.concat sep l.

(* ===================================================================== *)
(** * Data model ([types.ts], [config.ts]) *)
(* ===================================================================== *)

Inductive JobSource : Type := remoteok | web3career.

(** A [Date] holds a time value in milliseconds, or is invalid. *)
Inductive Date : Type :=
  | InvalidDate
  | TimeValue (ms : Z).

Definition getTime (d : Date) : number :=
  match d with
  | InvalidDate => NaN
  | TimeValue ms => Num.of_Z ms
  end.

Module Salary.
Record t : Type := mk {
  min : number;
  max : number;
  currency : string;
  raw : string;
}.
End Salary.

Module Job.
Record t : Type := mk {
  id : string;
  title : string;
  company : string;
  url : string;
  salary : Salary.t;
  location : string;
  remote : bool;
  skills : list string;
  postedAt : Date;
  source : JobSource;
}.
End Job.

Module MatchResult.
Record t : Type := mk {
  job : Job.t;
  score : number;
  matchedSkills : list string;
  explanation : list string;
}.
End MatchResult.

Module Config.
Record User : Type := mkUser {
  name : string;
  email : string;
  timezone : string;
}.
Record Preferences : Type := mkPreferences {
  skills : list string;
  salaryMinimum : number;
  location : string;
}.
Record t : Type := mk {
  user : User;
  preferences : Preferences;
  hardNos : list string;
}.
End Config.

(* ===================================================================== *)
(** * [matcher.ts] *)
(* ===================================================================== *)

(** ** Hard-No filtering *)

(** The lower-cased searchable fields of a job: title, company, skills. *)
Definition searchable {platform : StringCase} (job : Job.t) : list string :=
  List.map toLowerCase (Job.title job :: Job.company job :: Job.skills job).

(** The patterns found in some searchable field of the job. *)
Definition matchedPatterns {platform : StringCase}
    (patterns : list string) (job : Job.t) : list string :=
  List.filter
    (fun pattern => existsb (fun field => includes field pattern) (searchable job))
    patterns.

(** One iteration of the [for (const job of jobs)] loop; the state is
    [(passed, excluded)]. *)
Definition filterStep {platform : StringCase} (patterns : list string)
    (st : list Job.t * nat) (job : Job.t) : list Job.t * nat :=
  let '(passed, excluded) := st in
  if Nat.ltb 0 (length (matchedPatterns patterns job))
  then (passed, S excluded)
  else (passed ++ [job], excluded).

Definition filterLoop {platform : StringCase} (patterns : list string) (jobs : list Job.t)
  : list Job.t * nat :=
  fold_left (filterStep patterns) jobs ([], 0).

Definition filterHardNos {platform : StringCase}
    (jobs : list Job.t) (hardNos : list string) : list Job.t :=
  if Nat.eqb (length hardNos) 0 then jobs
  else
    let patterns := List.map toLowerCase hardNos in
    fst (filterLoop patterns jobs).

(** ** Scoring *)

Definition TOP_MATCHES : nat := 10.

(** The object [{ score, matchedSkills }] that [scoreJob] returns. *)
Module ScoreResult.
Record t : Type := mk {
  score : number;
  matchedSkills : list string;
}.
End ScoreResult.

Definition scoreJob {platform : StringCase} (job : Job.t) (config : Config.t) : ScoreResult.t :=
  let userSkills := List.map toLowerCase (Config.skills (Config.preferences config)) in
  let jobSkills := List.map toLowerCase (Job.skills job) in
  let matchedSkills :=
    List.filter (fun skill => existsb (fun js => String.eqb js skill) jobSkills) userSkills in
  let skillScore :=
    Num.fmul (Num.fdiv (Num.of_nat (length matchedSkills)) (Num.of_nat (length userSkills)))
             (Fin 100) in
  let salaryBonus :=
    if Num.ge (Salary.min (Job.salary job)) (Config.salaryMinimum (Config.preferences config))
    then Fin 10 else Fin 0 in
  let userLocation := toLowerCase (Config.location (Config.preferences config)) in
  let jobLocation := toLowerCase (Job.location job) in
  let locationBonus :=
    if includes jobLocation userLocation || includes userLocation "remote"
    then Fin 10 else Fin 0 in
  let score :=
    Num.min (Fin 100)
      (Num.round (Num.fadd (Num.fadd skillScore salaryBonus) locationBonus)) in
  {| ScoreResult.score := score; ScoreResult.matchedSkills := matchedSkills |}.

(** ** Ranking: [Array.prototype.sort] with the comparator of [matchJobs],
    then [slice(0, TOP_MATCHES)] *)

(** The comparator [(a, b) => b.score - a.score || b.postedAt - a.postedAt].
    Only the sign of a difference matters to it and to the sort, and the
    rounded difference of two doubles has the sign of the exact one (it is
    zero only for equal operands), so the differences are the exact ones. *)
Definition compareFn (a b : MatchResult.t) : number :=
  Num.or (Num.sub (MatchResult.score b) (MatchResult.score a))
         (Num.sub (getTime (Job.postedAt (MatchResult.job b)))
                  (getTime (Job.postedAt (MatchResult.job a)))).

(** [Array.prototype.sort] is a stable sort: [x] is moved behind [y] only
    when [comparefn(x, y) > 0]; a [NaN] result counts as [+0].  The model is
    the stable insertion sort. *)
Section ArraySort.
Context {A : Type} (comparefn : A -> A -> number).

Definition sortCompare (x y : A) : number :=
  match comparefn x y with
  | NaN => Fin 0
  | v => v
  end.

Fixpoint sort_insert (x : A) (l : list A) : list A :=
  match l with
  | [] => [x]
  | y :: l' =>
      if Num.gt (sortCompare x y) (Fin 0)
      then y :: sort_insert x l'
      else x :: y :: l'
  end.

Definition Array_sort (l : list A) : list A :=
  List.fold_right sort_insert [] l.
End ArraySort.

(** [arr.slice(0, n)] *)
Definition slice0 {A : Type} (n : nat) (l : list A) : list A := firstn n l.

(** Step 3 of [matchJobs]. *)
Definition rank (scored : list MatchResult.t) : list MatchResult.t :=
  slice0 TOP_MATCHES (Array_sort compareFn scored).

Section Matcher.
Context {platform : StringCase}.
(** [Number.prototype.toString], used by the template literals. *)
Variable NumberToString : number -> string.

Definition generateExplanation (job : Job.t) (matchedSkills : list string)
    (config : Config.t) : list string :=
  let userSkillCount := length (Config.skills (Config.preferences config)) in
  let line1 :=
    if Nat.eqb (length matchedSkills) userSkillCount
    then "Skills: 100% match (all " +:+ NumberToString (Num.of_nat userSkillCount)
         +:+ " skills)"
    else "Skills: " +:+ NumberToString (Num.of_nat (length matchedSkills)) +:+ "/"
         +:+ NumberToString (Num.of_nat userSkillCount) +:+ " match ("
         +:+ join ", " matchedSkills +:+ ")" in
  let line2 :=
    if Num.gt (Salary.min (Job.salary job)) (Fin 0)
    then
      let meetsMin :=
        Num.ge (Salary.min (Job.salary job))
               (Config.salaryMinimum (Config.preferences config)) in
      "Salary: " +:+ Salary.raw (Job.salary job)
      +:+ (if meetsMin then " — meets your minimum"
           else " — below your $"
                +:+ NumberToString (Config.salaryMinimum (Config.preferences config))
                +:+ " minimum")
    else "Salary: Not disclosed" in
  let line3 :=
    if Job.remote job
    then "Remote: Yes (" +:+ Job.location job +:+ ")"
    else "Remote: Not specified (" +:+ Job.location job +:+ ")" in
  [line1; line2; line3].

Definition scoreOne (config : Config.t) (job : Job.t) : MatchResult.t :=
  let r := scoreJob job config in
  {| MatchResult.job := job;
     MatchResult.score := ScoreResult.score r;
     MatchResult.matchedSkills := ScoreResult.matchedSkills r;
     MatchResult.explanation := generateExplanation job (ScoreResult.matchedSkills r) config |}.

Definition matchJobs (jobs : list Job.t) (config : Config.t) : list MatchResult.t :=
  let filtered := filterHardNos jobs (Config.hardNos config) in
  let scored := List.map (scoreOne config) filtered in
  rank scored.
End Matcher.

(* ===================================================================== *)
(** * JSON values and the zod schemas of [fetcher.ts] *)
(* ===================================================================== *)

Inductive json : Type :=
  | JNull
  | JBool (b : bool)
  | JNum (n : number)
  | JStr (s : string)
  | JArr (items : list json)
  | JObj (fields : list (string * json)).

(** [fields[key]]: [None] stands for [undefined] (the key is absent). *)
Fixpoint prop_lookup (key : string) (fields : list (string * json)) : option json :=
  match fields with
  | [] => None
  | (k, v) :: rest => if String.eqb k key then Some v else prop_lookup key rest
  end.

(** A value of type [T | null | undefined]. *)
Inductive maybe (A : Type) : Type :=
  | Undefined
  | Null
  | Val (a : A).
Arguments Undefined {A}.
Arguments Null {A}.
Arguments Val {A} a.

(** A value of type [number | string]. *)
Inductive numOrStr : Type :=
  | UNum (n : number)
  | UStr (s : string).

Module RemoteOKJob.
Record t : Type := mk {
  id : string;
  position : string;
  company : string;
  url : string;
  salary_min : number;
  salary_max : number;
  location : string;
  tags : list string;
  date : string;
}.
End RemoteOKJob.

Module Web3CareerJob.
Record t : Type := mk {
  id : number;
  title : string;
  company : string;
  apply_url : string;
  date : string;
  is_remote : bool;
  location : string;
  country : string;
  tags : list string;
  salary_min_value : maybe numOrStr;
  salary_max_value : maybe numOrStr;
  salary_currency : maybe string;
  salary_unit : maybe string;
}.
End Web3CareerJob.

(** The field validators; the argument is the property value, [None] when
    the property is absent, and the result is [None] on a validation issue. *)
Module Zod.

Definition string_ (v : option json) : option string :=
  match v with
  | Some (JStr s) => Some s
  | _ => None
  end.

(** [z.string().min(1)] *)
Definition string_min1 (v : option json) : option string :=
  s ← string_ v;
  if Nat.leb 1 (String.length s) then Some s else None.

(** [z.string().url()] *)
Definition string_url (isURL : string -> bool) (v : option json) : option string :=
  s ← string_ v;
  if isURL s then Some s else None.

(** [z.number()] rejects [NaN]. *)
Definition number_ (v : option json) : option number :=
  match v with
  | Some (JNum NaN) => None
  | Some (JNum n) => Some n
  | _ => None
  end.

Definition boolean_ (v : option json) : option bool :=
  match v with
  | Some (JBool b) => Some b
  | _ => None
  end.

Fixpoint strings_of (items : list json) : option (list string) :=
  match items with
  | [] => Some []
  | it :: rest =>
      s ← string_ (Some it);
      ss ← strings_of rest;
      Some (s :: ss)
  end.

(** [z.array(z.string())] *)
Definition array_string (v : option json) : option (list string) :=
  match v with
  | Some (JArr items) => strings_of items
  | _ => None
  end.

(** [inner.optional().default(d)] *)
Definition optional_default {A : Type}
    (inner : option json -> option A) (d : A) (v : option json) : option A :=
  match v with
  | None => Some d
  | Some _ => inner v
  end.

(** [inner.nullable().optional()] *)
Definition nullable_optional {A : Type}
    (inner : option json -> option A) (v : option json) : option (maybe A) :=
  match v with
  | None => Some Undefined
  | Some JNull => Some Null
  | Some _ => a ← inner v; Some (Val a)
  end.

(** [z.union([z.number(), z.string()])] *)
Definition number_or_string (v : option json) : option numOrStr :=
  match number_ v with
  | Some n => Some (UNum n)
  | None => s ← string_ v; Some (UStr s)
  end.

End Zod.

Section Schemas.
(** Whether [new URL(s)] succeeds. *)
Variable isURL : string -> bool.

(** [RemoteOKJobSchema.safeParse(item)]: [Some data] on success. *)
Definition RemoteOKJobSchema_safeParse (item : json) : option RemoteOKJob.t :=
  match item with
  | JObj fields =>
      id ← Zod.string_ (prop_lookup "id" fields);
      position ← Zod.string_min1 (prop_lookup "position" fields);
      company ← Zod.string_min1 (prop_lookup "company" fields);
      url ← Zod.string_url isURL (prop_lookup "url" fields);
      salary_min ← Zod.optional_default Zod.number_ (Fin 0) (prop_lookup "salary_min" fields);
      salary_max ← Zod.optional_default Zod.number_ (Fin 0) (prop_lookup "salary_max" fields);
      location ← Zod.optional_default Zod.string_ "" (prop_lookup "location" fields);
      tags ← Zod.optional_default Zod.array_string [] (prop_lookup "tags" fields);
      date ← Zod.string_ (prop_lookup "date" fields);
      Some (RemoteOKJob.mk id position company url salary_min salary_max location tags date)
  | _ => None
  end.

(** [Web3CareerJobSchema.safeParse(item)] *)
Definition Web3CareerJobSchema_safeParse (item : json) : option Web3CareerJob.t :=
  match item with
  | JObj fields =>
      id ← Zod.number_ (prop_lookup "id" fields);
      title ← Zod.string_min1 (prop_lookup "title" fields);
      company ← Zod.string_min1 (prop_lookup "company" fields);
      apply_url ← Zod.string_url isURL (prop_lookup "apply_url" fields);
      date ← Zod.string_ (prop_lookup "date" fields);
      is_remote ← Zod.optional_default Zod.boolean_ false (prop_lookup "is_remote" fields);
      location ← Zod.optional_default Zod.string_ "" (prop_lookup "location" fields);
      country ← Zod.optional_default Zod.string_ "" (prop_lookup "country" fields);
      tags ← Zod.optional_default Zod.array_string [] (prop_lookup "tags" fields);
      salary_min_value ←
        Zod.nullable_optional Zod.number_or_string (prop_lookup "salary_min_value" fields);
      salary_max_value ←
        Zod.nullable_optional Zod.number_or_string (prop_lookup "salary_max_value" fields);
      salary_currency ←
        Zod.nullable_optional Zod.string_ (prop_lookup "salary_currency" fields);
      salary_unit ←
        Zod.nullable_optional Zod.string_ (prop_lookup "salary_unit" fields);
      Some (Web3CareerJob.mk id title company apply_url date is_remote location country
              tags salary_min_value salary_max_value salary_currency salary_unit)
  | _ => None
  end.
End Schemas.

(* ===================================================================== *)
(** * Effects: network, timers, environment, file system *)
(* ===================================================================== *)

Record Response : Type := mkResponse {
  status : Z;
  (** the parsed body; [None] when [response.json()] rejects *)
  body : option json;
}.

(** [response.ok]: the status is in the range 200-299. *)
Definition Response_ok (r : Response) : bool :=
  Z.leb 200 (status r) && Z.leb (status r) 299.

(** What one call of [fetch] does: it resolves with a response, or rejects
    (time-out of the abort signal, transport error). *)
Inductive FetchOutcome : Type :=
  | Responded (r : Response)
  | Rejected (message : string).

Inductive RawData : Type :=
  | RawRemoteOK (data : list RemoteOKJob.t)
  | RawWeb3Career (data : list Web3CareerJob.t).

Record World : Type := mkWorld {
  (** the outcome of fetching a URL, by the number of earlier [fetch] calls *)
  network : string -> nat -> FetchOutcome;
  fetches : nat;
  (** total time spent in [sleep], in ms *)
  slept : Z;
  (** [process.env['WEB3_CAREER_API_KEY']] *)
  env_WEB3_CAREER_API_KEY : option string;
  (** whether [mkdirSync]/[writeFileSync] succeed *)
  diskWritable : bool;
  (** the raw-data files written so far, latest first *)
  saved : list (string * RawData);
}.

(** How a statement completes: normally with a value, or by a thrown error. *)
Inductive Completion (A : Type) : Type :=
  | Normal (a : A)
  | Throw (message : string).
Arguments Normal {A} a.
Arguments Throw {A} message.

Definition M (A : Type) : Type := World -> Completion A * World.

#[global] Instance M_ret : MRet M := fun A a w => (Normal a, w).

#[global] Instance M_bind : MBind M := fun A B f m w =>
  match m w with
  | (Normal a, w') => f a w'
  | (Throw e, w') => (Throw e, w')
  end.

(** [try { m } catch (err) { handler err }] *)
Definition tryCatch {A : Type} (m : M A) (handler : string -> M A) : M A :=
  fun w =>
    match m w with
    | (Normal a, w') => (Normal a, w')
    | (Throw e, w') => handler e w'
    end.

Definition fetch (url : string) : M Response := fun w =>
  let w' := mkWorld (network w) (S (fetches w)) (slept w)
              (env_WEB3_CAREER_API_KEY w) (diskWritable w) (saved w) in
  match network w url (fetches w) with
  | Responded r => (Normal r, w')
  | Rejected message => (Throw message, w')
  end.

Definition sleep (ms : Z) : M unit := fun w =>
  (Normal tt,
   mkWorld (network w) (fetches w) (slept w + ms)%Z
     (env_WEB3_CAREER_API_KEY w) (diskWritable w) (saved w)).

Definition Response_json (r : Response) : M json := fun w =>
  match body r with
  | Some v => (Normal v, w)
  | None => (Throw "Unexpected token in JSON", w)
  end.

Definition getenv_WEB3_CAREER_API_KEY : M (option string) := fun w =>
  (Normal (env_WEB3_CAREER_API_KEY w), w).

Definition saveRawData (source : string) (data : RawData) : M unit := fun w =>
  if diskWritable w
  then (Normal tt,
        mkWorld (network w) (fetches w) (slept w)
          (env_WEB3_CAREER_API_KEY w) (diskWritable w) ((source, data) :: saved w))
  else (Throw "EACCES: permission denied", w).

(* ===================================================================== *)
(** * [fetcher.ts]: what both versions share *)
(* ===================================================================== *)

Definition REMOTEOK_URL : string := "https://remoteok.com/api".
Definition WEB3CAREER_BASE_URL : string := "https://web3.career/api/v1".
Definition MAX_RETRIES : nat := 2.
Definition RETRY_DELAY_MS : Z := 3000.
(** The per-attempt time-out; an attempt that exceeds it is a [Rejected]
    outcome of [fetch]. *)
Definition FETCH_TIMEOUT_MS : Z := 30000.

(** One attempt of [fetchWithRetry]: the [try]/[catch] inside the loop.
    [Some response] is the early [return response]. *)
Definition fetchAttempt (url : string) : M (option Response) :=
  tryCatch
    (response ← fetch url;
     if Response_ok response then mret (Some response) else mret None)
    (fun _ => mret None).

(** The loop [for (attempt = 0; attempt <= MAX_RETRIES; attempt++)];
    [remaining] is [MAX_RETRIES + 1 - attempt]. *)
Fixpoint retryLoop (url : string) (remaining attempt : nat) : M (option Response) :=
  match remaining with
  | 0 => mret None
  | S remaining' =>
      r ← fetchAttempt url;
      match r with
      | Some response => mret (Some response)
      | None =>
          _ ← (if Nat.ltb attempt MAX_RETRIES then sleep RETRY_DELAY_MS else mret tt);
          retryLoop url remaining' (S attempt)
      end
  end.

Definition fetchWithRetry (url : string) : M (option Response) :=
  retryLoop url (MAX_RETRIES + 1) 0.

Section Normalise.
Context {platform : StringCase}.
(** [createHash('sha256').update(s).digest('hex')] *)
Variable sha256hex : string -> string.
(** [Number(s)] on a string *)
Variable StringToNumber : string -> number.
(** [`${n}`] on a number *)
Variable NumberToString : number -> string.
(** [new Date(s)] *)
Variable DateParse : string -> Date.
Variable isURL : string -> bool.

Definition generateJobId (title company : string) : string :=
  let input := toLowerCase (title +:+ company) in
  sha256hex input.

Definition normalizeRemoteOKJob (raw : RemoteOKJob.t) : Job.t :=
  let hasSalary :=
    Num.gt (RemoteOKJob.salary_min raw) (Fin 0)
    || Num.gt (RemoteOKJob.salary_max raw) (Fin 0) in
  {| Job.id := generateJobId (RemoteOKJob.position raw) (RemoteOKJob.company raw);
     Job.title := RemoteOKJob.position raw;
     Job.company := RemoteOKJob.company raw;
     Job.url := RemoteOKJob.url raw;
     Job.salary :=
       {| Salary.min := RemoteOKJob.salary_min raw;
          Salary.max := RemoteOKJob.salary_max raw;
          Salary.currency := if hasSalary then "USD" else "";
          Salary.raw :=
            if hasSalary
            then "$" +:+ NumberToString (RemoteOKJob.salary_min raw) +:+ "-$"
                 +:+ NumberToString (RemoteOKJob.salary_max raw)
            else "" |};
     Job.location := str_or (RemoteOKJob.location raw) "Remote";
     Job.remote := true;
     Job.skills := List.map toLowerCase (RemoteOKJob.tags raw);
     Job.postedAt := DateParse (RemoteOKJob.date raw);
     Job.source := remoteok |}.

(** [Number(v)] for [v : number | string | null | undefined] *)
Definition ToNumber (v : maybe numOrStr) : number :=
  match v with
  | Undefined => NaN
  | Null => Fin 0
  | Val (UNum n) => n
  | Val (UStr s) => StringToNumber s
  end.

(** [v ?? d] *)
Definition nullish {A : Type} (v : maybe A) (d : A) : A :=
  match v with
  | Val a => a
  | _ => d
  end.

Definition normalizeWeb3CareerSalary (raw : Web3CareerJob.t) : Salary.t :=
  let min := Num.or (ToNumber (Web3CareerJob.salary_min_value raw)) (Fin 0) in
  let max := Num.or (ToNumber (Web3CareerJob.salary_max_value raw)) (Fin 0) in
  let currency := nullish (Web3CareerJob.salary_currency raw) "" in
  let hasSalary := Num.gt min (Fin 0) || Num.gt max (Fin 0) in
  {| Salary.min := min;
     Salary.max := max;
     Salary.currency := if hasSalary then str_or currency "USD" else "";
     Salary.raw :=
       if hasSalary
       then str_or currency "$" +:+ NumberToString min +:+ "-"
            +:+ str_or currency "$" +:+ NumberToString max
       else "" |}.

Definition normalizeWeb3CareerJob (raw : Web3CareerJob.t) : Job.t :=
  {| Job.id := generateJobId (Web3CareerJob.title raw) (Web3CareerJob.company raw);
     Job.title := Web3CareerJob.title raw;
     Job.company := Web3CareerJob.company raw;
     Job.url := Web3CareerJob.apply_url raw;
     Job.salary := normalizeWeb3CareerSalary raw;
     Job.location :=
       str_or (str_or (Web3CareerJob.location raw) (Web3CareerJob.country raw)) "Remote";
     Job.remote := Web3CareerJob.is_remote raw;
     Job.skills := List.map toLowerCase (Web3CareerJob.tags raw);
     Job.postedAt := DateParse (Web3CareerJob.date raw);
     Job.source := web3career |}.

(** One iteration of the validation loop of the RemoteOK adapter; the
    state is [(jobs, rawParsed)]. *)
Definition remoteOKStep (st : list Job.t * list RemoteOKJob.t) (item : json)
  : list Job.t * list RemoteOKJob.t :=
  match RemoteOKJobSchema_safeParse isURL item with
  | Some data => (fst st ++ [normalizeRemoteOKJob data], snd st ++ [data])
  | None => st
  end.

Definition web3CareerStep (st : list Job.t * list Web3CareerJob.t) (item : json)
  : list Job.t * list Web3CareerJob.t :=
  match Web3CareerJobSchema_safeParse isURL item with
  | Some data => (fst st ++ [normalizeWeb3CareerJob data], snd st ++ [data])
  | None => st
  end.
End Normalise.

(* ===================================================================== *)
(** * [src/fetcher.ts]: the early version *)
(* ===================================================================== *)

Module FetcherV1.
Section Adapters.
Context {platform : StringCase}.
Variable sha256hex : string -> string.
Variable NumberToString : number -> string.
Variable DateParse : string -> Date.
Variable isURL : string -> bool.

Definition fetchFromRemoteOK : M (list Job.t) :=
  response ← fetchWithRetry REMOTEOK_URL;
  match response with
  | None => mret []
  | Some response =>
      tryCatch
        (data ← Response_json response;
         match data with
         | JArr items =>
             (* First element is metadata: skip it *)
             let rawJobs := skipn 1 items in
             let st :=
               fold_left (remoteOKStep sha256hex NumberToString DateParse isURL)
                 rawJobs ([], []) in
             mret (fst st)
         | _ => mret []
         end)
        (fun _ => mret [])
  end.

(** Placeholder. *)
Definition fetchFromWeb3Career : M (list Job.t) := mret [].

(** The body of [fetchAllJobs] after the two adapters have returned. *)
Definition aggregate (remoteOKJobs web3Jobs : list Job.t) : list Job.t :=
  let allJobs := remoteOKJobs ++ web3Jobs in
  allJobs.

(** [Promise.all] over the two adapters, which touch disjoint parts of
    the world, is modelled by running them in order. *)
Definition fetchAllJobs : M (list Job.t) :=
  remoteOKJobs ← fetchFromRemoteOK;
  web3Jobs ← fetchFromWeb3Career;
  mret (aggregate remoteOKJobs web3Jobs).
End Adapters.
End FetcherV1.

(* ===================================================================== *)
(** * [src/unnamed/part_000]: the later version of [fetcher.ts] *)
(* ===================================================================== *)

Module Fetcher.

(** One iteration of the de-duplication loop; the state is
    [(seen, deduplicated, duplicateCount)]. *)
Definition dedupStep (st : gset string * list Job.t * nat) (job : Job.t)
  : gset string * list Job.t * nat :=
  let '(seen, deduplicated, duplicateCount) := st in
  if bool_decide (Job.id job ∈ seen)
  then (seen, deduplicated, S duplicateCount)
  else ({[ Job.id job ]} ∪ seen, deduplicated ++ [job], duplicateCount).

Definition dedupLoop (allJobs : list Job.t) : gset string * list Job.t * nat :=
  fold_left dedupStep allJobs (∅, [], 0).

(** The body of [fetchAllJobs] after the two adapters have returned. *)
Definition aggregate (remoteOKJobs web3Jobs : list Job.t) : list Job.t :=
  let allJobs := remoteOKJobs ++ web3Jobs in
  let '(_, deduplicated, _) := dedupLoop allJobs in
  deduplicated.

(** The [duplicateCount] reported when the loop ends. *)
Definition duplicateCount (remoteOKJobs web3Jobs : list Job.t) : nat :=
  let '(_, _, n) := dedupLoop (remoteOKJobs ++ web3Jobs) in n.

Section Adapters.
Context {platform : StringCase}.
Variable sha256hex : string -> string.
Variable StringToNumber : string -> number.
Variable NumberToString : number -> string.
Variable DateParse : string -> Date.
Variable isURL : string -> bool.

Definition fetchFromRemoteOK : M (list Job.t) :=
  response ← fetchWithRetry REMOTEOK_URL;
  match response with
  | None => mret []
  | Some response =>
      tryCatch
        (data ← Response_json response;
         match data with
         | JArr items =>
             (* First element is metadata: skip it *)
             let rawJobs := skipn 1 items in
             let st :=
               fold_left (remoteOKStep sha256hex NumberToString DateParse isURL)
                 rawJobs ([], []) in
             _ ← saveRawData "remoteok" (RawRemoteOK (snd st));
             mret (fst st)
         | _ => mret []
         end)
        (fun _ => mret [])
  end.

Definition fetchFromWeb3Career : M (list Job.t) :=
  token ← getenv_WEB3_CAREER_API_KEY;
  match token with
  | None | Some "" => mret []
  | Some token =>
      let url := WEB3CAREER_BASE_URL +:+ "?token=" +:+ token +:+ "&remote=true&limit=100" in
      response ← fetchWithRetry url;
      match response with
      | None => mret []
      | Some response =>
          tryCatch
            (data ← Response_json response;
             match data with
             | JArr items =>
                 (* [0] metadata string, [1] docs string, [2] jobs array *)
                 let rawJobs :=
                   match nth_error items 2 with
                   | Some (JArr jobsArray) => jobsArray
                   | _ => []
                   end in
                 let st :=
                   fold_left
                     (web3CareerStep sha256hex StringToNumber NumberToString DateParse isURL)
                     rawJobs ([], []) in
                 _ ← saveRawData "web3career" (RawWeb3Career (snd st));
                 mret (fst st)
             | _ => mret []
             end)
            (fun _ => mret [])
      end
  end.

Definition fetchAllJobs : M (list Job.t) :=
  remoteOKJobs ← fetchFromRemoteOK;
  web3Jobs ← fetchFromWeb3Career;
  mret (aggregate remoteOKJobs web3Jobs).
End Adapters.
End Fetcher.

(* ===================================================================== *)
(** * [config.ts] *)
(* ===================================================================== *)

(** The validators the configuration schema adds to those of the job
    schemas. *)
Module ZodConfig.

(** [z.string().email()] *)
Definition string_email (isEmail : string -> bool) (v : option json) : option string :=
  s ← Zod.string_ v;
  if isEmail s then Some s else None.

(** [inner.default(d)] *)
Definition default_ {A : Type}
    (inner : option json -> option A) (d : A) (v : option json) : option A :=
  match v with
  | None => Some d
  | Some _ => inner v
  end.

(** [z.array(z.string()).min(1)] *)
Definition array_string_min1 (v : option json) : option (list string) :=
  l ← Zod.array_string v;
  if Nat.leb 1 (length l) then Some l else None.

(** [z.number().positive()] *)
Definition number_positive (v : option json) : option number :=
  n ← Zod.number_ v;
  if Num.gt n (Fin 0) then Some n else None.

End ZodConfig.

Section ConfigFile.
(** Whether zod's e-mail pattern matches. *)
Variable isEmail : string -> bool.
(** [readFileSync(path, 'utf-8')], [YAML.parse] and the message of the
    [ZodError] raised for a rejected value. *)
Variable readFileSync : string -> Completion string.
Variable YAML_parse : string -> Completion json.
Variable ZodError_message : json -> string.

Definition UserSchema_safeParse (v : option json) : option Config.User :=
  match v with
  | Some (JObj fields) =>
      name ← Zod.string_min1 (prop_lookup "name" fields);
      email ← ZodConfig.string_email isEmail (prop_lookup "email" fields);
      timezone ← ZodConfig.default_ Zod.string_ "UTC" (prop_lookup "timezone" fields);
      Some (Config.mkUser name email timezone)
  | _ => None
  end.

Definition PreferencesSchema_safeParse (v : option json) : option Config.Preferences :=
  match v with
  | Some (JObj fields) =>
      skills ← ZodConfig.array_string_min1 (prop_lookup "skills" fields);
      salaryMinimum ← ZodConfig.number_positive (prop_lookup "salaryMinimum" fields);
      location ← Zod.string_ (prop_lookup "location" fields);
      Some (Config.mkPreferences skills salaryMinimum location)
  | _ => None
  end.

(** [ConfigSchema.safeParse(data)]: [Some config] on success. *)
Definition ConfigSchema_safeParse (data : json) : option Config.t :=
  match data with
  | JObj fields =>
      user ← UserSchema_safeParse (prop_lookup "user" fields);
      preferences ← PreferencesSchema_safeParse (prop_lookup "preferences" fields);
      hardNos ← ZodConfig.default_ Zod.array_string [] (prop_lookup "hardNos" fields);
      Some (Config.mk user preferences hardNos)
  | _ => None
  end.

(** [ConfigSchema.parse(data)] throws where [safeParse] reports issues. *)
Definition ConfigSchema_parse (data : json) : Completion Config.t :=
  match ConfigSchema_safeParse data with
  | Some config => Normal config
  | None => Throw (ZodError_message data)
  end.

Definition loadConfig (path : string) : Completion Config.t :=
  match readFileSync path with
  | Throw _ => Throw ("Config file not found: " +:+ path)
  | Normal raw =>
      match YAML_parse raw with
      | Throw message => Throw message
      | Normal parsed => ConfigSchema_parse parsed
      end
  end.
End ConfigFile.

(* ===================================================================== *)
(** * [emailer.ts]: the rendering of the digest *)
(* ===================================================================== *)

(** The double quote and the line feed, which the templates contain. *)
Definition dq : string := String (ascii_of_nat 34) EmptyString.
Definition nl : string := String (ascii_of_nat 10) EmptyString.

(** The string a [JobSource] is at run time. *)
Definition JobSource_value (source : JobSource) : string :=
  match source with
  | remoteok => "remoteok"
  | web3career => "web3career"
  end.

Definition sourceLabel (source : string) : string :=
  if String.eqb source "remoteok" then "Remote OK"
  else if String.eqb source "web3career" then "Web3.Career"
  else source.

Section Emailer.
Variable NumberToString : number -> string.

Definition jobCardHTML (match_ : MatchResult.t) : string :=
  let job := MatchResult.job match_ in
  let score := MatchResult.score match_ in
  let explanation := MatchResult.explanation match_ in
  let salaryText := str_or (Salary.raw (Job.salary job)) "Not disclosed" in
  nl +:+ "    <div style=" +:+ dq
  +:+ "border:1px solid #e0e0e0;border-radius:8px;padding:20px;"
  +:+ "margin-bottom:16px;background:#fff;"
  +:+ dq +:+ ">" +:+ nl +:+ "      <div style=" +:+ dq
  +:+ "display:flex;justify-content:space-between;align-items:center;margin-bottom:8px;"
  +:+ dq +:+ ">" +:+ nl +:+ "        <h2 style=" +:+ dq
  +:+ "margin:0;font-size:18px;color:#1a1a1a;" +:+ dq +:+ ">" +:+ (Job.title job)
  +:+ "</h2>" +:+ nl +:+ "        <span style=" +:+ dq
  +:+ "background:#4CAF50;color:#fff;padding:4px 10px;border-radius:12px;"
  +:+ "font-size:14px;font-weight:bold;"
  +:+ dq +:+ ">" +:+ (NumberToString score) +:+ "%</span>" +:+ nl +:+ "      </div>"
  +:+ nl +:+ "      <p style=" +:+ dq +:+ "margin:4px 0;color:#555;font-size:14px;"
  +:+ dq +:+ ">" +:+ (Job.company job) +:+ " &bull; " +:+ salaryText +:+ "</p>" +:+ nl
  +:+ "      <div style=" +:+ dq
  +:+ "margin:12px 0;font-size:13px;color:#666;line-height:1.5;" +:+ dq +:+ ">" +:+ nl
  +:+ "        "
  +:+ (join "" (List.map (fun line => "<div>" +:+ line +:+ "</div>") explanation))
  +:+ nl +:+ "      </div>" +:+ nl +:+ "      <div style=" +:+ dq
  +:+ "display:flex;justify-content:space-between;align-items:center;" +:+ dq +:+ ">"
  +:+ nl +:+ "        <a href=" +:+ dq +:+ (Job.url job) +:+ dq +:+ " style=" +:+ dq
  +:+ "display:inline-block;background:#2196F3;color:#fff;padding:10px 20px;"
  +:+ "border-radius:6px;text-decoration:none;font-size:14px;"
  +:+ "font-weight:bold;"
  +:+ dq +:+ ">View Job</a>" +:+ nl +:+ "        <span style=" +:+ dq
  +:+ "font-size:12px;color:#999;" +:+ dq +:+ ">Source: "
  +:+ (sourceLabel (JobSource_value (Job.source job))) +:+ "</span>" +:+ nl
  +:+ "      </div>" +:+ nl +:+ "    </div>".

(** The paragraph shown when there is no match. *)
Definition noMatchesHTML : string :=
  "<p style=" +:+ dq +:+ "color:#666;font-size:16px;text-align:center;padding:40px 0;"
  +:+ dq
  +:+ ">No jobs passed your filters today. "
  +:+ "Try broadening your skills or adjusting your Hard Nos.</p>".

Definition generateEmailHTML (matches : list MatchResult.t) : string :=
  let cards := join "" (List.map jobCardHTML matches) in
  let bodyContent :=
    if Nat.ltb 0 (length matches) then cards else noMatchesHTML in
  "<!DOCTYPE html>" +:+ nl +:+ "<html>" +:+ nl +:+ "<head>" +:+ nl
  +:+ "  <meta charset=" +:+ dq +:+ "utf-8" +:+ dq +:+ ">" +:+ nl +:+ "  <meta name="
  +:+ dq +:+ "viewport" +:+ dq +:+ " content=" +:+ dq
  +:+ "width=device-width,initial-scale=1" +:+ dq +:+ ">" +:+ nl +:+ "</head>" +:+ nl
  +:+ "<body style=" +:+ dq
  +:+ "margin:0;padding:0;background:#f5f5f5;"
  +:+ "font-family:-apple-system,BlinkMacSystemFont,'Segoe "
  +:+ "UI',Roboto,sans-serif;"
  +:+ dq +:+ ">" +:+ nl +:+ "  <div style=" +:+ dq
  +:+ "max-width:600px;margin:0 auto;padding:20px;" +:+ dq +:+ ">" +:+ nl
  +:+ "    <h1 style=" +:+ dq +:+ "font-size:22px;color:#1a1a1a;margin-bottom:20px;"
  +:+ dq +:+ ">Career Coach Daily Matches</h1>" +:+ nl +:+ "    " +:+ bodyContent +:+ nl
  +:+ "    <p style=" +:+ dq
  +:+ "font-size:12px;color:#999;text-align:center;margin-top:24px;" +:+ dq +:+ ">"
  +:+ nl +:+ "      Powered by Career Coach &bull; <a href=" +:+ dq
  +:+ "https://remoteok.com" +:+ dq +:+ " style=" +:+ dq +:+ "color:#999;" +:+ dq
  +:+ ">RemoteOK</a> &bull; <a href=" +:+ dq +:+ "https://web3.career" +:+ dq
  +:+ " style=" +:+ dq +:+ "color:#999;" +:+ dq +:+ ">Web3.Career</a>" +:+ nl
  +:+ "    </p>" +:+ nl +:+ "  </div>" +:+ nl +:+ "</body>" +:+ nl +:+ "</html>".

(** [matchCount] is the length of the match list. *)
Definition generateSubject (matchCount : nat) : string :=
  if Nat.eqb matchCount 0 then "No matches today"
  else "Your " +:+ NumberToString (Num.of_nat matchCount) +:+ " matches for today".
End Emailer.

(* ===================================================================== *)
(** * Vocabulary of the specification *)
(* ===================================================================== *)

(** [pat] occurs in [s] as a contiguous substring. *)
Definition isSubstring (pat s : string) : Prop :=
  exists pre post : string, s = pre +:+ pat +:+ post.

(** What the properties use of the platform's [toLowerCase]: on ASCII text
    it is the letter-by-letter mapping, and lower-casing twice is
    lower-casing once. *)
Definition lowersASCII {platform : StringCase} : Prop :=
  forall s : string, isASCII s = true -> toLowerCase s = lowerASCII s.

Definition lowersOnce {platform : StringCase} : Prop :=
  forall s : string, toLowerCase (toLowerCase s) = toLowerCase s.

(** Some hard-no pattern is a case-insensitive substring of the title, the
    company or a skill tag of the job. *)
Definition hardNoHit {platform : StringCase} (hardNos : list string) (job : Job.t) : Prop :=
  exists pattern field : string,
    In pattern hardNos
    /\ In field (Job.title job :: Job.company job :: Job.skills job)
    /\ isSubstring (toLowerCase pattern) (toLowerCase field).

(** The boolean test the filter loop applies to a job. *)
Definition passesHardNos {platform : StringCase} (hardNos : list string) (job : Job.t) : bool :=
  negb (Nat.ltb 0 (length (matchedPatterns (List.map toLowerCase hardNos) job))).

(** Rounding to the nearest integer, halves upwards. *)
Definition round_half_up (q : Q) : Z := Qfloor (q + (1 # 2))%Q.

(** [x] lies exactly halfway between two integers. *)
Definition halfway (x : Q) : Prop := exists k : Z, (x == inject_Z k + (1 # 2))%Q.

(** The sum the scorer rounds, as double arithmetic builds it from the
    exact skill ratio and the two bonuses. *)
Definition doubleSum (ratio salaryBonus locationBonus : Q) : Q :=
  Num.binary64
    (Num.binary64 (Num.binary64 (Num.binary64 ratio * 100) + salaryBonus)
     + locationBonus)%Q.

(** A scored job as the data model has it: a finite score and a valid
    [postedAt]. *)
Definition scoredJob (r : MatchResult.t) : Prop :=
  (exists q : Q, MatchResult.score r = Fin q)
  /\ (exists ms : Z, Job.postedAt (MatchResult.job r) = TimeValue ms).

Definition scoreOf (r : MatchResult.t) : Q :=
  match MatchResult.score r with
  | Fin q => q
  | _ => 0%Q
  end.

Definition timeOf (r : MatchResult.t) : Z :=
  match Job.postedAt (MatchResult.job r) with
  | TimeValue ms => ms
  | InvalidDate => 0%Z
  end.

(** [a] may stand before [b]: higher score first, and on equal scores the
    later [postedAt] first. *)
Definition ranksBefore (a b : MatchResult.t) : Prop :=
  (scoreOf b < scoreOf a)%Q
  \/ ((scoreOf a == scoreOf b)%Q /\ (timeOf b <= timeOf a)%Z).

(** [a] has to stand behind [b]. *)
Definition ranksAfter (a b : MatchResult.t) : Prop :=
  (scoreOf a < scoreOf b)%Q
  \/ ((scoreOf a == scoreOf b)%Q /\ (timeOf a < timeOf b)%Z).

(** [r] is equal to [k] on both sort keys. *)
Definition sameKeys (k r : MatchResult.t) : bool :=
  Qeq_bool (scoreOf k) (scoreOf r) && Z.eqb (timeOf k) (timeOf r).

(** The de-duplication loop in direct style: the jobs of [l] whose id is
    neither in [seen] nor carried by an earlier job of [l]. *)
Fixpoint keepFirst (seen : gset string) (l : list Job.t) : list Job.t :=
  match l with
  | [] => []
  | job :: l' =>
      if bool_decide (Job.id job ∈ seen)
      then keepFirst seen l'
      else job :: keepFirst ({[ Job.id job ]} ∪ seen) l'
  end.

(** The jobs of [l] whose id is [v]. *)
Definition withId (v : string) (l : list Job.t) : list Job.t :=
  List.filter (fun job => String.eqb (Job.id job) v) l.

(** The response of a successful attempt. *)
Definition succeeded (o : FetchOutcome) : option Response :=
  match o with
  | Responded r => if Response_ok r then Some r else None
  | Rejected _ => None
  end.

(** The response of the first successful attempt of a sequence. *)
Fixpoint firstSuccess (outcomes : list FetchOutcome) : option Response :=
  match outcomes with
  | [] => None
  | o :: rest =>
      match succeeded o with
      | Some r => Some r
      | None => firstSuccess rest
      end
  end.

(** The number of attempts made up to and including the first success. *)
Fixpoint attemptsUsed (outcomes : list FetchOutcome) : nat :=
  match outcomes with
  | [] => 0
  | o :: rest =>
      match succeeded o with
      | Some _ => 1
      | None => S (attemptsUsed rest)
      end
  end.

Fixpoint outcomesFrom (net : nat -> FetchOutcome) (start n : nat) : list FetchOutcome :=
  match n with
  | 0 => []
  | S n' => net start :: outcomesFrom net (S start) n'
  end.

(** What the next [n] calls of [fetch url] will do in the world [w]. *)
Definition upcoming (w : World) (url : string) (n : nat) : list FetchOutcome :=
  outcomesFrom (network w url) (fetches w) n.

(** The URL the Web3.Career adapter fetches with the API key [token]. *)
Definition web3CareerURL (token : string) : string :=
  WEB3CAREER_BASE_URL +:+ "?token=" +:+ token +:+ "&remote=true&limit=100".

(** [0 <= n] in the sense of JavaScript's [>=]. *)
Definition nonNegative (n : number) : Prop := Num.ge n (Fin 0) = true.

(** The pauses of the retry loop: one after every failed attempt that is
    not the last one. *)
Fixpoint pauses (outcomes : list FetchOutcome) : nat :=
  match outcomes with
  | [] => 0
  | o :: rest =>
      match succeeded o with
      | Some _ => 0
      | None =>
          match rest with
          | [] => 0
          | _ :: _ => S (pauses rest)
          end
      end
  end.

(** The records of a response that pass the schema, in order. *)
Definition validRemoteOK (isURL : string -> bool) (items : list json)
  : list RemoteOKJob.t :=
  omap (RemoteOKJobSchema_safeParse isURL) items.

Definition validWeb3Career (isURL : string -> bool) (items : list json)
  : list Web3CareerJob.t :=
  omap (Web3CareerJobSchema_safeParse isURL) items.

(** The ids of a job list, as a set. *)
Definition idsOf (l : list Job.t) : gset string :=
  list_to_set (List.map Job.id l).

(* ===================================================================== *)
(** * Sample data for the worked examples *)
(* ===================================================================== *)

(** Stand-ins for the built-ins, so that the examples can be run; the
    properties below hold for every choice of the built-ins.  The examples
    are ASCII text, which [toLowerCase] lower-cases letter by letter: the
    worked examples run with this instance, every other statement
    quantifies over the platform. *)
#[global] Instance sample_StringCase : StringCase := {| toLowerCase := lowerASCII |}.

Definition sample_digest (s : string) : string := s.
Definition sample_StringToNumber (s : string) : number :=
  match NilZero.int_of_string s with
  | Some d => Fin (inject_Z (Z.of_int d))
  | None => NaN
  end.
Definition sample_NumberToString (n : number) : string :=
  match n with
  | NaN => "NaN"
  | NegInf => "-Infinity"
  | PosInf => "Infinity"
  | Fin q => NilZero.string_of_int (Z.to_int (Qfloor q))
  end.
Definition sample_DateParse (s : string) : Date :=
  if String.eqb s "2024-01-05" then TimeValue 1704412800000 else InvalidDate.
Definition sample_isURL (s : string) : bool := String.prefix "https://" s.

(** Scenario A of the specification. *)
Definition scenarioA_job : Job.t :=
  {| Job.id := "5f2c";
     Job.title := "Systems Engineer";
     Job.company := "Ferrous";
     Job.url := "https://example.org/jobs/1";
     Job.salary := Salary.mk (Fin 120000) (Fin 150000) "USD" "$120000-$150000";
     Job.location := "Berlin";
     Job.remote := true;
     Job.skills := ["rust"; "go"];
     Job.postedAt := TimeValue 1704153600000;
     Job.source := remoteok |}.

Definition scenarioA_config : Config.t :=
  {| Config.user := Config.mkUser "Ada" "ada@example.org" "UTC";
     Config.preferences := Config.mkPreferences ["rust"; "go"; "python"] (Fin 100000) "Berlin";
     Config.hardNos := ["crypto"] |}.

Definition crypto_job : Job.t :=
  {| Job.id := "77aa";
     Job.title := "Crypto Backend Engineer";
     Job.company := "Chainworks";
     Job.url := "https://example.org/jobs/2";
     Job.salary := Salary.mk (Fin 0) (Fin 0) "" "";
     Job.location := "Remote";
     Job.remote := true;
     Job.skills := ["go"];
     Job.postedAt := TimeValue 1704412800000;
     Job.source := web3career |}.

Definition sample_match (title : string) (score : Q) (ms : Z) : MatchResult.t :=
  {| MatchResult.job :=
       {| Job.id := title;
          Job.title := title;
          Job.company := "Acme";
          Job.url := "https://example.org/jobs";
          Job.salary := Salary.mk (Fin 0) (Fin 0) "" "";
          Job.location := "Remote";
          Job.remote := true;
          Job.skills := [];
          Job.postedAt := TimeValue ms;
          Job.source := remoteok |};
     MatchResult.score := Fin score;
     MatchResult.matchedSkills := [];
     MatchResult.explanation := [] |}.

(** Scenario B of the specification: two jobs that both score 80. *)
Definition posted_jan02 : MatchResult.t :=
  sample_match "posted 2024-01-02" 80 1704153600000.

Definition posted_jan05 : MatchResult.t :=
  sample_match "posted 2024-01-05" 80 1704412800000.

Definition scenarioB_scored : list MatchResult.t :=
  [ posted_jan02; posted_jan05; sample_match "best match" 95 1704067200000 ].

Definition sample_remoteok_raw : RemoteOKJob.t :=
  {| RemoteOKJob.id := "1093";
     RemoteOKJob.position := "Rust Engineer";
     RemoteOKJob.company := "Ferrous";
     RemoteOKJob.url := "https://remoteok.com/jobs/1093";
     RemoteOKJob.salary_min := Fin 0;
     RemoteOKJob.salary_max := Fin 0;
     RemoteOKJob.location := "";
     RemoteOKJob.tags := [];
     RemoteOKJob.date := "2024-01-05" |}.

Definition sample_web3_raw : Web3CareerJob.t :=
  {| Web3CareerJob.id := Fin 77;
     Web3CareerJob.title := "Rust Engineer";
     Web3CareerJob.company := "Ferrous";
     Web3CareerJob.apply_url := "https://web3.career/j/77";
     Web3CareerJob.date := "2024-01-05";
     Web3CareerJob.is_remote := false;
     Web3CareerJob.location := "";
     Web3CareerJob.country := "Germany";
     Web3CareerJob.tags := ["Rust"];
     Web3CareerJob.salary_min_value := Val (UStr "90000");
     Web3CareerJob.salary_max_value := Null;
     Web3CareerJob.salary_currency := Undefined;
     Web3CareerJob.salary_unit := Undefined |}.

(** A world in which every request times out. *)
Definition offline_world : World :=
  {| network := fun _ _ => Rejected "The operation was aborted due to timeout";
     fetches := 0;
     slept := 0;
     env_WEB3_CAREER_API_KEY := Some "k3y";
     diskWritable := true;
     saved := [] |}.

(** A RemoteOK record with the required fields only. *)
Definition sample_remoteok_fields : list (string * json) :=
  [ ("id", JStr "1093");
    ("position", JStr "Rust Engineer");
    ("company", JStr "Ferrous");
    ("url", JStr "https://remoteok.com/jobs/1093");
    ("date", JStr "2024-01-05") ].

(** A Web3.Career record with the required fields only. *)
Definition sample_web3_fields : list (string * json) :=
  [ ("id", JNum (Fin 77));
    ("title", JStr "Rust Engineer");
    ("company", JStr "Ferrous");
    ("apply_url", JStr "https://web3.career/j/77");
    ("date", JStr "2024-01-05") ].

(** A RemoteOK record with a negative salary. *)
Definition negative_salary_json : json :=
  JObj [ ("id", JStr "2001");
         ("position", JStr "Go Developer");
         ("company", JStr "Gopherworks");
         ("url", JStr "https://remoteok.com/jobs/2001");
         ("salary_min", JNum (Fin (-5000)));
         ("salary_max", JNum (Fin 90000));
         ("date", JStr "2024-01-05") ].

(** A Web3.Career record with a negative salary. *)
Definition negative_salary_web3_json : json :=
  JObj [ ("id", JNum (Fin 78));
         ("title", JStr "Go Developer");
         ("company", JStr "Gopherworks");
         ("apply_url", JStr "https://web3.career/j/78");
         ("date", JStr "2024-01-05");
         ("salary_min_value", JNum (Fin (-5000)));
         ("salary_max_value", JNull) ].

(** What the schemas return on the sample records above. *)
Definition sample_web3_minimal : Web3CareerJob.t :=
  {| Web3CareerJob.id := Fin 77;
     Web3CareerJob.title := "Rust Engineer";
     Web3CareerJob.company := "Ferrous";
     Web3CareerJob.apply_url := "https://web3.career/j/77";
     Web3CareerJob.date := "2024-01-05";
     Web3CareerJob.is_remote := false;
     Web3CareerJob.location := "";
     Web3CareerJob.country := "";
     Web3CareerJob.tags := [];
     Web3CareerJob.salary_min_value := Undefined;
     Web3CareerJob.salary_max_value := Undefined;
     Web3CareerJob.salary_currency := Undefined;
     Web3CareerJob.salary_unit := Undefined |}.

Definition negative_salary_raw : RemoteOKJob.t :=
  {| RemoteOKJob.id := "2001";
     RemoteOKJob.position := "Go Developer";
     RemoteOKJob.company := "Gopherworks";
     RemoteOKJob.url := "https://remoteok.com/jobs/2001";
     RemoteOKJob.salary_min := Fin (-5000);
     RemoteOKJob.salary_max := Fin 90000;
     RemoteOKJob.location := "";
     RemoteOKJob.tags := [];
     RemoteOKJob.date := "2024-01-05" |}.

Definition negative_salary_web3_raw : Web3CareerJob.t :=
  {| Web3CareerJob.id := Fin 78;
     Web3CareerJob.title := "Go Developer";
     Web3CareerJob.company := "Gopherworks";
     Web3CareerJob.apply_url := "https://web3.career/j/78";
     Web3CareerJob.date := "2024-01-05";
     Web3CareerJob.is_remote := false;
     Web3CareerJob.location := "";
     Web3CareerJob.country := "";
     Web3CareerJob.tags := [];
     Web3CareerJob.salary_min_value := Val (UNum (Fin (-5000)));
     Web3CareerJob.salary_max_value := Null;
     Web3CareerJob.salary_currency := Undefined;
     Web3CareerJob.salary_unit := Undefined |}.

(** A world in which the first request is answered with status 503 and the
    second with a RemoteOK body: the metadata element, a valid record and a
    record without a company. *)
Definition flaky_world : World :=
  {| network := fun _ n =>
       match n with
       | 0 => Responded (mkResponse 503 None)
       | _ => Responded (mkResponse 200
                (Some (JArr [ JObj [("legal", JStr "terms")];
                              JObj sample_remoteok_fields;
                              JObj [("id", JStr "7"); ("position", JStr "Intern")] ])))
       end;
     fetches := 0;
     slept := 0;
     env_WEB3_CAREER_API_KEY := None;
     diskWritable := true;
     saved := [] |}.

(** A scored job whose date string could not be parsed. *)
Definition undated_match : MatchResult.t :=
  {| MatchResult.job :=
       {| Job.id := "undated";
          Job.title := "undated";
          Job.company := "Acme";
          Job.url := "https://example.org/jobs";
          Job.salary := Salary.mk (Fin 0) (Fin 0) "" "";
          Job.location := "Remote";
          Job.remote := true;
          Job.skills := [];
          Job.postedAt := InvalidDate;
          Job.source := remoteok |};
     MatchResult.score := Fin 80;
     MatchResult.matchedSkills := [];
     MatchResult.explanation := [] |}.

(** A RemoteOK record whose date is not a date. *)
Definition undated_fields : list (string * json) :=
  [ ("id", JStr "3001");
    ("position", JStr "undated");
    ("company", JStr "Acme");
    ("url", JStr "https://remoteok.com/jobs/3001");
    ("date", JStr "soon") ].

(** The two normalisers with the stand-ins. *)
Definition sample_normalizeRemoteOK : RemoteOKJob.t -> Job.t :=
  normalizeRemoteOKJob sample_digest sample_NumberToString sample_DateParse.

Definition sample_normalizeWeb3Career : Web3CareerJob.t -> Job.t :=
  normalizeWeb3CareerJob sample_digest sample_StringToNumber sample_NumberToString
    sample_DateParse.

(** The response of [flaky_world] to its second request. *)
Definition flaky_response : Response :=
  mkResponse 200
    (Some (JArr [ JObj [("legal", JStr "terms")];
                  JObj sample_remoteok_fields;
                  JObj [("id", JStr "7"); ("position", JStr "Intern")] ])).

(** [flaky_world] with a disk that cannot be written. *)
Definition readonly_world : World :=
  {| network := network flaky_world;
     fetches := 0;
     slept := 0;
     env_WEB3_CAREER_API_KEY := None;
     diskWritable := false;
     saved := [] |}.

(** A world whose answers are not JSON. *)
Definition garbled_world : World :=
  {| network := fun _ _ => Responded (mkResponse 200 None);
     fetches := 0;
     slept := 0;
     env_WEB3_CAREER_API_KEY := Some "";
     diskWritable := true;
     saved := [] |}.

(** The Web3.Career envelope: metadata, documentation, job array. *)
Definition web3_response : Response :=
  mkResponse 200
    (Some (JArr [ JStr "metadata"; JStr "docs";
                  JArr [ JObj sample_web3_fields; JNull ] ])).

Definition web3_world : World :=
  {| network := fun _ _ => Responded web3_response;
     fetches := 0;
     slept := 0;
     env_WEB3_CAREER_API_KEY := Some "k3y";
     diskWritable := true;
     saved := [] |}.

(** Stand-ins for the built-ins of [config.ts], and a configuration file
    with the required keys only. *)
Definition sample_isEmail (s : string) : bool := includes s "@".

Definition sample_config_fields : list (string * json) :=
  [ ("user", JObj [ ("name", JStr "Ada"); ("email", JStr "ada@example.org") ]);
    ("preferences",
     JObj [ ("skills", JArr [JStr "Rust"; JStr "Go"]);
            ("salaryMinimum", JNum (Fin 100000));
            ("location", JStr "Remote") ]) ].

Definition sample_readFileSync (path : string) : Completion string :=
  if String.eqb path "./config.yaml" then Normal "user: ..."
  else Throw "ENOENT: no such file or directory".

Definition sample_YAML_parse (raw : string) : Completion json :=
  Normal (JObj sample_config_fields).

Definition sample_ZodError_message (data : json) : string := "ZodError".

Definition sample_config : Config.t :=
  {| Config.user := Config.mkUser "Ada" "ada@example.org" "UTC";
     Config.preferences := Config.mkPreferences ["Rust"; "Go"] (Fin 100000) "Remote";
     Config.hardNos := [] |}.

(** A scored match and a RemoteOK record with a maximum salary only, for
    the rendering examples. *)
Definition sample_card_match : MatchResult.t :=
  {| MatchResult.job := scenarioA_job;
     MatchResult.score := Fin 70;
     MatchResult.matchedSkills := ["rust"];
     MatchResult.explanation := ["Skills: 1/2 match (rust)"; "Salary: Not disclosed"] |}.

Definition zero_min_raw : RemoteOKJob.t :=
  RemoteOKJob.mk "9" "Analyst" "Acme" "https://remoteok.com/jobs/9"
    (Fin 0) (Fin 90000) "" [] "2024-01-05".

(** Forty one-letter preference skills, and a job that has the first 23 of
    them: the exact skill score is 57.5. *)
Definition one_letter_skills (letters : string) : list string :=
  List.map (fun c => String c EmptyString) (list_ascii_of_string letters).

Definition halfway_config : Config.t :=
  {| Config.user := Config.mkUser "Ada" "ada@example.org" "UTC";
     Config.preferences :=
       Config.mkPreferences
         (one_letter_skills "abcdefghijklmnopqrstuvwxyz0123456789+#./")
         (Fin 100000) "Lisbon";
     Config.hardNos := [] |}.

Definition halfway_job : Job.t :=
  {| Job.id := "23ab";
     Job.title := "Generalist";
     Job.company := "Acme";
     Job.url := "https://example.org/jobs/23";
     Job.salary := Salary.mk (Fin 0) (Fin 0) "" "";
     Job.location := "Berlin";
     Job.remote := true;
     Job.skills := one_letter_skills "abcdefghijklmnopqrstuvw";
     Job.postedAt := TimeValue 1704153600000;
     Job.source := remoteok |}.

(** The configuration of Scenario A without hard-nos: both sample jobs
    survive the filter. *)
Definition open_config : Config.t :=
  {| Config.user := Config.user scenarioA_config;
     Config.preferences := Config.preferences scenarioA_config;
     Config.hardNos := [] |}.

(* ===================================================================== *)
(** * Properties of the Hard-No filter *)
(* ===================================================================== *)

Lemma append_nil_l (s : string) : "" +:+ s = s.
Proof. reflexivity. Qed.

Lemma append_cons (c : ascii) (s t : string) :
  String c s +:+ t = String c (s +:+ t).
Proof. reflexivity. Qed.

Lemma prefix_spec (pat s : string) :
  String.prefix pat s = true <-> exists post : string, s = pat +:+ post.
Proof.
  revert s. induction pat as [|a pat IH]; intros s.
  - split; [intros _; exists s; reflexivity | intros _; destruct s; reflexivity].
  - destruct s as [|b s].
    + split; [discriminate | intros [post H]; discriminate].
    + change (String.prefix (String a pat) (String b s))
        with (if ascii_dec a b then String.prefix pat s else false).
      destruct (ascii_dec a b) as [->|Hne].
      * rewrite IH. split; intros [post H]; exists post.
        -- rewrite append_cons. now rewrite H.
        -- rewrite append_cons in H. now inversion H.
      * split; [discriminate|].
        intros [post H]. rewrite append_cons in H. congruence.
Qed.

Lemma includes_here (s pat : string) :
  String.prefix pat s = true -> isSubstring pat s.
Proof.
  intros Hp. apply prefix_spec in Hp. destruct Hp as [post Hp].
  exists "", post. exact Hp.
Qed.

Lemma includes_spec (s pat : string) :
  includes s pat = true <-> isSubstring pat s.
Proof.
  induction s as [|c s IH].
  - change (includes "" pat) with (if String.prefix pat "" then true else false).
    destruct (String.prefix pat "") eqn:Hp.
    + split; [intros _; now apply includes_here | reflexivity].
    + split; [discriminate|].
      intros (pre & post & H). destruct pre as [|c' pre].
      * assert (String.prefix pat "" = true) by (apply prefix_spec; exists post; exact H).
        congruence.
      * rewrite append_cons in H. discriminate.
  - change (includes (String c s) pat)
      with (if String.prefix pat (String c s) then true else includes s pat).
    destruct (String.prefix pat (String c s)) eqn:Hp.
    + split; [intros _; now apply includes_here | reflexivity].
    + rewrite IH. split.
      * intros (pre & post & H). exists (String c pre), post.
        rewrite append_cons. now rewrite H.
      * intros (pre & post & H). destruct pre as [|c' pre].
        -- assert (String.prefix pat (String c s) = true)
             by (apply prefix_spec; exists post; exact H).
           congruence.
        -- rewrite append_cons in H. inversion H. exists pre, post. reflexivity.
Qed.

Lemma filterLoop_from {platform : StringCase}
    (patterns : list string) (jobs passed : list Job.t) (excluded : nat) :
  fst (fold_left (filterStep patterns) jobs (passed, excluded))
  = passed ++ List.filter
      (fun job => negb (Nat.ltb 0 (length (matchedPatterns patterns job)))) jobs.
Proof.
  revert passed excluded. induction jobs as [|job jobs IH]; intros passed excluded; simpl.
  - now rewrite app_nil_r.
  - destruct (Nat.ltb 0 (length (matchedPatterns patterns job))); simpl.
    + apply IH.
    + rewrite IH, <- app_assoc. reflexivity.
Qed.

Lemma filterHardNos_filter {platform : StringCase} (jobs : list Job.t) (hardNos : list string) :
  hardNos <> [] ->
  filterHardNos jobs hardNos = List.filter (passesHardNos hardNos) jobs.
Proof.
  intros Hne. unfold filterHardNos, filterLoop, passesHardNos.
  destruct hardNos as [|p ps]; [contradiction|]. simpl Nat.eqb. cbv iota.
  now rewrite filterLoop_from.
Qed.

Lemma passesHardNos_spec {platform : StringCase} (hardNos : list string) (job : Job.t) :
  passesHardNos hardNos job = true <-> ~ hardNoHit hardNos job.
Proof.
  unfold passesHardNos, hardNoHit, matchedPatterns.
  rewrite negb_true_iff, Nat.ltb_ge, Nat.le_0_r, length_zero_iff_nil.
  split.
  - intros Hnil (pattern & field & Hp & Hf & Hsub).
    assert (Hin : In (toLowerCase pattern)
                    (List.filter
                       (fun pattern => existsb (fun field => includes field pattern)
                                         (searchable job))
                       (List.map toLowerCase hardNos))).
    { apply filter_In. split; [now apply in_map|].
      apply existsb_exists. exists (toLowerCase field). split.
      - unfold searchable. now apply in_map.
      - now apply includes_spec. }
    rewrite Hnil in Hin. exact Hin.
  - intros Hno.
    destruct (List.filter _ _) as [|p rest] eqn:Hf; [reflexivity|].
    exfalso. apply Hno.
    assert (Hin : In p (p :: rest)) by now left.
    rewrite <- Hf in Hin. apply filter_In in Hin. destruct Hin as [Hin Hex].
    apply in_map_iff in Hin. destruct Hin as (pattern & <- & Hin).
    apply existsb_exists in Hex. destruct Hex as (f & Hfin & Hinc).
    unfold searchable in Hfin. apply in_map_iff in Hfin.
    destruct Hfin as (field & <- & Hfin).
    exists pattern, field. repeat split; try assumption.
    now apply includes_spec.
Qed.

(** C5. Filtering with an empty hard-no list returns the input sequence
    itself: same elements, same order, nothing removed. *)
Theorem filterHardNos_empty {platform : StringCase} (jobs : list Job.t) :
  filterHardNos jobs [] = jobs.
Proof. reflexivity. Qed.



(* ===================================================================== *)
(** * Properties of the rounding to doubles *)
(* ===================================================================== *)

Section DoublePrecision.
Local Open Scope Q_scope.

Lemma two_neq_0 : ~ 2 == 0.
Proof. discriminate. Qed.

Lemma pow2_pos (e : Z) : 0 < 2 ^ e.
Proof. apply Qpower_0_lt. reflexivity. Qed.

Lemma pow2_succ (e : Z) : 2 ^ (e + 1) == 2 * 2 ^ e.
Proof. rewrite Qpower_plus by apply two_neq_0. rewrite Qpower_1_r. ring. Qed.

Lemma pow2_le (a b : Z) : (a <= b)%Z -> 2 ^ a <= 2 ^ b.
Proof. intros H. apply Qpower_le_compat_l; [exact H | discriminate]. Qed.

Lemma pow2_inject (n : Z) : (0 <= n)%Z -> inject_Z (2 ^ n) == 2 ^ n.
Proof. intros H. now rewrite Zpower_Qpower. Qed.

Lemma ilog2_spec (q : Q) :
  0 < q -> 2 ^ Num.ilog2 q <= q /\ q < 2 ^ (Num.ilog2 q + 1).
Proof.
  intros Hq. destruct q as [n d].
  assert (Hn : (0 < n)%Z) by (unfold Qlt in Hq; simpl in Hq; lia).
  unfold Num.ilog2. cbn [Qnum Qden].
  set (a := Z.log2 n). set (b := Z.log2 (Z.pos d)).
  assert (Ha : (2 ^ a <= n < 2 ^ (a + 1))%Z)
    by (pose proof (Z.log2_spec n Hn); unfold a; rewrite <- Z.add_1_r in *; lia).
  assert (Hb : (2 ^ b <= Z.pos d < 2 ^ (b + 1))%Z)
    by (pose proof (Z.log2_spec (Z.pos d) eq_refl); unfold b;
        rewrite <- Z.add_1_r in *; lia).
  assert (Ha0 : (0 <= a)%Z) by apply Z.log2_nonneg.
  assert (Hb0 : (0 <= b)%Z) by apply Z.log2_nonneg.
  assert (HN : 2 ^ a <= inject_Z n /\ inject_Z n < 2 * 2 ^ a).
  { rewrite <- pow2_succ, <- !pow2_inject by lia. rewrite <- Zle_Qle, <- Zlt_Qlt. exact Ha. }
  assert (HD : 2 ^ b <= inject_Z (Z.pos d) /\ inject_Z (Z.pos d) < 2 * 2 ^ b).
  { rewrite <- pow2_succ, <- !pow2_inject by lia. rewrite <- Zle_Qle, <- Zlt_Qlt. exact Hb. }
  assert (Hl : 2 ^ (a - b) * 2 ^ b == 2 ^ a).
  { rewrite Qpower_minus by apply two_neq_0. field. apply Qpower_not_0, two_neq_0. }
  pose proof (pow2_pos a) as Pa. pose proof (pow2_pos b) as Pb.
  pose proof (pow2_pos (a - b)) as Pl.
  assert (Hq' : n # d == inject_Z n / inject_Z (Z.pos d)) by apply Qmake_Qdiv.
  assert (Hd : 0 < inject_Z (Z.pos d)) by reflexivity.
  destruct (Qle_bool (2 ^ (a - b)) (n # d)) eqn:Hcmp.
  - apply Qle_bool_iff in Hcmp. split; [exact Hcmp|].
    rewrite pow2_succ, Hq'. apply Qlt_shift_div_r; [exact Hd|]. nra.
  - assert (Hlt : n # d < 2 ^ (a - b)).
    { apply Qnot_le_lt. intros H. apply Qle_bool_iff in H. congruence. }
    replace (a - b - 1 + 1)%Z with (a - b)%Z by lia. split; [|exact Hlt].
    assert (Hhalf : 2 * 2 ^ (a - b - 1) == 2 ^ (a - b)).
    { rewrite <- pow2_succ. now replace (a - b - 1 + 1)%Z with (a - b)%Z by lia. }
    pose proof (pow2_pos (a - b - 1)) as Pl'.
    rewrite Hq'. apply Qle_shift_div_l; [exact Hd|]. nra.
Qed.

Lemma ilog2_mono (x y : Q) : 0 < x -> x <= y -> (Num.ilog2 x <= Num.ilog2 y)%Z.
Proof.
  intros Hx Hxy.
  assert (Hy : 0 < y) by lra.
  destruct (ilog2_spec x Hx) as [Hx1 _]. destruct (ilog2_spec y Hy) as [_ Hy2].
  destruct (Z_le_gt_dec (Num.ilog2 x) (Num.ilog2 y)) as [H|H]; [exact H|].
  assert (Hp : 2 ^ (Num.ilog2 y + 1) <= 2 ^ Num.ilog2 x) by (apply pow2_le; lia).
  lra.
Qed.

Lemma ilog2_lt (q : Q) (k : Z) : 0 < q -> q < 2 ^ (k + 1) -> (Num.ilog2 q <= k)%Z.
Proof.
  intros Hq Hk. destruct (ilog2_spec q Hq) as [H1 _].
  assert (H : 2 ^ Num.ilog2 q < 2 ^ (k + 1)) by lra.
  apply Qpower_lt_compat_l_inv in H; [lia | reflexivity].
Qed.

Lemma rne_cases (q : Q) :
  let f := Qfloor q in
  (q - inject_Z f < 1 # 2 /\ Num.rne q = f)
  \/ (q - inject_Z f == 1 # 2 /\ (Num.rne q = f \/ Num.rne q = (f + 1)%Z))
  \/ (1 # 2 < q - inject_Z f /\ Num.rne q = (f + 1)%Z).
Proof.
  intros f. unfold Num.rne. fold f.
  destruct (Qcompare_spec (q - inject_Z f) (1 # 2)) as [H|H|H].
  - right. left. split; [exact H|]. destruct (Z.even f); auto.
  - left. auto.
  - right. right. auto.
Qed.

Lemma floor_bounds (q : Q) : inject_Z (Qfloor q) <= q /\ q < inject_Z (Qfloor q) + 1.
Proof.
  split; [apply Qfloor_le|].
  pose proof (Qlt_floor q) as H. rewrite inject_Z_plus in H. exact H.
Qed.

Lemma rne_error (q : Q) : Qabs (inject_Z (Num.rne q) - q) <= 1 # 2.
Proof.
  pose proof (floor_bounds q) as [H1 H2]. apply Qabs_Qle_condition.
  destruct (rne_cases q) as [[H ->]|[[H [-> | ->]]|[H ->]]];
    rewrite ?inject_Z_plus; change (inject_Z 1) with 1; lra.
Qed.

Lemma rne_mono (x y : Q) : x <= y -> (Num.rne x <= Num.rne y)%Z.
Proof.
  intros Hxy. pose proof (Qfloor_resp_le x y Hxy) as Hf.
  pose proof (floor_bounds x) as [Hx1 Hx2]. pose proof (floor_bounds y) as [Hy1 Hy2].
  destruct (Z.eq_dec (Qfloor x) (Qfloor y)) as [Heq|Hne].
  - unfold Num.rne. rewrite <- Heq.
    destruct (Qcompare_spec (x - inject_Z (Qfloor x)) (1 # 2)) as [Hx|Hx|Hx];
      destruct (Qcompare_spec (y - inject_Z (Qfloor x)) (1 # 2)) as [Hy|Hy|Hy];
      try lra; try lia; destruct (Z.even (Qfloor x)); lia.
  - assert (Hlt : (Qfloor x + 1 <= Qfloor y)%Z) by lia.
    destruct (rne_cases x) as [[_ Hx]|[[_ [Hx|Hx]]|[_ Hx]]];
      destruct (rne_cases y) as [[_ Hy]|[[_ [Hy|Hy]]|[_ Hy]]]; lia.
Qed.

Lemma rne_comp (x y : Q) : x == y -> Num.rne x = Num.rne y.
Proof.
  intros H. apply Z.le_antisymm; apply rne_mono; lra.
Qed.

Lemma rne_inject_Z (z : Z) : Num.rne (inject_Z z) = z.
Proof.
  unfold Num.rne. rewrite Qfloor_Z.
  destruct (Qcompare_spec (inject_Z z - inject_Z z) (1 # 2)) as [H|H|H];
    [lra | reflexivity | lra].
Qed.

Lemma scaled (q : Q) (e : Z) : q / 2 ^ e * 2 ^ e == q.
Proof. field. apply Qpower_not_0, two_neq_0. Qed.

Lemma b64_abs_nonneg (q : Q) : 0 <= q -> 0 <= Num.b64_abs q.
Proof.
  intros Hq. unfold Num.b64_abs. set (e := Num.ulp_exp q).
  pose proof (pow2_pos e) as He.
  assert (H0 : (0 <= Num.rne (q / 2 ^ e))%Z).
  { rewrite <- (rne_inject_Z 0). apply rne_mono. change (inject_Z 0) with 0.
    apply Qle_shift_div_l; [exact He|]. lra. }
  apply Qmult_le_0_compat; [|lra]. now rewrite <- (Zle_Qle 0).
Qed.

Lemma b64_abs_0 (q : Q) : q == 0 -> Num.b64_abs q == 0.
Proof.
  intros Hq. unfold Num.b64_abs. set (e := Num.ulp_exp q).
  assert (H : q / 2 ^ e == inject_Z 0).
  { rewrite Hq. field. apply Qpower_not_0, two_neq_0. }
  rewrite (rne_comp _ _ H), rne_inject_Z. ring.
Qed.

Lemma ulp_exp_mono (x y : Q) : 0 < x -> x <= y -> (Num.ulp_exp x <= Num.ulp_exp y)%Z.
Proof. intros Hx Hxy. pose proof (ilog2_mono x y Hx Hxy). unfold Num.ulp_exp. lia. Qed.

(** Within its binade a positive number, divided by its unit in the last
    place, lies below [2^53], and from [2^52] on when it is normal. *)
Lemma significand_bounds (q : Q) :
  0 < q ->
  q / 2 ^ Num.ulp_exp q < inject_Z (2 ^ 53)
  /\ ((-1074 < Num.ulp_exp q)%Z -> inject_Z (2 ^ 52) <= q / 2 ^ Num.ulp_exp q).
Proof.
  intros Hq. destruct (ilog2_spec q Hq) as [H1 H2].
  pose proof (pow2_pos (Num.ulp_exp q)) as He. split.
  - apply Qlt_shift_div_r; [exact He|]. rewrite pow2_inject by lia.
    rewrite <- Qpower_plus by apply two_neq_0.
    assert (H : 2 ^ (Num.ilog2 q + 1) <= 2 ^ (53 + Num.ulp_exp q))
      by (apply pow2_le; unfold Num.ulp_exp; lia).
    lra.
  - intros Hnormal. apply Qle_shift_div_l; [exact He|]. rewrite pow2_inject by lia.
    rewrite <- Qpower_plus by apply two_neq_0.
    assert (H : 2 ^ (52 + Num.ulp_exp q) <= 2 ^ Num.ilog2 q)
      by (apply pow2_le; unfold Num.ulp_exp in *; lia).
    lra.
Qed.

Lemma b64_abs_mono (x y : Q) : 0 <= x -> x <= y -> Num.b64_abs x <= Num.b64_abs y.
Proof.
  intros Hx Hxy.
  destruct (Qlt_le_dec 0 x) as [Hpos|Hzero].
  - assert (Hy : 0 < y) by lra.
    pose proof (ulp_exp_mono x y Hpos Hxy) as He.
    pose proof (pow2_pos (Num.ulp_exp x)) as Px. pose proof (pow2_pos (Num.ulp_exp y)) as Py.
    destruct (Z.eq_dec (Num.ulp_exp x) (Num.ulp_exp y)) as [Heq|Hne].
    + unfold Num.b64_abs. rewrite <- Heq.
      apply Qmult_le_compat_r; [|lra]. rewrite <- Zle_Qle. apply rne_mono.
      apply Qmult_le_compat_r; [exact Hxy|]. apply Qlt_le_weak, Qinv_lt_0_compat, Px.
    + destruct (significand_bounds x Hpos) as [Hx53 _].
      destruct (significand_bounds y Hy) as [_ Hy52].
      specialize (Hy52 ltac:(unfold Num.ulp_exp in *; lia)).
      assert (Hmx : (Num.rne (x / 2 ^ Num.ulp_exp x) <= 2 ^ 53)%Z)
        by (rewrite <- (rne_inject_Z (2 ^ 53)); apply rne_mono; lra).
      assert (Hmy : (2 ^ 52 <= Num.rne (y / 2 ^ Num.ulp_exp y))%Z)
        by (rewrite <- (rne_inject_Z (2 ^ 52)); apply rne_mono; exact Hy52).
      rewrite Zle_Qle in Hmx, Hmy.
      assert (Hstep : inject_Z (2 ^ 53) * 2 ^ Num.ulp_exp x
                      <= inject_Z (2 ^ 52) * 2 ^ Num.ulp_exp y).
      { rewrite !pow2_inject by lia. rewrite <- !Qpower_plus by apply two_neq_0.
        apply pow2_le. lia. }
      unfold Num.b64_abs.
      apply Qle_trans with (inject_Z (2 ^ 53) * 2 ^ Num.ulp_exp x);
        [apply Qmult_le_compat_r; [exact Hmx | lra]|].
      apply Qle_trans with (inject_Z (2 ^ 52) * 2 ^ Num.ulp_exp y); [exact Hstep|].
      apply Qmult_le_compat_r; [exact Hmy | lra].
  - rewrite (b64_abs_0 x) by lra. apply b64_abs_nonneg. lra.
Qed.

Lemma b64_abs_error (q : Q) (k : Z) :
  0 <= q -> q < 2 ^ (k + 1) ->
  Qabs (Num.b64_abs q - q) <= 2 ^ (Z.max (k - 52) (-1074) - 1).
Proof.
  intros Hq Hk. pose proof (pow2_pos (Z.max (k - 52) (-1074) - 1)) as HE.
  destruct (Qlt_le_dec 0 q) as [Hpos|Hzero].
  - assert (He : (Num.ulp_exp q <= Z.max (k - 52) (-1074))%Z)
      by (pose proof (ilog2_lt q k Hpos Hk); unfold Num.ulp_exp; lia).
    unfold Num.b64_abs. set (e := Num.ulp_exp q) in *. set (t := q / 2 ^ e).
    assert (Ht : q == t * 2 ^ e) by (unfold t; now rewrite scaled).
    pose proof (rne_error t) as Herr. pose proof (pow2_pos e) as Pe.
    assert (Hhalf : 2 * 2 ^ (e - 1) == 2 ^ e).
    { rewrite <- pow2_succ. now replace (e - 1 + 1)%Z with e by lia. }
    assert (Hle : 2 ^ (e - 1) <= 2 ^ (Z.max (k - 52) (-1074) - 1)) by (apply pow2_le; lia).
    apply Qabs_Qle_condition in Herr. apply Qabs_Qle_condition.
    assert (H1 : 0 <= (inject_Z (Num.rne t) - t + (1 # 2)) * 2 ^ e)
      by (apply Qmult_le_0_compat; lra).
    assert (H2 : 0 <= ((1 # 2) - (inject_Z (Num.rne t) - t)) * 2 ^ e)
      by (apply Qmult_le_0_compat; lra).
    split; nra.
  - rewrite (b64_abs_0 q) by lra. apply Qabs_Qle_condition. lra.
Qed.

Lemma binary64_nonneg (q : Q) : 0 <= q -> Num.binary64 q == Num.b64_abs q.
Proof.
  intros Hq. unfold Num.binary64. rewrite Qred_correct.
  apply Qle_bool_iff in Hq. now rewrite Hq.
Qed.

Lemma binary64_mono (x y : Q) : 0 <= x -> x <= y -> Num.binary64 x <= Num.binary64 y.
Proof.
  intros Hx Hxy. rewrite !binary64_nonneg by lra. now apply b64_abs_mono.
Qed.

Lemma binary64_error (q : Q) (k : Z) :
  0 <= q -> q < 2 ^ (k + 1) ->
  Qabs (Num.binary64 q - q) <= 2 ^ (Z.max (k - 52) (-1074) - 1).
Proof. intros Hq Hk. rewrite binary64_nonneg by exact Hq. now apply b64_abs_error. Qed.

(** A non-negative number below a double is rounded to a double in the
    same range. *)
Lemma binary64_range (q hi : Q) :
  0 <= q -> q <= hi -> Num.binary64 hi == hi ->
  0 <= Num.binary64 q /\ Num.binary64 q <= hi.
Proof.
  intros Hq Hhi Hexact. split.
  - rewrite binary64_nonneg by exact Hq. now apply b64_abs_nonneg.
  - rewrite <- Hexact. now apply binary64_mono.
Qed.

Lemma binary64_above (q lo : Q) :
  0 <= lo -> lo <= q -> Num.binary64 lo == lo -> lo <= Num.binary64 q.
Proof. intros Hlo Hq Hexact. rewrite <- Hexact. now apply binary64_mono. Qed.

Lemma rnd_fin (q : Q) :
  0 <= q -> q <= 256 -> Num.rnd (Fin q) = Fin (Num.binary64 q).
Proof.
  intros Hq Hhi. destruct (binary64_range q 256 Hq Hhi) as [Hlo Hup]; [reflexivity|].
  assert (Hbig : 256 < 2 ^ 1024).
  { change 256 with (2 ^ 8). apply Qpower_lt_compat_l; [lia | reflexivity]. }
  unfold Num.rnd.
  destruct (Qle_bool (2 ^ 1024) (Num.binary64 q)) eqn:H1.
  { apply Qle_bool_iff in H1. lra. }
  destruct (Qle_bool (Num.binary64 q) (- 2 ^ 1024)) eqn:H2.
  { apply Qle_bool_iff in H2. lra. }
  reflexivity.
Qed.

End DoublePrecision.

(* ===================================================================== *)
(** * Properties of the scorer *)
(* ===================================================================== *)

Lemma existsb_eqb_elem (skill : string) (l : list string) :
  existsb (fun js => String.eqb js skill) l = bool_decide (skill ∈ l).
Proof.
  induction l as [|x l IH].
  - rewrite bool_decide_eq_false_2 by apply not_elem_of_nil. reflexivity.
  - change (existsb (fun js => String.eqb js skill) (x :: l))
      with (String.eqb x skill || existsb (fun js => String.eqb js skill) l).
    rewrite IH. destruct (String.eqb_spec x skill) as [->|Hne].
    + rewrite (bool_decide_eq_true_2 (skill ∈ skill :: l)) by apply list_elem_of_here.
      reflexivity.
    + apply bool_decide_ext. rewrite elem_of_cons. split; [now right|].
      intros [Heq|Hin]; [congruence | exact Hin].
Qed.

Lemma filter_bool_decide {A : Type} (P : A -> Prop) `{forall x, Decision (P x)}
    (l : list A) :
  List.filter (fun x => bool_decide (P x)) l = filter P l.
Proof.
  induction l as [|x l IH]; simpl; [reflexivity|].
  rewrite filter_cons, IH. destruct (decide (P x)) as [Hp|Hp].
  - now rewrite bool_decide_eq_true_2.
  - now rewrite bool_decide_eq_false_2.
Qed.

Lemma scoreJob_matchedSkills {platform : StringCase} (job : Job.t) (config : Config.t) :
  ScoreResult.matchedSkills (scoreJob job config)
  = filter (fun skill => skill ∈ List.map toLowerCase (Job.skills job))
      (List.map toLowerCase (Config.skills (Config.preferences config))).
Proof.
  unfold scoreJob; simpl. rewrite <- filter_bool_decide.
  apply List.filter_ext. intros skill. apply existsb_eqb_elem.
Qed.

Lemma Qltb_inject_Z (a b : Z) : Num.Qltb (inject_Z a) (inject_Z b) = Z.ltb a b.
Proof.
  unfold Num.Qltb, Z.ltb, Qcompare, inject_Z; simpl. now rewrite !Z.mul_1_r.
Qed.

(** [Math.min(100, Math.round(x))] is [round(min(100, x))]. *)
Lemma min_round_commute (x : Q) :
  Num.min (Fin 100) (Num.round (Fin x)) = Fin (inject_Z (round_half_up (Qmin 100 x))).
Proof.
  unfold Num.round, Num.min, Num.lt, round_half_up.
  change 100%Q with (inject_Z 100) at 1 2. rewrite Qltb_inject_Z.
  destruct (Qlt_le_dec x 100) as [Hlt|Hge].
  - rewrite (Q.min_r 100 x) by (now apply Qlt_le_weak).
    destruct (Z.ltb_spec (Qfloor (x + (1 # 2))) 100) as [Hz|Hz]; [reflexivity|].
    assert (Hle : (Qfloor (x + (1 # 2)) < 101)%Z).
    { rewrite Zlt_Qlt. pose proof (Qfloor_le (x + (1 # 2))) as Hf.
      change (inject_Z 101) with 101%Q. lra. }
    replace (Qfloor (x + (1 # 2))) with 100%Z by lia. reflexivity.
  - rewrite (Q.min_l 100 x) by assumption.
    assert (Hz : (100 <= Qfloor (x + (1 # 2)))%Z).
    { rewrite <- (Qfloor_Z 100). apply Qfloor_resp_le.
      change (inject_Z 100) with 100%Q. lra. }
    destruct (Z.ltb_spec (Qfloor (x + (1 # 2))) 100) as [Hz'|Hz']; [lia|].
    reflexivity.
Qed.

Lemma includes_refl (s : string) : includes s s = true.
Proof.
  apply includes_spec. exists "", "". rewrite append_nil_l.
  induction s as [|c s IH]; [reflexivity|].
  rewrite append_cons. now rewrite <- IH.
Qed.

Section ScoreArithmetic.
Local Open Scope Q_scope.

Lemma ratio_range (m n : nat) :
  n <> 0%nat -> (m <= n)%nat ->
  0 <= inject_Z (Z.of_nat m) / inject_Z (Z.of_nat n)
  /\ inject_Z (Z.of_nat m) / inject_Z (Z.of_nat n) <= 1.
Proof.
  intros Hn Hmn.
  assert (HN : 0 < inject_Z (Z.of_nat n))
    by (change 0 with (inject_Z 0); rewrite <- Zlt_Qlt; lia).
  assert (HM : 0 <= inject_Z (Z.of_nat m))
    by (change 0 with (inject_Z 0); rewrite <- Zle_Qle; lia).
  assert (HMN : inject_Z (Z.of_nat m) <= inject_Z (Z.of_nat n))
    by (rewrite <- Zle_Qle; lia).
  split.
  - apply Qle_shift_div_l; [exact HN | lra].
  - apply Qle_shift_div_r; [exact HN | lra].
Qed.

Lemma bonus_range (c : bool) :
  0 <= (if c then 10 else 0) /\ (if c then 10 else 0) <= 10
  /\ Num.binary64 (if c then 10 else 0) == (if c then 10 else 0).
Proof. destruct c; repeat split; discriminate. Qed.

(** The intermediate results of the scorer stay between 0 and 120. *)
Lemma doubleSum_steps (ratio : Q) (c1 c2 : bool) :
  0 <= ratio -> ratio <= 1 ->
  let r := Num.binary64 ratio in
  let s := Num.binary64 (r * 100) in
  let t := Num.binary64 (s + (if c1 then 10 else 0)) in
  (0 <= r /\ r <= 1) /\ (0 <= s /\ s <= 100) /\ (0 <= t /\ t <= 110)
  /\ 0 <= doubleSum ratio (if c1 then 10 else 0) (if c2 then 10 else 0)
  /\ doubleSum ratio (if c1 then 10 else 0) (if c2 then 10 else 0) <= 120.
Proof.
  intros H0 H1 r s t.
  destruct (bonus_range c1) as (Hb1 & Hb1' & _).
  destruct (bonus_range c2) as (Hb2 & Hb2' & _).
  assert (Hr : 0 <= r /\ r <= 1) by (apply binary64_range; [lra | lra | reflexivity]).
  assert (Hs : 0 <= s /\ s <= 100) by (apply binary64_range; [lra | lra | reflexivity]).
  assert (Ht : 0 <= t /\ t <= 110) by (apply binary64_range; [lra | lra | reflexivity]).
  split; [exact Hr|]. split; [exact Hs|]. split; [exact Ht|].
  unfold doubleSum. fold r. fold s. fold t. apply binary64_range; [lra | lra | reflexivity].
Qed.

(** What [scoreJob] computes before [Math.round]. *)
Lemma doubleSum_fin (m n : nat) (c1 c2 : bool) :
  n <> 0%nat -> (m <= n)%nat ->
  Num.fadd
    (Num.fadd (Num.fmul (Num.fdiv (Num.of_nat m) (Num.of_nat n)) (Fin 100))
              (if c1 then Fin 10 else Fin 0))
    (if c2 then Fin 10 else Fin 0)
  = Fin (doubleSum (inject_Z (Z.of_nat m) / inject_Z (Z.of_nat n))
           (if c1 then 10 else 0) (if c2 then 10 else 0)).
Proof.
  intros Hn Hmn. destruct (ratio_range m n Hn Hmn) as [H0 H1].
  assert (Hz : Qeq_bool (inject_Z (Z.of_nat n)) 0 = false).
  { unfold Qeq_bool, inject_Z; simpl. rewrite Z.mul_1_r. apply Z.eqb_neq. lia. }
  unfold Num.fdiv, Num.div, Num.of_nat. rewrite Hz.
  set (ratio := inject_Z (Z.of_nat m) / inject_Z (Z.of_nat n)) in *.
  destruct (doubleSum_steps ratio c1 c2 H0 H1) as (Hr & Hs & Ht & _).
  destruct (bonus_range c1) as (Hb1 & Hb1' & _).
  destruct (bonus_range c2) as (Hb2 & Hb2' & _).
  rewrite rnd_fin by lra.
  unfold Num.fmul, Num.mul. rewrite rnd_fin by lra.
  unfold Num.fadd.
  replace (Num.add (Fin (Num.binary64 (Num.binary64 ratio * 100)))
             (if c1 then Fin 10 else Fin 0))
    with (Fin (Num.binary64 (Num.binary64 ratio * 100) + (if c1 then 10 else 0)))
    by (now destruct c1).
  rewrite rnd_fin by lra.
  replace (Num.add (Fin (Num.binary64
             (Num.binary64 (Num.binary64 ratio * 100) + (if c1 then 10 else 0))))
             (if c2 then Fin 10 else Fin 0))
    with (Fin (Num.binary64
                 (Num.binary64 (Num.binary64 ratio * 100) + (if c1 then 10 else 0))
               + (if c2 then 10 else 0))) by (now destruct c2).
  rewrite rnd_fin by lra. reflexivity.
Qed.

Lemma binary64_error_unit (q : Q) :
  0 <= q -> q <= 1 -> Qabs (Num.binary64 q - q) <= 1 # 9007199254740992.
Proof.
  intros H0 H1. apply (binary64_error q 0 H0). change (2 ^ (0 + 1)) with 2. lra.
Qed.

Lemma binary64_error_120 (q : Q) :
  0 <= q -> q <= 120 -> Qabs (Num.binary64 q - q) <= 1 # 140737488355328.
Proof.
  intros H0 H1. apply (binary64_error q 6 H0). change (2 ^ (6 + 1)) with 128. lra.
Qed.

(** The computed sum is within [2^-44] of the exact one. *)
Lemma doubleSum_error (ratio : Q) (c1 c2 : bool) :
  0 <= ratio -> ratio <= 1 ->
  Qabs (doubleSum ratio (if c1 then 10 else 0) (if c2 then 10 else 0)
        - (ratio * 100 + (if c1 then 10 else 0) + (if c2 then 10 else 0)))
  <= 1 # 17592186044416.
Proof.
  intros H0 H1. destruct (doubleSum_steps ratio c1 c2 H0 H1) as (Hr & Hs & Ht & _).
  destruct (bonus_range c1) as (Hb1 & Hb1' & _).
  destruct (bonus_range c2) as (Hb2 & Hb2' & _).
  pose proof (binary64_error_unit ratio H0 H1) as E1.
  pose proof (binary64_error_120 (Num.binary64 ratio * 100) ltac:(lra) ltac:(lra)) as E2.
  pose proof (binary64_error_120
                (Num.binary64 (Num.binary64 ratio * 100) + (if c1 then 10 else 0))
                ltac:(lra) ltac:(lra)) as E3.
  pose proof (binary64_error_120
                (Num.binary64
                   (Num.binary64 (Num.binary64 ratio * 100) + (if c1 then 10 else 0))
                 + (if c2 then 10 else 0)) ltac:(lra) ltac:(lra)) as E4.
  unfold doubleSum.
  apply Qabs_Qle_condition in E1, E2, E3, E4. apply Qabs_Qle_condition. lra.
Qed.

Lemma floor_unique (y : Q) (f : Z) :
  inject_Z f <= y -> y < inject_Z f + 1 -> Qfloor y = f.
Proof.
  intros H1 H2. destruct (floor_bounds y) as [G1 G2].
  assert (Ha : (Qfloor y < f + 1)%Z).
  { rewrite Zlt_Qlt, inject_Z_plus. change (inject_Z 1) with 1. lra. }
  assert (Hb : (f < Qfloor y + 1)%Z).
  { rewrite Zlt_Qlt, inject_Z_plus. change (inject_Z 1) with 1. lra. }
  lia.
Qed.

(** Rounding a value that is close to a fraction with denominator [2 n]:
    the integer is the one of the fraction, or the one below when the
    fraction is exactly halfway. *)
Lemma round_near (x x' eps : Q) (n K : Z) :
  (0 < n)%Z ->
  x * inject_Z (2 * n) == inject_Z K ->
  Qabs (x' - x) <= eps -> 0 <= eps -> eps * inject_Z (2 * n) < 1 ->
  round_half_up x' = round_half_up x
  \/ (halfway x /\ round_half_up x' = (round_half_up x - 1)%Z).
Proof.
  intros Hn HK Herr Heps Hsmall. unfold round_half_up.
  set (f := Qfloor (x + (1 # 2))). destruct (floor_bounds (x + (1 # 2))) as [F1 F2].
  fold f in F1, F2. apply Qabs_Qle_condition in Herr. destruct Herr as [Herr1 Herr2].
  assert (HN : 0 < inject_Z (2 * n))
    by (change 0 with (inject_Z 0); rewrite <- Zlt_Qlt; lia).
  assert (HN1 : 1 <= inject_Z (2 * n))
    by (change 1 with (inject_Z 1); rewrite <- Zle_Qle; lia).
  set (N := inject_Z (2 * n)) in *.
  (* [(x + 1/2) N] is the integer [K + n], between [N f] and [N (f + 1)] *)
  assert (HKn : (x + (1 # 2)) * N == inject_Z (K + n)).
  { rewrite inject_Z_plus, <- HK. unfold N. rewrite inject_Z_mult. ring. }
  assert (HNf : inject_Z (2 * n * f) == N * inject_Z f)
    by (unfold N; now rewrite !inject_Z_mult).
  assert (Hf1 : inject_Z (f - 1) == inject_Z f - 1)
    by (unfold Z.sub; now rewrite inject_Z_plus).
  assert (HN2 : inject_Z (2 * n * f + 2 * n) == N * inject_Z f + N)
    by (rewrite inject_Z_plus, HNf; reflexivity).
  set (F := inject_Z f) in *. set (y := x + (1 # 2)) in *.
  set (y' := x' + (1 # 2)).
  assert (Hy1 : y' - y <= eps) by (unfold y, y'; lra).
  assert (Hy2 : - eps <= y' - y) by (unfold y, y'; lra).
  assert (Hxy : y == x + (1 # 2)) by reflexivity.
  assert (HF : inject_Z f == F) by reflexivity.
  clearbody N F y y'. clear Herr1 Herr2.
  assert (P1 : 0 <= (y - F) * N) by (apply Qmult_le_0_compat; lra).
  assert (P2 : 0 < (F + 1 - y) * N) by (apply Qmult_lt_0_compat; lra).
  assert (P3 : (y' - y) * N <= eps * N) by (apply Qmult_le_compat_r; lra).
  assert (P4 : - eps * N <= (y' - y) * N) by (apply Qmult_le_compat_r; lra).
  assert (Hlo : (2 * n * f <= K + n)%Z) by (rewrite Zle_Qle; clear - HKn HNf P1; lra).
  assert (Hhi : (K + n + 1 <= 2 * n * f + 2 * n)%Z).
  { assert (H : (K + n < 2 * n * f + 2 * n)%Z); [|lia].
    rewrite Zlt_Qlt. clear - HKn HN2 P2. lra. }
  assert (Hhi' : y * N + 1 <= N * F + N).
  { rewrite Zle_Qle in Hhi. rewrite inject_Z_plus in Hhi.
    change (inject_Z 1) with 1 in Hhi. clear - Hhi HKn HN2. lra. }
  assert (Hup : y' < F + 1).
  { apply Qnot_le_lt. intros Hc.
    assert (P5 : (F + 1) * N <= y' * N) by (apply Qmult_le_compat_r; lra).
    clear - P5 P3 Hhi' Hsmall. lra. }
  destruct (Z.eq_dec (K + n) (2 * n * f))%Z as [Hhalf|Hnot].
  - (* exactly halfway *)
    assert (Hx : y == F).
    { assert (H : y * N == F * N) by (rewrite HKn, Hhalf, HNf; ring).
      apply Qmult_inj_r in H; [exact H | lra]. }
    destruct (Qlt_le_dec y' F) as [Hbelow|Habove].
    + right. split.
      * exists (f - 1)%Z. rewrite Hf1. clear - Hxy Hx. lra.
      * apply floor_unique; rewrite Hf1; [|lra].
        apply Qnot_lt_le. intros Hc.
        assert (P5 : y' * N <= (F - 1) * N) by (apply Qmult_le_compat_r; lra).
        assert (P6 : y * N == F * N) by (rewrite Hx; reflexivity).
        clear - P5 P6 P4 Hsmall HN1. lra.
    + left. apply floor_unique; rewrite HF; assumption.
  - left. apply floor_unique; rewrite HF; [|exact Hup].
    assert (H : (2 * n * f + 1 <= K + n)%Z) by lia.
    rewrite Zle_Qle in H. rewrite inject_Z_plus in H.
    change (inject_Z 1) with 1 in H.
    apply Qnot_lt_le. intros Hc.
    assert (P5 : y' * N <= F * N) by (apply Qmult_le_compat_r; lra).
    clear - P5 P4 H HKn HNf Hsmall. lra.
Qed.

Lemma round_min (x : Q) :
  round_half_up (Qmin 100 x) = Z.min 100 (round_half_up x).
Proof.
  unfold round_half_up. destruct (floor_bounds (x + (1 # 2))) as [F1 F2].
  destruct (Qlt_le_dec x 100) as [Hlt|Hge].
  - assert (Hmin : Qmin 100 x == x) by (apply Q.min_r; lra).
    rewrite Hmin.
    assert (H : (Qfloor (x + (1 # 2)) < 101)%Z); [|lia].
    rewrite Zlt_Qlt. change (inject_Z 101) with 101. lra.
  - assert (Hmin : Qmin 100 x == 100) by (apply Q.min_l; lra).
    rewrite Hmin.
    assert (H : (100 <= Qfloor (x + (1 # 2)))%Z).
    { rewrite <- (Qfloor_Z 100). apply Qfloor_resp_le.
      change (inject_Z 100) with 100. lra. }
    change (Qfloor (100 + (1 # 2))) with 100%Z. lia.
Qed.

End ScoreArithmetic.

Lemma matched_le {platform : StringCase} (job : Job.t) (config : Config.t) :
  length (ScoreResult.matchedSkills (scoreJob job config))
  <= length (Config.skills (Config.preferences config)).
Proof.
  unfold scoreJob; simpl. rewrite <- (length_map toLowerCase (Config.skills _)).
  apply List.filter_length_le.
Qed.

(** The score of [scoreJob] in closed form: the rounded, clamped sum that
    double arithmetic computes. *)
Lemma scoreJob_score {platform : StringCase} (job : Job.t) (config : Config.t) :
  Config.skills (Config.preferences config) <> [] ->
  ScoreResult.score (scoreJob job config)
  = Fin (inject_Z (round_half_up
      (Qmin 100
         (doubleSum
            (inject_Z (Z.of_nat (length (ScoreResult.matchedSkills (scoreJob job config))))
             / inject_Z (Z.of_nat (length (Config.skills (Config.preferences config)))))
            (if Num.ge (Salary.min (Job.salary job))
                       (Config.salaryMinimum (Config.preferences config))
             then 10 else 0)
            (if includes (toLowerCase (Job.location job))
                         (toLowerCase (Config.location (Config.preferences config)))
                || includes (toLowerCase (Config.location (Config.preferences config)))
                            "remote"
             then 10 else 0))%Q))).
Proof.
  intros Hne. rewrite <- min_round_commute.
  assert (Hn : length (Config.skills (Config.preferences config)) <> 0)
    by (intros H0; apply Hne; now apply length_zero_iff_nil).
  rewrite <- (doubleSum_fin _ _ _ _ Hn (matched_le job config)).
  unfold scoreJob; cbn [ScoreResult.score ScoreResult.matchedSkills].
  rewrite length_map. reflexivity.
Qed.

(** C1 (as amended). For a non-empty preference skill list (of fewer than
    [2^32] entries, as every JavaScript array), the matched skills are the
    lower-cased preference skills that equal a lower-cased job skill, and
    the score is the integer [round(min(100, skillScore + salaryBonus +
    locationBonus))] of the specification, computed in double arithmetic
    ([doubleSum]): it is the exactly computed integer, except that it may
    be the integer below when the exact sum lies halfway between two
    integers.  The job of Scenario A scores 87. *)
Theorem scoreJob_spec {platform : StringCase} (job : Job.t) (config : Config.t) :
  Config.skills (Config.preferences config) <> [] ->
  (Z.of_nat (length (Config.skills (Config.preferences config))) < 2 ^ 32)%Z ->
  let prefs := Config.preferences config in
  let userSkills := List.map toLowerCase (Config.skills prefs) in
  let jobSkills := List.map toLowerCase (Job.skills job) in
  let matchedSkills := filter (fun skill => skill ∈ jobSkills) userSkills in
  let skillScore : Q :=
    (inject_Z (Z.of_nat (length matchedSkills))
     / inject_Z (Z.of_nat (length (Config.skills prefs))) * 100)%Q in
  let salaryBonus : Q :=
    if Num.ge (Salary.min (Job.salary job)) (Config.salaryMinimum prefs)
    then 10%Q else 0%Q in
  let locationBonus : Q :=
    if includes (toLowerCase (Job.location job)) (toLowerCase (Config.location prefs))
       || includes (toLowerCase (Config.location prefs)) "remote"
    then 10%Q else 0%Q in
  let total : Q := (skillScore + salaryBonus + locationBonus)%Q in
  ScoreResult.matchedSkills (scoreJob job config) = matchedSkills
  /\ ScoreResult.score (scoreJob job config)
     = Fin (inject_Z (round_half_up
              (Qmin 100
                 (doubleSum
                    (inject_Z (Z.of_nat (length matchedSkills))
                     / inject_Z (Z.of_nat (length (Config.skills prefs))))
                    salaryBonus locationBonus))))
  /\ (exists z : Z,
        ScoreResult.score (scoreJob job config) = Fin (inject_Z z)
        /\ (z = round_half_up (Qmin 100 total)
            \/ (halfway total /\ z = (round_half_up (Qmin 100 total) - 1)%Z)))
  /\ (lowersASCII ->
      Job.skills job = ["rust"; "go"] ->
      Config.skills prefs = ["rust"; "go"; "python"] ->
      Num.ge (Salary.min (Job.salary job)) (Config.salaryMinimum prefs) = true ->
      Job.location job = Config.location prefs ->
      ScoreResult.score (scoreJob job config) = Fin 87).
Proof.
  intros Hne Hlen prefs userSkills jobSkills matchedSkills skillScore salaryBonus
    locationBonus total.
  assert (Hmatched : ScoreResult.matchedSkills (scoreJob job config) = matchedSkills)
    by apply scoreJob_matchedSkills.
  assert (Hn : length (Config.skills prefs) <> 0)
    by (intros H0; apply Hne; now apply length_zero_iff_nil).
  pose proof (matched_le job config) as Hle. rewrite Hmatched in Hle. fold prefs in Hle.
  pose proof (scoreJob_score job config Hne) as Hscore.
  rewrite Hmatched in Hscore. fold prefs in Hscore.
  split; [exact Hmatched|]. split; [exact Hscore|]. split.
  - destruct (ratio_range _ _ Hn Hle) as [H0 H1].
    set (c1 := Num.ge (Salary.min (Job.salary job)) (Config.salaryMinimum prefs)) in *.
    set (c2 := includes (toLowerCase (Job.location job))
                 (toLowerCase (Config.location prefs))
               || includes (toLowerCase (Config.location prefs)) "remote") in *.
    set (m := Z.of_nat (length matchedSkills)) in *.
    set (n := Z.of_nat (length (Config.skills prefs))) in *.
    set (x' := doubleSum (inject_Z m / inject_Z n)
                 (if c1 then 10%Q else 0%Q) (if c2 then 10%Q else 0%Q)) in *.
    assert (Herr : (Qabs (x' - total) <= 1 # 17592186044416)%Q)
      by exact (doubleSum_error (inject_Z m / inject_Z n) c1 c2 H0 H1).
    assert (Hnpos : (0 < n)%Z) by (unfold n; lia).
    assert (Hlen' : (n < 2 ^ 32)%Z) by exact Hlen.
    assert (HK : (total * inject_Z (2 * n)
                  == inject_Z (200 * m + 2 * n * ((if c1 then 10 else 0)
                                                  + (if c2 then 10 else 0))))%Q).
    { unfold total, skillScore, salaryBonus, locationBonus.
      assert (Hn0 : ~ (inject_Z n == 0)%Q).
      { change 0%Q with (inject_Z 0). rewrite inject_Z_injective. lia. }
      rewrite inject_Z_plus, !inject_Z_mult, inject_Z_plus.
      destruct c1, c2; change (inject_Z 200) with 200%Q; change (inject_Z 2) with 2%Q;
        change (inject_Z 10) with 10%Q; change (inject_Z 0) with 0%Q; now field. }
    assert (Hsmall : ((1 # 17592186044416) * inject_Z (2 * n) < 1)%Q).
    { assert (H : (inject_Z (2 * n) <= inject_Z (2 ^ 33))%Q) by (rewrite <- Zle_Qle; lia).
      change (inject_Z (2 ^ 33)) with 8589934592%Q in H. lra. }
    destruct (round_near total x' _ n _ Hnpos HK Herr ltac:(discriminate) Hsmall)
      as [Hsame | [Hhalf Hbelow]];
      eexists; (split; [exact Hscore|]); rewrite !round_min.
    + left. now rewrite Hsame.
    + rewrite Hbelow.
      destruct (Z_le_gt_dec (round_half_up total) 100) as [Hsmall'|Hbig].
      * right. split; [exact Hhalf | lia].
      * left. lia.
  - intros Hascii Hjob Hprefs Hsal Hloc. rewrite Hscore.
    subst matchedSkills userSkills jobSkills.
    rewrite Hsal, Hloc, includes_refl, Hjob, Hprefs. cbn [List.map].
    rewrite (Hascii "rust" eq_refl), (Hascii "go" eq_refl), (Hascii "python" eq_refl).
    reflexivity.
Qed.

Lemma scoreJob_spec_witness :
  ScoreResult.score (scoreJob scenarioA_job scenarioA_config) = Fin 87
  /\ ScoreResult.matchedSkills (scoreJob scenarioA_job scenarioA_config) = ["rust"; "go"].
Proof.
  assert (Hne : Config.skills (Config.preferences scenarioA_config) <> [])
    by discriminate.
  assert (Hlen : (Z.of_nat (length (Config.skills (Config.preferences scenarioA_config)))
                  < 2 ^ 32)%Z) by reflexivity.
  split.
  - apply (proj2 (proj2 (proj2 (scoreJob_spec scenarioA_job scenarioA_config Hne Hlen))));
      try reflexivity.
    intros s _. reflexivity.
  - etransitivity; [apply (proj1 (scoreJob_spec scenarioA_job scenarioA_config Hne Hlen))|].
    reflexivity.
Defined.

(** C1, as the specification states it, fails: with 23 of 40 preference
    skills matched and no bonus the exact sum is 57.5, which the formula
    rounds to 58; in double arithmetic [(23 / 40) * 100] is
    57.49999999999999 and [scoreJob] returns 57. *)
Lemma scoreJob_halfway_down :
  let prefs := Config.preferences halfway_config in
  let matchedSkills := ScoreResult.matchedSkills (scoreJob halfway_job halfway_config) in
  let skillScore : Q :=
    (inject_Z (Z.of_nat (length matchedSkills))
     / inject_Z (Z.of_nat (length (Config.skills prefs))) * 100)%Q in
  let salaryBonus : Q :=
    if Num.ge (Salary.min (Job.salary halfway_job)) (Config.salaryMinimum prefs)
    then 10%Q else 0%Q in
  let locationBonus : Q :=
    if includes (toLowerCase (Job.location halfway_job))
                (toLowerCase (Config.location prefs))
       || includes (toLowerCase (Config.location prefs)) "remote"
    then 10%Q else 0%Q in
  length matchedSkills = 23 /\ length (Config.skills prefs) = 40
  /\ round_half_up (Qmin 100 (skillScore + salaryBonus + locationBonus)) = 58%Z
  /\ ScoreResult.score (scoreJob halfway_job halfway_config) = Fin 57
  /\ ScoreResult.score (scoreJob halfway_job halfway_config)
     <> Fin (inject_Z (round_half_up
                         (Qmin 100 (skillScore + salaryBonus + locationBonus)))).
Proof.
  vm_compute. repeat split; try reflexivity. discriminate.
Qed.

(** The whole of [matchJobs] on two jobs, one of them excluded by the
    hard-no pattern. *)
Example matchJobs_run :
  List.map (fun r => (Job.title (MatchResult.job r), MatchResult.score r,
                      MatchResult.explanation r))
    (matchJobs sample_NumberToString [crypto_job; scenarioA_job] scenarioA_config)
  = [("Systems Engineer", Fin 87,
      ["Skills: 2/3 match (rust, go)";
       "Salary: $120000-$150000 — meets your minimum";
       "Remote: Yes (Berlin)"])].
Proof. vm_compute. reflexivity. Qed.

(* ===================================================================== *)
(** * Properties of the ranking step *)
(* ===================================================================== *)

Lemma Qltb_spec (x y : Q) : Num.Qltb x y = true <-> (x < y)%Q.
Proof.
  unfold Num.Qltb. rewrite Qlt_alt. destruct (x ?= y)%Q; split; congruence.
Qed.

(** On scored jobs the comparator is positive exactly when its first
    argument has to stand behind the second. *)
Lemma compareFn_positive (x y : MatchResult.t) :
  scoredJob x -> scoredJob y ->
  Num.gt (sortCompare compareFn x y) (Fin 0) = true <-> ranksAfter x y.
Proof.
  intros [[qx Hqx] [tx Htx]] [[qy Hqy] [ty Hty]].
  unfold ranksAfter, scoreOf, timeOf, sortCompare, compareFn.
  rewrite Hqx, Hqy, Htx, Hty.
  unfold getTime, Num.of_Z, Num.sub, Num.neg, Num.add, Num.or, Num.truthy.
  destruct (Qeq_bool (qy + - qx) 0) eqn:Hd; simpl.
  - apply Qeq_bool_iff in Hd. rewrite Qltb_spec. rewrite (Zlt_Qlt tx ty). split.
    + intros H. right. split; lra.
    + intros [H|[_ H]]; lra.
  - apply Qeq_bool_neq in Hd. rewrite Qltb_spec. split.
    + intros H. left. lra.
    + intros [H|[H _]]; [lra|]. exfalso. apply Hd. lra.
Qed.

Lemma ranksAfter_flip (x y : MatchResult.t) : ranksAfter x y -> ranksBefore y x.
Proof.
  unfold ranksAfter, ranksBefore. intros [H|[H1 H2]]; [now left|].
  right. split; [lra | lia].
Qed.

Lemma not_ranksAfter (x y : MatchResult.t) : ~ ranksAfter x y -> ranksBefore x y.
Proof.
  unfold ranksAfter, ranksBefore. intros H.
  destruct (Qlt_le_dec (scoreOf y) (scoreOf x)) as [Hlt|Hle]; [now left|].
  right. destruct (Qlt_le_dec (scoreOf x) (scoreOf y)) as [Hlt'|Hle'].
  - exfalso. apply H. now left.
  - assert (Heq : (scoreOf x == scoreOf y)%Q) by lra.
    split; [exact Heq|].
    destruct (Z_lt_le_dec (timeOf x) (timeOf y)) as [Ht|Ht]; [|exact Ht].
    exfalso. apply H. right. now split.
Qed.

Lemma ranksBefore_trans (x y z : MatchResult.t) :
  ranksBefore x y -> ranksBefore y z -> ranksBefore x z.
Proof.
  unfold ranksBefore. intros [H1|[H1 H1']] [H2|[H2 H2']].
  - left. lra.
  - left. lra.
  - left. lra.
  - right. split; [lra | lia].
Qed.

Lemma sameKeys_not_ranksAfter (k x y : MatchResult.t) :
  sameKeys k x = true -> sameKeys k y = true -> ~ ranksAfter x y.
Proof.
  unfold sameKeys, ranksAfter. intros Hx Hy.
  apply andb_true_iff in Hx. destruct Hx as [Hx1 Hx2].
  apply andb_true_iff in Hy. destruct Hy as [Hy1 Hy2].
  apply Qeq_bool_iff in Hx1. apply Qeq_bool_iff in Hy1.
  apply Z.eqb_eq in Hx2. apply Z.eqb_eq in Hy2.
  intros [H|[_ H]]; [lra | lia].
Qed.

Lemma sort_insert_cons {A : Type} (cmp : A -> A -> number) (x y : A) (l : list A) :
  sort_insert cmp x (y :: l)
  = if Num.gt (sortCompare cmp x y) (Fin 0)
    then y :: sort_insert cmp x l else x :: y :: l.
Proof. reflexivity. Qed.

Lemma sort_insert_perm {A : Type} (cmp : A -> A -> number) (x : A) (l : list A) :
  sort_insert cmp x l ≡ₚ x :: l.
Proof.
  induction l as [|y l IH]; [reflexivity|].
  rewrite sort_insert_cons.
  destruct (Num.gt (sortCompare cmp x y) (Fin 0)); [|reflexivity].
  rewrite IH. apply Permutation_swap.
Qed.

Lemma Array_sort_perm {A : Type} (cmp : A -> A -> number) (l : list A) :
  Array_sort cmp l ≡ₚ l.
Proof.
  induction l as [|x l IH]; simpl; [reflexivity|].
  rewrite sort_insert_perm. now rewrite IH.
Qed.

Lemma sort_insert_sorted (x : MatchResult.t) (l : list MatchResult.t) :
  scoredJob x -> Forall scoredJob l ->
  StronglySorted ranksBefore l ->
  StronglySorted ranksBefore (sort_insert compareFn x l).
Proof.
  intros Hx Hl Hs. induction l as [|y l IH].
  - repeat constructor.
  - rewrite sort_insert_cons. apply Forall_cons in Hl. destruct Hl as [Hy Hl].
    apply StronglySorted_inv in Hs. destruct Hs as [Hs Hall].
    destruct (Num.gt (sortCompare compareFn x y) (Fin 0)) eqn:Hgt.
    + apply compareFn_positive in Hgt; [|assumption..].
      constructor; [now apply IH|].
      rewrite sort_insert_perm. constructor; [now apply ranksAfter_flip | exact Hall].
    + assert (Hxy : ranksBefore x y).
      { apply not_ranksAfter. intros Hafter.
        apply compareFn_positive in Hafter; [|assumption..]. congruence. }
      constructor; [now constructor|].
      constructor; [exact Hxy|].
      eapply Forall_impl; [exact Hall|].
      intros z Hz. now apply ranksBefore_trans with y.
Qed.

Lemma Array_sort_sorted (l : list MatchResult.t) :
  Forall scoredJob l -> StronglySorted ranksBefore (Array_sort compareFn l).
Proof.
  induction l as [|x l IH]; intros Hl; simpl; [constructor|].
  apply Forall_cons in Hl. destruct Hl as [Hx Hl].
  apply sort_insert_sorted; [exact Hx | | now apply IH].
  now rewrite Array_sort_perm.
Qed.

Lemma sort_insert_stable (k x : MatchResult.t) (l : list MatchResult.t) :
  scoredJob x -> Forall scoredJob l ->
  List.filter (sameKeys k) (sort_insert compareFn x l) = List.filter (sameKeys k) (x :: l).
Proof.
  intros Hx Hl. induction l as [|y l IH]; [reflexivity|].
  apply Forall_cons in Hl. destruct Hl as [Hy Hl].
  rewrite sort_insert_cons.
  destruct (Num.gt (sortCompare compareFn x y) (Fin 0)) eqn:Hgt; [|reflexivity].
  apply compareFn_positive in Hgt; [|assumption..].
  simpl. simpl in IH. rewrite (IH Hl).
  destruct (sameKeys k y) eqn:Hky; destruct (sameKeys k x) eqn:Hkx; try reflexivity.
  exfalso. now apply (sameKeys_not_ranksAfter k x y).
Qed.

Lemma Array_sort_stable (k : MatchResult.t) (l : list MatchResult.t) :
  Forall scoredJob l ->
  List.filter (sameKeys k) (Array_sort compareFn l) = List.filter (sameKeys k) l.
Proof.
  induction l as [|x l IH]; intros Hl; [reflexivity|].
  apply Forall_cons in Hl. destruct Hl as [Hx Hl].
  change (Array_sort compareFn (x :: l))
    with (sort_insert compareFn x (Array_sort compareFn l)).
  rewrite sort_insert_stable; [|exact Hx | now rewrite Array_sort_perm].
  simpl. now rewrite (IH Hl).
Qed.

(** What the scoring step of [matchJobs] hands to the ranking step are
    scored jobs, provided the preference skill list is non-empty and the
    dates are valid. *)
Lemma scoreOne_scoredJob {platform : StringCase} (NumberToString : number -> string)
    (config : Config.t) (job : Job.t) :
  Config.skills (Config.preferences config) <> [] ->
  Job.postedAt job <> InvalidDate ->
  scoredJob (scoreOne NumberToString config job).
Proof.
  intros Hne Hdate. split.
  - change (exists q : Q, ScoreResult.score (scoreJob job config) = Fin q).
    rewrite (scoreJob_score job config Hne). eexists. reflexivity.
  - change (exists ms : Z, Job.postedAt job = TimeValue ms).
    destruct (Job.postedAt job) as [|ms]; [contradiction | now exists ms].
Qed.

Lemma sameKeys_refl (k : MatchResult.t) : sameKeys k k = true.
Proof.
  unfold sameKeys. apply andb_true_iff. split.
  - apply Qeq_bool_iff. reflexivity.
  - apply Z.eqb_refl.
Qed.

Lemma ranksBefore_antisym (x y : MatchResult.t) :
  ranksBefore x y -> ranksBefore y x -> sameKeys x y = true.
Proof.
  unfold ranksBefore, sameKeys. intros [H1|[H1 H1']] [H2|[H2 H2']]; try lra.
  apply andb_true_iff. split; [now apply Qeq_bool_iff | apply Z.eqb_eq; lia].
Qed.

Lemma In_filter_sameKeys (x : MatchResult.t) (l : list MatchResult.t) :
  In x l <-> In x (List.filter (sameKeys x) l).
Proof.
  rewrite filter_In. split; [intros H; split; [exact H | apply sameKeys_refl] | tauto].
Qed.

(** A sorted list is determined by its groups of key-equal elements: the
    stable sorted arrangement of a sequence is unique, so the choice of the
    sorting algorithm does not matter. *)
Lemma sorted_stable_unique (l1 l2 : list MatchResult.t) :
  StronglySorted ranksBefore l1 ->
  StronglySorted ranksBefore l2 ->
  (forall k, List.filter (sameKeys k) l1 = List.filter (sameKeys k) l2) ->
  l1 = l2.
Proof.
  revert l2. induction l1 as [|x l1 IH]; intros l2 Hs1 Hs2 Hgroups.
  - destruct l2 as [|y l2]; [reflexivity|].
    specialize (Hgroups y). simpl in Hgroups. rewrite sameKeys_refl in Hgroups.
    discriminate Hgroups.
  - destruct l2 as [|y l2].
    + specialize (Hgroups x). simpl in Hgroups. rewrite sameKeys_refl in Hgroups.
      discriminate Hgroups.
    + apply StronglySorted_inv in Hs1. destruct Hs1 as [Hs1 Hall1].
      apply StronglySorted_inv in Hs2. destruct Hs2 as [Hs2 Hall2].
      assert (Hxy : x = y).
      { destruct (sameKeys x y) eqn:E.
        - pose proof (Hgroups x) as Hx. simpl in Hx.
          rewrite sameKeys_refl, E in Hx. now injection Hx.
        - exfalso.
          assert (Hx : In x (y :: l2)).
          { apply (proj2 (In_filter_sameKeys x (y :: l2))). rewrite <- Hgroups.
            apply (proj1 (In_filter_sameKeys x (x :: l1))). now left. }
          assert (Hy : In y (x :: l1)).
          { apply (proj2 (In_filter_sameKeys y (x :: l1))). rewrite Hgroups.
            apply (proj1 (In_filter_sameKeys y (y :: l2))). now left. }
          destruct Hx as [Hx|Hx]; [subst y; rewrite sameKeys_refl in E; discriminate|].
          destruct Hy as [Hy|Hy]; [subst y; rewrite sameKeys_refl in E; discriminate|].
          rewrite List.Forall_forall in Hall1, Hall2.
          pose proof (ranksBefore_antisym x y (Hall1 y Hy) (Hall2 x Hx)) as Heq.
          congruence. }
      subst y. f_equal. apply IH; [assumption..|].
      intros k. specialize (Hgroups k). simpl in Hgroups.
      destruct (sameKeys k x); [now injection Hgroups | exact Hgroups].
Qed.

(** C3, as amended.  On scored jobs with a finite score and a valid
    [postedAt], the ranking step returns the input sorted by score
    descending, ties by [postedAt] descending, elements equal on both keys
    in their input order (the one arrangement with these properties), cut
    to the first 10; an input of at most 10 elements is returned whole, in
    sorted order. *)
Theorem rank_spec (scored : list MatchResult.t) :
  Forall scoredJob scored ->
  exists sorted : list MatchResult.t,
    sorted ≡ₚ scored
    /\ StronglySorted ranksBefore sorted
    /\ (forall k, List.filter (sameKeys k) sorted = List.filter (sameKeys k) scored)
    /\ (forall sorted' : list MatchResult.t,
          StronglySorted ranksBefore sorted' ->
          (forall k, List.filter (sameKeys k) sorted' = List.filter (sameKeys k) scored) ->
          sorted' = sorted)
    /\ rank scored = firstn 10 sorted
    /\ length (rank scored) <= 10
    /\ (length scored <= 10 -> rank scored = sorted).
Proof.
  intros Hl. exists (Array_sort compareFn scored).
  split; [apply Array_sort_perm|].
  split; [now apply Array_sort_sorted|].
  split; [intros k; now apply Array_sort_stable|].
  split.
  { intros sorted' Hsorted' Hstable'.
    apply sorted_stable_unique; [exact Hsorted' | now apply Array_sort_sorted |].
    intros k. now rewrite Hstable', Array_sort_stable. }
  split; [reflexivity|].
  split.
  - unfold rank, slice0, TOP_MATCHES. apply firstn_le_length.
  - intros Hlen. unfold rank, slice0, TOP_MATCHES.
    apply firstn_all2. now rewrite (Permutation_length (Array_sort_perm compareFn scored)).
Qed.

Lemma rank_spec_witness :
  Forall scoredJob scenarioB_scored
  /\ exists sorted : list MatchResult.t,
       sorted ≡ₚ scenarioB_scored
       /\ StronglySorted ranksBefore sorted
       /\ rank scenarioB_scored = firstn 10 sorted
       /\ (length scenarioB_scored <= 10 -> rank scenarioB_scored = sorted).
Proof.
  assert (Hscored : Forall scoredJob scenarioB_scored)
    by (repeat constructor; eexists; reflexivity).
  split; [exact Hscored|].
  destruct (rank_spec scenarioB_scored Hscored)
    as (sorted & Hperm & Hsorted & _ & _ & Hrank & _ & Hall).
  exists sorted. repeat split; assumption.
Defined.

(** Scenario B: on equal scores the job posted on 2024-01-05 comes before
    the one posted on 2024-01-02. *)
Example rank_scenarioB :
  List.map (fun r => Job.title (MatchResult.job r)) (rank scenarioB_scored)
  = ["best match"; "posted 2024-01-05"; "posted 2024-01-02"].
Proof. reflexivity. Qed.

(** C3, as stated, fails when a date string did not parse: the comparator
    returns [NaN] against the undated job, which the sort reads as "equal",
    so the job posted on 2024-01-02 stays in front of the equally scored job
    posted on 2024-01-05. *)
Lemma rank_invalid_date :
  rank [posted_jan02; undated_match; posted_jan05]
  = [posted_jan02; undated_match; posted_jan05]
  /\ MatchResult.score posted_jan02 = MatchResult.score posted_jan05
  /\ (timeOf posted_jan02 < timeOf posted_jan05)%Z
  /\ ~ StronglySorted ranksBefore (rank [posted_jan02; undated_match; posted_jan05]).
Proof.
  assert (Hrank : rank [posted_jan02; undated_match; posted_jan05]
                  = [posted_jan02; undated_match; posted_jan05]) by reflexivity.
  split; [exact Hrank|]. split; [reflexivity|]. split; [reflexivity|].
  rewrite Hrank. intros Hsorted.
  apply StronglySorted_inv in Hsorted. destruct Hsorted as [_ Hall].
  apply Forall_cons in Hall. destruct Hall as [_ Hall].
  apply Forall_cons in Hall. destruct Hall as [[Hlt|[_ Hle]] _].
  - vm_compute in Hlt. discriminate Hlt.
  - vm_compute in Hle. apply Hle. reflexivity.
Qed.

(* ===================================================================== *)
(** * Properties of the aggregation step *)
(* ===================================================================== *)

Lemma keepFirst_sublist (seen : gset string) (l : list Job.t) :
  sublist (keepFirst seen l) l.
Proof.
  revert seen. induction l as [|job l IH]; intros seen; simpl.
  - constructor.
  - destruct (bool_decide (Job.id job ∈ seen)).
    + apply sublist_cons, IH.
    + apply sublist_skip, IH.
Qed.

Lemma keepFirst_length (seen : gset string) (l : list Job.t) :
  length (keepFirst seen l) <= length l.
Proof. apply sublist_length, keepFirst_sublist. Qed.

Lemma keepFirst_fresh (seen : gset string) (l : list Job.t) (job : Job.t) :
  In job (keepFirst seen l) -> Job.id job ∉ seen.
Proof.
  revert seen. induction l as [|x l IH]; intros seen; simpl; [tauto|].
  destruct (decide (Job.id x ∈ seen)) as [Hin|Hnin].
  - rewrite bool_decide_eq_true_2 by assumption. apply IH.
  - rewrite bool_decide_eq_false_2 by assumption.
    intros [->|Hin]; [assumption|].
    apply IH in Hin. set_solver.
Qed.

Lemma keepFirst_NoDup (seen : gset string) (l : list Job.t) :
  NoDup (List.map Job.id (keepFirst seen l)).
Proof.
  revert seen. induction l as [|x l IH]; intros seen; simpl; [constructor|].
  destruct (bool_decide (Job.id x ∈ seen)); [apply IH|].
  simpl. constructor; [|apply IH].
  intros Hin. apply list_elem_of_In, in_map_iff in Hin.
  destruct Hin as (job & Hid & Hin).
  apply keepFirst_fresh in Hin. rewrite Hid in Hin. set_solver.
Qed.

Lemma keepFirst_withId (v : string) (seen : gset string) (l : list Job.t) :
  withId v (keepFirst seen l)
  = if bool_decide (v ∈ seen) then [] else firstn 1 (withId v l).
Proof.
  unfold withId. revert seen. induction l as [|x l IH]; intros seen; simpl.
  - now destruct (bool_decide (v ∈ seen)).
  - destruct (decide (Job.id x ∈ seen)) as [Hin|Hnin].
    + rewrite (bool_decide_eq_true_2 _ Hin). rewrite IH.
      destruct (decide (v ∈ seen)) as [Hv|Hv].
      * now rewrite (bool_decide_eq_true_2 _ Hv).
      * rewrite (bool_decide_eq_false_2 _ Hv).
        destruct (String.eqb_spec (Job.id x) v) as [Heq|Hne]; [congruence|reflexivity].
    + rewrite (bool_decide_eq_false_2 _ Hnin). simpl. rewrite IH.
      destruct (String.eqb_spec (Job.id x) v) as [Heq|Hne].
      * subst v. rewrite (bool_decide_eq_false_2 _ Hnin).
        rewrite bool_decide_eq_true_2 by set_solver. reflexivity.
      * apply (f_equal (fun b : bool => if b then [] else firstn 1 _)).
        apply bool_decide_ext. rewrite elem_of_union, elem_of_singleton.
        split; [intros [Heq|Hv]; [congruence | exact Hv] | now right].
Qed.

Lemma dedupLoop_from (l : list Job.t) (seen : gset string) (acc : list Job.t) (n : nat) :
  exists seen' : gset string,
    fold_left Fetcher.dedupStep l (seen, acc, n)
    = (seen', acc ++ keepFirst seen l, n + (length l - length (keepFirst seen l))).
Proof.
  revert seen acc n. induction l as [|x l IH]; intros seen acc n; simpl.
  - exists seen. now rewrite app_nil_r, Nat.add_0_r.
  - pose proof (keepFirst_length seen l) as Hlen.
    destruct (bool_decide (Job.id x ∈ seen)).
    + destruct (IH seen acc (S n)) as [seen' ->]. exists seen'.
      f_equal. lia.
    + pose proof (keepFirst_length ({[Job.id x]} ∪ seen) l) as Hlen'.
      destruct (IH ({[Job.id x]} ∪ seen) (acc ++ [x]) n) as [seen' ->]. exists seen'.
      simpl. rewrite <- app_assoc. reflexivity.
Qed.

Lemma aggregate_keepFirst (remoteOKJobs web3Jobs : list Job.t) :
  Fetcher.aggregate remoteOKJobs web3Jobs = keepFirst ∅ (remoteOKJobs ++ web3Jobs).
Proof.
  unfold Fetcher.aggregate, Fetcher.dedupLoop.
  destruct (dedupLoop_from (remoteOKJobs ++ web3Jobs) ∅ [] 0) as [seen' ->].
  reflexivity.
Qed.



Lemma keepFirst_NoDup_id (l : list Job.t) :
  NoDup (List.map Job.id l) -> keepFirst ∅ l = l.
Proof.
  assert (H : forall seen : gset string,
             (forall job, In job l -> Job.id job ∉ seen) ->
             NoDup (List.map Job.id l) -> keepFirst seen l = l).
  { induction l as [|x l IH]; intros seen Hfresh Hnd; [reflexivity|].
    simpl in *. apply NoDup_cons in Hnd. destruct Hnd as [Hx Hnd].
    rewrite bool_decide_eq_false_2 by (apply Hfresh; now left).
    f_equal. apply IH; [|exact Hnd].
    intros job Hin. rewrite elem_of_union, elem_of_singleton.
    intros [Heq|Hseen].
    - apply Hx. rewrite <- Heq. apply list_elem_of_In. now apply in_map.
    - apply (Hfresh job); [now right | exact Hseen]. }
  apply H. intros job _. apply not_elem_of_empty.
Qed.

Section AggregationProperties.
Context {platform : StringCase}.
Variable sha256hex : string -> string.
Variable StringToNumber : string -> number.
Variable NumberToString : number -> string.
Variable DateParse : string -> Date.

End AggregationProperties.


(** Scenario E, run: the same posting from both providers. *)
Example aggregate_scenarioE :
  Fetcher.aggregate [sample_normalizeRemoteOK sample_remoteok_raw]
    [sample_normalizeWeb3Career sample_web3_raw]
  = [sample_normalizeRemoteOK sample_remoteok_raw].
Proof. vm_compute. reflexivity. Qed.

(** C10, as amended.  The two versions of [fetchAllJobs] return the same
    sequence exactly when no two jobs of the concatenated input share an
    id; in general the later version returns the first occurrences, by
    id, of what the early version returns. *)
Theorem fetchAllJobs_versions (remoteOKJobs web3Jobs : list Job.t) :
  let early := FetcherV1.aggregate remoteOKJobs web3Jobs in
  let later := Fetcher.aggregate remoteOKJobs web3Jobs in
  (later = early <-> NoDup (List.map Job.id (remoteOKJobs ++ web3Jobs)))
  /\ sublist later early
  /\ (forall v : string, withId v later = firstn 1 (withId v early)).
Proof.
  intros early later. subst early later.
  unfold FetcherV1.aggregate. rewrite aggregate_keepFirst.
  split; [|split].
  - split.
    + intros Heq. rewrite <- Heq. apply keepFirst_NoDup.
    + apply keepFirst_NoDup_id.
  - apply keepFirst_sublist.
  - intros v. now rewrite keepFirst_withId.
Qed.

Lemma fetchAllJobs_versions_witness :
  Fetcher.aggregate [scenarioA_job] [crypto_job]
  = FetcherV1.aggregate [scenarioA_job] [crypto_job].
Proof.
  apply (proj1 (fetchAllJobs_versions [scenarioA_job] [crypto_job])).
  apply NoDup_cons. split.
  - intros Hin. apply list_elem_of_In in Hin. simpl in Hin.
    destruct Hin as [Heq|[]]. discriminate Heq.
  - apply NoDup_singleton.
Defined.

(** C10, as stated, fails: of the same posting returned by both adapters
    the early version keeps both copies, the later version one. *)
Lemma fetchAllJobs_versions_differ :
  FetcherV1.aggregate [sample_normalizeRemoteOK sample_remoteok_raw]
    [sample_normalizeWeb3Career sample_web3_raw]
  = [sample_normalizeRemoteOK sample_remoteok_raw;
     sample_normalizeWeb3Career sample_web3_raw]
  /\ Fetcher.aggregate [sample_normalizeRemoteOK sample_remoteok_raw]
       [sample_normalizeWeb3Career sample_web3_raw]
     = [sample_normalizeRemoteOK sample_remoteok_raw]
  /\ Fetcher.aggregate [sample_normalizeRemoteOK sample_remoteok_raw]
       [sample_normalizeWeb3Career sample_web3_raw]
     <> FetcherV1.aggregate [sample_normalizeRemoteOK sample_remoteok_raw]
          [sample_normalizeWeb3Career sample_web3_raw].
Proof.
  assert (H2 : Fetcher.aggregate [sample_normalizeRemoteOK sample_remoteok_raw]
                 [sample_normalizeWeb3Career sample_web3_raw]
               = [sample_normalizeRemoteOK sample_remoteok_raw])
    by (vm_compute; reflexivity).
  split; [reflexivity|]. split; [exact H2|].
  rewrite H2. unfold FetcherV1.aggregate. intros H.
  apply (f_equal (@length Job.t)) in H. discriminate H.
Qed.

(* ===================================================================== *)
(** * Properties of the bounded retry and of the adapters *)
(* ===================================================================== *)

Lemma fetchAttempt_outcome (url : string) (w : World) :
  fetchAttempt url w
  = (Normal (succeeded (network w url (fetches w))),
     mkWorld (network w) (S (fetches w)) (slept w)
       (env_WEB3_CAREER_API_KEY w) (diskWritable w) (saved w)).
Proof.
  unfold fetchAttempt, tryCatch, mbind, M_bind, fetch, succeeded.
  destruct (network w url (fetches w)) as [r|message]; [|reflexivity].
  destruct (Response_ok r); reflexivity.
Qed.

Lemma retryLoop_spec (url : string) (remaining attempt : nat) (w : World) :
  exists w' : World,
    retryLoop url remaining attempt w
    = (Normal (firstSuccess (upcoming w url remaining)), w')
    /\ fetches w' = fetches w + attemptsUsed (upcoming w url remaining)
    /\ network w' = network w
    /\ env_WEB3_CAREER_API_KEY w' = env_WEB3_CAREER_API_KEY w
    /\ diskWritable w' = diskWritable w
    /\ saved w' = saved w.
Proof.
  revert attempt w. induction remaining as [|k IH]; intros attempt w.
  - exists w. simpl. rewrite Nat.add_0_r. repeat split; reflexivity.
  - unfold upcoming. simpl. unfold mbind, M_bind. rewrite fetchAttempt_outcome.
    destruct (succeeded (network w url (fetches w))) as [r|].
    + eexists. split; [reflexivity|]. simpl. repeat split; try reflexivity. lia.
    + destruct (Nat.ltb attempt MAX_RETRIES).
      * unfold sleep at 1.
        match goal with
        | |- context [retryLoop url k (S attempt) ?w1] =>
            destruct (IH (S attempt) w1) as (w' & Hrun & Hf & Hn & He & Hd & Hs)
        end.
        exists w'. rewrite Hrun. unfold upcoming in *. simpl in *.
        repeat split; try assumption. lia.
      * unfold mret at 1, M_ret at 1.
        match goal with
        | |- context [retryLoop url k (S attempt) ?w1] =>
            destruct (IH (S attempt) w1) as (w' & Hrun & Hf & Hn & He & Hd & Hs)
        end.
        exists w'. rewrite Hrun. unfold upcoming in *. simpl in *.
        repeat split; try assumption. lia.
Qed.

Lemma attemptsUsed_le (outcomes : list FetchOutcome) :
  attemptsUsed outcomes <= length outcomes.
Proof.
  induction outcomes as [|o rest IH]; simpl; [lia|].
  destruct (succeeded o); lia.
Qed.

Lemma outcomesFrom_length (net : nat -> FetchOutcome) (start n : nat) :
  length (outcomesFrom net start n) = n.
Proof. revert start. induction n as [|n IH]; intros start; simpl; [|rewrite IH]; reflexivity. Qed.

Lemma all_failed (outcomes : list FetchOutcome) :
  Forall (fun o => succeeded o = None) outcomes ->
  firstSuccess outcomes = None /\ attemptsUsed outcomes = length outcomes.
Proof.
  induction 1 as [|o rest Ho _ [IH1 IH2]]; simpl; [split; reflexivity|].
  rewrite Ho. split; [exact IH1 | now rewrite IH2].
Qed.

Lemma firstSuccess_In (outcomes : list FetchOutcome) (r : Response) :
  firstSuccess outcomes = Some r ->
  In (Responded r) outcomes /\ Response_ok r = true.
Proof.
  induction outcomes as [|o rest IH]; simpl; [discriminate|].
  destruct o as [r'|message]; simpl.
  - destruct (Response_ok r') eqn:Hok.
    + intros [= ->]. split; [now left | exact Hok].
    + intros H. apply IH in H. destruct H as [H1 H2]. split; [now right | exact H2].
  - intros H. apply IH in H. destruct H as [H1 H2]. split; [now right | exact H2].
Qed.

(** A [try] block whose handler returns a value never throws. *)
Lemma tryCatch_total {A : Type} (m : M A) (d : A) (w : World) :
  exists (a : A) (w' : World), tryCatch m (fun _ => mret d) w = (Normal a, w').
Proof.
  unfold tryCatch. destruct (m w) as [[a|e] w']; eauto.
Qed.

Lemma fetchWithRetry_run (url : string) (w : World) :
  exists w' : World,
    fetchWithRetry url w
    = (Normal (firstSuccess (upcoming w url (MAX_RETRIES + 1))), w')
    /\ fetches w' = fetches w + attemptsUsed (upcoming w url (MAX_RETRIES + 1))
    /\ env_WEB3_CAREER_API_KEY w' = env_WEB3_CAREER_API_KEY w.
Proof.
  destruct (retryLoop_spec url (MAX_RETRIES + 1) 0 w) as (w' & Hrun & Hf & _ & He & _).
  exists w'. repeat split; assumption.
Qed.

Section AdapterProperties.
Context {platform : StringCase}.
Variable sha256hex : string -> string.
Variable StringToNumber : string -> number.
Variable NumberToString : number -> string.
Variable DateParse : string -> Date.
Variable isURL : string -> bool.

Local Abbreviation fetchFromRemoteOK_v1 :=
  (FetcherV1.fetchFromRemoteOK sha256hex NumberToString DateParse isURL).
Local Abbreviation fetchAllJobs_v1 :=
  (FetcherV1.fetchAllJobs sha256hex NumberToString DateParse isURL).
Local Abbreviation fetchFromRemoteOK :=
  (Fetcher.fetchFromRemoteOK sha256hex NumberToString DateParse isURL).
Local Abbreviation fetchFromWeb3Career :=
  (Fetcher.fetchFromWeb3Career sha256hex StringToNumber NumberToString DateParse isURL).
Local Abbreviation fetchAllJobs :=
  (Fetcher.fetchAllJobs sha256hex StringToNumber NumberToString DateParse isURL).

Lemma fetchFromRemoteOK_v1_run (w : World) :
  exists (jobs : list Job.t) (w' : World),
    fetchFromRemoteOK_v1 w = (Normal jobs, w')
    /\ (firstSuccess (upcoming w REMOTEOK_URL (MAX_RETRIES + 1)) = None -> jobs = []).
Proof.
  unfold FetcherV1.fetchFromRemoteOK, mbind, M_bind.
  destruct (fetchWithRetry_run REMOTEOK_URL w) as (w1 & -> & _).
  destruct (firstSuccess _) as [response|].
  - match goal with
    | |- context [tryCatch ?m _ w1] =>
        destruct (tryCatch_total m [] w1) as (jobs & w' & ->)
    end.
    exists jobs, w'. split; [reflexivity | discriminate].
  - exists [], w1. split; reflexivity.
Qed.

Lemma fetchFromRemoteOK_run (w : World) :
  exists (jobs : list Job.t) (w' : World),
    fetchFromRemoteOK w = (Normal jobs, w')
    /\ env_WEB3_CAREER_API_KEY w' = env_WEB3_CAREER_API_KEY w
    /\ (firstSuccess (upcoming w REMOTEOK_URL (MAX_RETRIES + 1)) = None -> jobs = []).
Proof.
  unfold Fetcher.fetchFromRemoteOK, mbind, M_bind.
  destruct (fetchWithRetry_run REMOTEOK_URL w) as (w1 & -> & _ & He).
  destruct (firstSuccess _) as [response|].
  - unfold tryCatch, Response_json.
    destruct (body response) as [[| | | |items|]|];
      try (eexists _, _; split; [reflexivity | split; [exact He | discriminate]]).
    unfold saveRawData. destruct (diskWritable w1);
      eexists _, _; (split; [reflexivity | split; [exact He | discriminate]]).
  - exists [], w1. repeat split. exact He.
Qed.

Lemma fetchFromWeb3Career_run (w : World) :
  exists (jobs : list Job.t) (w' : World),
    fetchFromWeb3Career w = (Normal jobs, w')
    /\ (forall token : string,
          env_WEB3_CAREER_API_KEY w = Some token ->
          firstSuccess (upcoming w (web3CareerURL token) (MAX_RETRIES + 1)) = None ->
          jobs = []).
Proof.
  unfold Fetcher.fetchFromWeb3Career, mbind, M_bind, getenv_WEB3_CAREER_API_KEY.
  destruct (env_WEB3_CAREER_API_KEY w) as [[|c token]|].
  - exists [], w. split; reflexivity.
  - fold (web3CareerURL (String c token)).
    destruct (fetchWithRetry_run (web3CareerURL (String c token)) w) as (w1 & -> & _).
    destruct (firstSuccess _) as [response|] eqn:Hfirst.
    + match goal with
      | |- context [tryCatch ?m _ w1] =>
          destruct (tryCatch_total m [] w1) as (jobs & w' & ->)
      end.
      exists jobs, w'. split; [reflexivity|].
      intros token' [= <-] Hnone. congruence.
    + exists [], w1. split; reflexivity.
  - exists [], w. split; reflexivity.
Qed.

(** C6. [fetchWithRetry] makes at most [MAX_RETRIES + 1 = 3] attempts and
    returns the first successful response among them; when all of them
    fail it returns "no response" instead of throwing, and the adapter
    then yields no job.  No adapter, and no version of [fetchAllJobs],
    ever throws. *)
Theorem fetchWithRetry_spec :
  MAX_RETRIES + 1 = 3
  /\ (forall (url : string) (w : World),
        exists w' : World,
          fetchWithRetry url w
          = (Normal (firstSuccess (upcoming w url (MAX_RETRIES + 1))), w')
          /\ fetches w' = fetches w + attemptsUsed (upcoming w url (MAX_RETRIES + 1))
          /\ fetches w' <= fetches w + (MAX_RETRIES + 1))
  /\ (forall (url : string) (w : World),
        Forall (fun o => succeeded o = None) (upcoming w url (MAX_RETRIES + 1)) ->
        exists w' : World,
          fetchWithRetry url w = (Normal None, w')
          /\ fetches w' = fetches w + (MAX_RETRIES + 1))
  /\ (forall w : World,
        Forall (fun o => succeeded o = None) (upcoming w REMOTEOK_URL (MAX_RETRIES + 1)) ->
        (exists w', fetchFromRemoteOK w = (Normal [], w'))
        /\ (exists w', fetchFromRemoteOK_v1 w = (Normal [], w')))
  /\ (forall (w : World) (token : string),
        env_WEB3_CAREER_API_KEY w = Some token ->
        Forall (fun o => succeeded o = None)
          (upcoming w (web3CareerURL token) (MAX_RETRIES + 1)) ->
        exists w', fetchFromWeb3Career w = (Normal [], w'))
  /\ (forall w : World,
        (exists jobs w', fetchFromRemoteOK w = (Normal jobs, w'))
        /\ (exists jobs w', fetchFromWeb3Career w = (Normal jobs, w'))
        /\ (exists jobs w', fetchAllJobs w = (Normal jobs, w'))
        /\ (exists jobs w', fetchFromRemoteOK_v1 w = (Normal jobs, w'))
        /\ (exists jobs w', fetchAllJobs_v1 w = (Normal jobs, w'))).
Proof.
  split; [reflexivity|].
  split.
  { intros url w. destruct (fetchWithRetry_run url w) as (w' & Hrun & Hf & _).
    exists w'. split; [exact Hrun|]. split; [exact Hf|].
    rewrite Hf. apply Nat.add_le_mono_l.
    pose proof (attemptsUsed_le (upcoming w url (MAX_RETRIES + 1))) as Hle.
    unfold upcoming in Hle at 2. now rewrite outcomesFrom_length in Hle. }
  split.
  { intros url w Hall. destruct (fetchWithRetry_run url w) as (w' & Hrun & Hf & _).
    apply all_failed in Hall. destruct Hall as [Hnone Hused].
    exists w'. rewrite Hrun, Hf, Hnone, Hused. split; [reflexivity|].
    unfold upcoming. now rewrite outcomesFrom_length. }
  split.
  { intros w Hall. apply all_failed in Hall. destruct Hall as [Hnone _]. split.
    - destruct (fetchFromRemoteOK_run w) as (jobs & w' & Hrun & _ & Hempty).
      exists w'. now rewrite Hrun, (Hempty Hnone).
    - destruct (fetchFromRemoteOK_v1_run w) as (jobs & w' & Hrun & Hempty).
      exists w'. now rewrite Hrun, (Hempty Hnone). }
  split.
  { intros w token Henv Hall. apply all_failed in Hall. destruct Hall as [Hnone _].
    destruct (fetchFromWeb3Career_run w) as (jobs & w' & Hrun & Hempty).
    exists w'. now rewrite Hrun, (Hempty token Henv Hnone). }
  intros w.
  destruct (fetchFromRemoteOK_run w) as (jobs1 & w1 & Hrun1 & _).
  destruct (fetchFromWeb3Career_run w) as (jobs2 & w2 & Hrun2 & _).
  destruct (fetchFromWeb3Career_run w1) as (jobs3 & w3 & Hrun3 & _).
  destruct (fetchFromRemoteOK_v1_run w) as (jobs4 & w4 & Hrun4 & _).
  split; [eauto|]. split; [eauto|]. split; [|split; [eauto|]].
  - unfold Fetcher.fetchAllJobs, mbind, M_bind. rewrite Hrun1, Hrun3.
    eexists _, _. reflexivity.
  - unfold FetcherV1.fetchAllJobs, mbind, M_bind. rewrite Hrun4.
    eexists _, _. reflexivity.
Qed.
End AdapterProperties.

Lemma fetchWithRetry_spec_witness :
  (exists w', Fetcher.fetchFromRemoteOK sample_digest sample_NumberToString
                sample_DateParse sample_isURL offline_world = (Normal [], w'))
  /\ (exists w', Fetcher.fetchFromWeb3Career sample_digest sample_StringToNumber
                   sample_NumberToString sample_DateParse sample_isURL offline_world
                 = (Normal [], w')).
Proof.
  pose proof (fetchWithRetry_spec sample_digest sample_StringToNumber
                sample_NumberToString sample_DateParse sample_isURL)
    as (_ & _ & _ & Hremoteok & Hweb3 & _).
  split.
  - apply (Hremoteok offline_world). repeat constructor.
  - apply (Hweb3 offline_world "k3y"); [reflexivity | repeat constructor].
Defined.

(** The RemoteOK adapter in a world where the first attempt fails: two
    requests, one pause, one job, one raw-data file. *)
Example fetchFromRemoteOK_flaky :
  let '(result, w') :=
    Fetcher.fetchFromRemoteOK sample_digest sample_NumberToString sample_DateParse
      sample_isURL flaky_world in
  result = Normal [sample_normalizeRemoteOK sample_remoteok_raw]
  /\ fetches w' = 2
  /\ slept w' = RETRY_DELAY_MS
  /\ saved w' = [("remoteok", RawRemoteOK [sample_remoteok_raw])].
Proof. vm_compute. repeat split. Qed.

(* ===================================================================== *)
(** * Properties of the normalisation *)
(* ===================================================================== *)

(** The schemas validate the date as a string only: a record whose date
    does not parse is accepted, and its job carries whatever [new Date]
    makes of it. *)
Example schema_accepts_any_date :
  forall DateParse : string -> Date,
    option_map
      (fun raw => Job.postedAt
                    (normalizeRemoteOKJob sample_digest sample_NumberToString DateParse raw))
      (RemoteOKJobSchema_safeParse sample_isURL (JObj undated_fields))
    = Some (DateParse "soon").
Proof. reflexivity. Qed.

Lemma append_nonempty (a b : string) : a <> "" -> a +:+ b <> "".
Proof. destruct a as [|c a]; [contradiction | rewrite append_cons; discriminate]. Qed.

Lemma if_nonempty (b : bool) (t : string) :
  t <> "" -> (if b then t else "") <> "" <-> b = true.
Proof. intros Ht. destruct b; split; intros H; congruence. Qed.

Lemma str_or_nonempty (a d : string) : d <> "" -> str_or a d <> "".
Proof. destruct a; simpl; [tauto | discriminate]. Qed.

Lemma or_zero_nonNegative (m : number) :
  Num.lt m (Fin 0) = false -> nonNegative (Num.or m (Fin 0)).
Proof.
  unfold nonNegative, Num.or. destruct m as [| |q|]; simpl; try reflexivity; try discriminate.
  intros Hlt. destruct (Qeq_bool q 0) eqn:Hz; simpl; [reflexivity|].
  apply Qle_bool_iff. apply Qnot_lt_le. intros H. apply Qltb_spec in H. congruence.
Qed.

Lemma or_zero_negative (m : number) :
  Num.lt m (Fin 0) = true -> Num.or m (Fin 0) = m.
Proof.
  unfold Num.or. destruct m as [| |q|]; simpl; try reflexivity; try discriminate.
  intros Hlt. apply Qltb_spec in Hlt.
  destruct (Qeq_bool q 0) eqn:Hz; simpl; [|reflexivity].
  apply Qeq_bool_iff in Hz. lra.
Qed.

Section NormalisationProperties.
Context {platform : StringCase}.
Variable sha256hex : string -> string.
Variable StringToNumber : string -> number.
Variable NumberToString : number -> string.
Variable DateParse : string -> Date.
Variable isURL : string -> bool.

Local Abbreviation normalizeRemoteOK :=
  (normalizeRemoteOKJob sha256hex NumberToString DateParse).
Local Abbreviation normalizeWeb3Career :=
  (normalizeWeb3CareerJob sha256hex StringToNumber NumberToString DateParse).

(** C7. In the job either adapter produces, the salary bounds are those of
    the record (RemoteOK) or [Number(value) || 0] of the record's values
    (Web3.Career); [salary.raw] and [salary.currency] are derived from
    them, hence non-empty, exactly when [salary.min > 0] or
    [salary.max > 0], and are both the empty string otherwise; a record
    whose salary bounds are both 0 yields two empty strings. *)
Theorem salary_strings_spec :
  (forall r : RemoteOKJob.t,
     let s := Job.salary (normalizeRemoteOK r) in
     let hasSalary :=
       Num.gt (RemoteOKJob.salary_min r) (Fin 0)
       || Num.gt (RemoteOKJob.salary_max r) (Fin 0) in
     (Salary.min s = RemoteOKJob.salary_min r /\ Salary.max s = RemoteOKJob.salary_max r)
     /\ (hasSalary = true ->
         Salary.currency s = "USD"
         /\ Salary.raw s = "$" +:+ NumberToString (RemoteOKJob.salary_min r) +:+ "-$"
                           +:+ NumberToString (RemoteOKJob.salary_max r))
     /\ (hasSalary = false -> Salary.currency s = "" /\ Salary.raw s = "")
     /\ (Salary.currency s <> ""
         <-> Num.gt (Salary.min s) (Fin 0) || Num.gt (Salary.max s) (Fin 0) = true)
     /\ (Salary.raw s <> ""
         <-> Num.gt (Salary.min s) (Fin 0) || Num.gt (Salary.max s) (Fin 0) = true)
     /\ (RemoteOKJob.salary_min r = Fin 0 -> RemoteOKJob.salary_max r = Fin 0 ->
         Salary.currency s = "" /\ Salary.raw s = ""))
  /\ (forall w : Web3CareerJob.t,
        let s := Job.salary (normalizeWeb3Career w) in
        let min :=
          Num.or (ToNumber StringToNumber (Web3CareerJob.salary_min_value w)) (Fin 0) in
        let max :=
          Num.or (ToNumber StringToNumber (Web3CareerJob.salary_max_value w)) (Fin 0) in
        let currency := nullish (Web3CareerJob.salary_currency w) "" in
        let hasSalary := Num.gt min (Fin 0) || Num.gt max (Fin 0) in
        (Salary.min s = min /\ Salary.max s = max)
        /\ (hasSalary = true ->
            Salary.currency s = str_or currency "USD"
            /\ Salary.raw s = str_or currency "$" +:+ NumberToString min +:+ "-"
                              +:+ str_or currency "$" +:+ NumberToString max)
        /\ (hasSalary = false -> Salary.currency s = "" /\ Salary.raw s = "")
        /\ (Salary.currency s <> ""
            <-> Num.gt (Salary.min s) (Fin 0) || Num.gt (Salary.max s) (Fin 0) = true)
        /\ (Salary.raw s <> ""
            <-> Num.gt (Salary.min s) (Fin 0) || Num.gt (Salary.max s) (Fin 0) = true)
        /\ (Web3CareerJob.salary_min_value w = Val (UNum (Fin 0)) ->
            Web3CareerJob.salary_max_value w = Val (UNum (Fin 0)) ->
            Salary.min s = Fin 0 /\ Salary.max s = Fin 0
            /\ Salary.currency s = "" /\ Salary.raw s = "")).
Proof.
  split.
  - intros r s hasSalary. subst s.
    cbn [normalizeRemoteOKJob Job.salary Salary.min Salary.max Salary.currency Salary.raw].
    fold hasSalary.
    split; [split; reflexivity|].
    split; [intros ->; split; reflexivity|].
    split; [intros ->; split; reflexivity|].
    split; [|split].
    + apply if_nonempty. discriminate.
    + apply if_nonempty. rewrite append_cons. discriminate.
    + intros Hmin Hmax. subst hasSalary. rewrite Hmin, Hmax. split; reflexivity.
  - intros w s min max currency hasSalary. subst s.
    cbn [normalizeWeb3CareerJob normalizeWeb3CareerSalary Job.salary
         Salary.min Salary.max Salary.currency Salary.raw].
    fold min max currency. fold hasSalary.
    split; [split; reflexivity|].
    split; [intros ->; split; reflexivity|].
    split; [intros ->; split; reflexivity|].
    split; [|split].
    + apply if_nonempty, str_or_nonempty. discriminate.
    + apply if_nonempty, append_nonempty, str_or_nonempty. discriminate.
    + intros Hmin Hmax. subst hasSalary min max. rewrite Hmin, Hmax.
      repeat split; reflexivity.
Qed.

(** C9, as amended.  The salary bounds of a produced job are the validated
    raw values (RemoteOK) or [Number(value) || 0] (Web3.Career): they are
    non-negative whenever the raw values are not negative, and a negative
    raw value is passed through unchanged. *)
Theorem salary_sign_spec :
  (forall r : RemoteOKJob.t,
     let s := Job.salary (normalizeRemoteOK r) in
     Salary.min s = RemoteOKJob.salary_min r
     /\ Salary.max s = RemoteOKJob.salary_max r
     /\ (nonNegative (RemoteOKJob.salary_min r) -> nonNegative (Salary.min s))
     /\ (nonNegative (RemoteOKJob.salary_max r) -> nonNegative (Salary.max s)))
  /\ (forall w : Web3CareerJob.t,
        let s := Job.salary (normalizeWeb3Career w) in
        let rawMin := ToNumber StringToNumber (Web3CareerJob.salary_min_value w) in
        let rawMax := ToNumber StringToNumber (Web3CareerJob.salary_max_value w) in
        Salary.min s = Num.or rawMin (Fin 0)
        /\ Salary.max s = Num.or rawMax (Fin 0)
        /\ (Num.lt rawMin (Fin 0) = false -> nonNegative (Salary.min s))
        /\ (Num.lt rawMax (Fin 0) = false -> nonNegative (Salary.max s))
        /\ (Num.lt rawMin (Fin 0) = true -> Salary.min s = rawMin)
        /\ (Num.lt rawMax (Fin 0) = true -> Salary.max s = rawMax)).
Proof.
  split.
  - intros r s. subst s. simpl. repeat split; tauto.
  - intros w s rawMin rawMax. subst s. simpl. fold rawMin rawMax.
    split; [reflexivity|]. split; [reflexivity|].
    split; [apply or_zero_nonNegative|]. split; [apply or_zero_nonNegative|].
    split; apply or_zero_negative.
Qed.

(** C8, as amended.  In a record the Web3.Career schema accepts, an absent
    [is_remote] gives [remote = false]; the RemoteOK schema has no boolean
    flag and its jobs always have [remote = true].  For both adapters an
    absent salary field gives the bound 0 and an absent tag list gives no
    skill. *)
Theorem schema_defaults_spec :
  (forall (fields : list (string * json)) (w : Web3CareerJob.t),
     Web3CareerJobSchema_safeParse isURL (JObj fields) = Some w ->
     let job := normalizeWeb3Career w in
     (prop_lookup "is_remote" fields = None -> Job.remote job = false)
     /\ (prop_lookup "salary_min_value" fields = None -> Salary.min (Job.salary job) = Fin 0)
     /\ (prop_lookup "salary_max_value" fields = None -> Salary.max (Job.salary job) = Fin 0)
     /\ (prop_lookup "tags" fields = None -> Job.skills job = []))
  /\ (forall (fields : list (string * json)) (r : RemoteOKJob.t),
        RemoteOKJobSchema_safeParse isURL (JObj fields) = Some r ->
        let job := normalizeRemoteOK r in
        Job.remote job = true
        /\ (prop_lookup "salary_min" fields = None -> Salary.min (Job.salary job) = Fin 0)
        /\ (prop_lookup "salary_max" fields = None -> Salary.max (Job.salary job) = Fin 0)
        /\ (prop_lookup "tags" fields = None -> Job.skills job = [])).
Proof.
  split.
  - intros fields w Hparse job. subst job.
    unfold Web3CareerJobSchema_safeParse in Hparse.
    destruct (Zod.number_ _) as [id|]; [|discriminate].
    destruct (Zod.string_min1 (prop_lookup "title" fields)) as [title|]; [|discriminate].
    destruct (Zod.string_min1 (prop_lookup "company" fields)) as [company|]; [|discriminate].
    destruct (Zod.string_url isURL _) as [apply_url|]; [|discriminate].
    destruct (Zod.string_ (prop_lookup "date" fields)) as [date|]; [|discriminate].
    simpl in Hparse.
    destruct (Zod.optional_default Zod.boolean_ false _) as [is_remote|] eqn:Hremote;
      [|discriminate].
    destruct (Zod.optional_default Zod.string_ "" (prop_lookup "location" fields))
      as [location|]; [|discriminate].
    destruct (Zod.optional_default Zod.string_ "" (prop_lookup "country" fields))
      as [country|]; [|discriminate].
    destruct (Zod.optional_default Zod.array_string [] _) as [tags|] eqn:Htags;
      [|discriminate].
    destruct (Zod.nullable_optional Zod.number_or_string
                (prop_lookup "salary_min_value" fields)) as [smin|] eqn:Hmin;
      [|discriminate].
    destruct (Zod.nullable_optional Zod.number_or_string
                (prop_lookup "salary_max_value" fields)) as [smax|] eqn:Hmax;
      [|discriminate].
    destruct (Zod.nullable_optional Zod.string_ (prop_lookup "salary_currency" fields))
      as [cur|]; [|discriminate].
    destruct (Zod.nullable_optional Zod.string_ (prop_lookup "salary_unit" fields))
      as [unit_|]; [|discriminate].
    simpl in Hparse. injection Hparse as <-. simpl.
    repeat split; intros Habsent.
    + rewrite Habsent in Hremote. simpl in Hremote. congruence.
    + rewrite Habsent in Hmin. simpl in Hmin. injection Hmin as <-. reflexivity.
    + rewrite Habsent in Hmax. simpl in Hmax. injection Hmax as <-. reflexivity.
    + rewrite Habsent in Htags. simpl in Htags. injection Htags as <-. reflexivity.
  - intros fields r Hparse job. subst job.
    unfold RemoteOKJobSchema_safeParse in Hparse.
    destruct (Zod.string_ (prop_lookup "id" fields)) as [id|]; [|discriminate].
    destruct (Zod.string_min1 (prop_lookup "position" fields)) as [position|];
      [|discriminate].
    destruct (Zod.string_min1 (prop_lookup "company" fields)) as [company|]; [|discriminate].
    destruct (Zod.string_url isURL _) as [url|]; [|discriminate].
    simpl in Hparse.
    destruct (Zod.optional_default Zod.number_ (Fin 0) (prop_lookup "salary_min" fields))
      as [smin|] eqn:Hmin; [|discriminate].
    destruct (Zod.optional_default Zod.number_ (Fin 0) (prop_lookup "salary_max" fields))
      as [smax|] eqn:Hmax; [|discriminate].
    destruct (Zod.optional_default Zod.string_ "" _) as [location|]; [|discriminate].
    destruct (Zod.optional_default Zod.array_string [] _) as [tags|] eqn:Htags;
      [|discriminate].
    destruct (Zod.string_ (prop_lookup "date" fields)) as [date|]; [|discriminate].
    simpl in Hparse. injection Hparse as <-. simpl.
    split; [reflexivity|]. repeat split; intros Habsent.
    + rewrite Habsent in Hmin. simpl in Hmin. congruence.
    + rewrite Habsent in Hmax. simpl in Hmax. congruence.
    + rewrite Habsent in Htags. simpl in Htags. injection Htags as <-. reflexivity.
Qed.
End NormalisationProperties.

Lemma salary_strings_spec_witness :
  Salary.currency (Job.salary (sample_normalizeRemoteOK zero_min_raw)) = "USD"
  /\ Salary.raw (Job.salary (sample_normalizeRemoteOK zero_min_raw)) = "$0-$90000"
  /\ Salary.currency (Job.salary (sample_normalizeWeb3Career sample_web3_raw)) = "USD"
  /\ Salary.raw (Job.salary (sample_normalizeWeb3Career sample_web3_raw)) = "$90000-$0"
  /\ Salary.raw (Job.salary (sample_normalizeRemoteOK sample_remoteok_raw)) = "".
Proof.
  pose proof (salary_strings_spec sample_digest sample_StringToNumber
                sample_NumberToString sample_DateParse) as [Hremoteok Hweb3].
  destruct (Hremoteok zero_min_raw) as (_ & Hpos & _).
  destruct (Hpos eq_refl) as [Hcur Hraw].
  destruct (Hweb3 sample_web3_raw) as (_ & Hpos3 & _).
  destruct (Hpos3 eq_refl) as [Hcur3 Hraw3].
  destruct (Hremoteok sample_remoteok_raw) as (_ & _ & _ & _ & _ & Hzero).
  destruct (Hzero eq_refl eq_refl) as [_ Hraw0].
  repeat split; assumption.
Defined.

(** Scenario D on the RemoteOK sample, whose salary bounds are both 0. *)
Example salary_scenarioD :
  Job.salary (sample_normalizeRemoteOK sample_remoteok_raw)
  = Salary.mk (Fin 0) (Fin 0) "" "".
Proof. reflexivity. Qed.

Lemma salary_sign_spec_witness :
  nonNegative (Salary.min (Job.salary (sample_normalizeWeb3Career sample_web3_raw)))
  /\ nonNegative (Salary.min (Job.salary (sample_normalizeRemoteOK sample_remoteok_raw))).
Proof.
  pose proof (salary_sign_spec sample_digest sample_StringToNumber
                sample_NumberToString sample_DateParse) as [Hremoteok Hweb3].
  split.
  - apply (Hweb3 sample_web3_raw). reflexivity.
  - apply (Hremoteok sample_remoteok_raw). reflexivity.
Defined.

(** C9, as stated, fails: both schemas accept a negative salary and the
    normalisation keeps it. *)
Lemma negative_salary_kept :
  RemoteOKJobSchema_safeParse sample_isURL negative_salary_json = Some negative_salary_raw
  /\ Salary.min (Job.salary (sample_normalizeRemoteOK negative_salary_raw)) = Fin (-5000)
  /\ ~ nonNegative (Salary.min (Job.salary (sample_normalizeRemoteOK negative_salary_raw)))
  /\ Web3CareerJobSchema_safeParse sample_isURL negative_salary_web3_json
     = Some negative_salary_web3_raw
  /\ Salary.min (Job.salary (sample_normalizeWeb3Career negative_salary_web3_raw))
     = Fin (-5000)
  /\ ~ nonNegative
         (Salary.min (Job.salary (sample_normalizeWeb3Career negative_salary_web3_raw))).
Proof.
  split; [reflexivity|]. split; [reflexivity|]. split; [discriminate|].
  split; [reflexivity|]. split; [reflexivity | discriminate].
Qed.

Lemma schema_defaults_spec_witness :
  Job.remote (sample_normalizeWeb3Career sample_web3_minimal) = false
  /\ Salary.min (Job.salary (sample_normalizeWeb3Career sample_web3_minimal)) = Fin 0
  /\ Salary.max (Job.salary (sample_normalizeWeb3Career sample_web3_minimal)) = Fin 0
  /\ Job.skills (sample_normalizeWeb3Career sample_web3_minimal) = [].
Proof.
  assert (Hparse : Web3CareerJobSchema_safeParse sample_isURL (JObj sample_web3_fields)
                   = Some sample_web3_minimal) by reflexivity.
  destruct (proj1 (schema_defaults_spec sample_digest sample_StringToNumber
                     sample_NumberToString sample_DateParse sample_isURL)
              sample_web3_fields sample_web3_minimal Hparse) as (H1 & H2 & H3 & H4).
  split; [apply H1; reflexivity|]. split; [apply H2; reflexivity|].
  split; [apply H3; reflexivity | apply H4; reflexivity].
Defined.

(** C8, as stated, fails for RemoteOK: a record with no boolean property
    at all is accepted, and the job made from it has [remote = true]. *)
Lemma remoteok_remote_true :
  RemoteOKJobSchema_safeParse sample_isURL (JObj sample_remoteok_fields)
  = Some sample_remoteok_raw
  /\ Forall (fun kv => forall b : bool, snd kv <> JBool b) sample_remoteok_fields
  /\ Job.remote (sample_normalizeRemoteOK sample_remoteok_raw) = true
  /\ Job.remote (sample_normalizeRemoteOK sample_remoteok_raw) <> false.
Proof.
  split; [reflexivity|].
  split; [repeat constructor; discriminate|].
  split; [reflexivity | discriminate].
Qed.

(* ===================================================================== *)
(** * Further properties of the Hard-No filter *)
(* ===================================================================== *)

Lemma passesHardNos_nil {platform : StringCase} (job : Job.t) : passesHardNos [] job = true.
Proof. reflexivity. Qed.

Lemma filter_all_true {A : Type} (f : A -> bool) (l : list A) :
  (forall x, In x l -> f x = true) -> List.filter f l = l.
Proof.
  induction l as [|x l IH]; intros H; simpl; [reflexivity|].
  rewrite (H x) by now left. f_equal. apply IH. intros y Hy. apply H. now right.
Qed.

Lemma filter_all_false {A : Type} (f : A -> bool) (l : list A) :
  (forall x, In x l -> f x = false) -> List.filter f l = [].
Proof.
  induction l as [|x l IH]; intros H; simpl; [reflexivity|].
  rewrite (H x) by now left. apply IH. intros y Hy. apply H. now right.
Qed.

Lemma filter_twice {A : Type} (f g : A -> bool) (l : list A) :
  List.filter g (List.filter f l) = List.filter (fun x => f x && g x) l.
Proof.
  induction l as [|x l IH]; simpl; [reflexivity|].
  destruct (f x); simpl; [destruct (g x)|]; now rewrite IH.
Qed.

Lemma List_filter_sublist {A : Type} (f : A -> bool) (l : list A) :
  sublist (List.filter f l) l.
Proof.
  induction l as [|x l IH]; simpl; [constructor|].
  destruct (f x); [now apply sublist_skip | now apply sublist_cons].
Qed.

(** [filterHardNos] is a filter for every hard-no list, the empty one
    included. *)
Lemma filterHardNos_as_filter {platform : StringCase}
    (jobs : list Job.t) (hardNos : list string) :
  filterHardNos jobs hardNos = List.filter (passesHardNos hardNos) jobs.
Proof.
  destruct hardNos as [|p ps].
  - rewrite filter_all_true; [reflexivity|]. intros job _. apply passesHardNos_nil.
  - apply filterHardNos_filter. discriminate.
Qed.

Lemma passesHardNos_app {platform : StringCase} (h1 h2 : list string) (job : Job.t) :
  passesHardNos (h1 ++ h2) job = passesHardNos h1 job && passesHardNos h2 job.
Proof.
  unfold passesHardNos, matchedPatterns.
  rewrite List.map_app, List.filter_app, length_app.
  destruct (length (List.filter _ (List.map toLowerCase h1))); simpl; [|reflexivity].
  now destruct (length (List.filter _ (List.map toLowerCase h2))).
Qed.

(** X1. Filtering with the concatenation of two hard-no lists is filtering
    with the first and then with the second; in particular more patterns
    never let more jobs through, and filtering twice with the same list
    changes nothing. *)
Theorem filterHardNos_app_patterns {platform : StringCase}
    (jobs : list Job.t) (h1 h2 : list string) :
  filterHardNos jobs (h1 ++ h2) = filterHardNos (filterHardNos jobs h1) h2
  /\ sublist (filterHardNos jobs (h1 ++ h2)) (filterHardNos jobs h1)
  /\ filterHardNos (filterHardNos jobs h1) h1 = filterHardNos jobs h1.
Proof.
  assert (Hcomp : filterHardNos jobs (h1 ++ h2)
                  = filterHardNos (filterHardNos jobs h1) h2).
  { rewrite !filterHardNos_as_filter, filter_twice.
    apply List.filter_ext. intros job. apply passesHardNos_app. }
  split; [exact Hcomp|]. split.
  - rewrite Hcomp, (filterHardNos_as_filter (filterHardNos jobs h1) h2).
    apply List_filter_sublist.
  - rewrite !filterHardNos_as_filter, filter_twice.
    apply List.filter_ext. intros job. now destruct (passesHardNos h1 job).
Qed.

(** X2. The filter treats the job list element by element: the result on a
    concatenation is the concatenation of the results, and the result is a
    subsequence of the input. *)
Theorem filterHardNos_app_jobs {platform : StringCase}
    (jobs1 jobs2 : list Job.t) (hardNos : list string) :
  filterHardNos (jobs1 ++ jobs2) hardNos
  = filterHardNos jobs1 hardNos ++ filterHardNos jobs2 hardNos
  /\ sublist (filterHardNos jobs1 hardNos) jobs1.
Proof.
  rewrite !filterHardNos_as_filter. split.
  - apply List.filter_app.
  - apply List_filter_sublist.
Qed.

(** X3. An empty string among the hard-no patterns excludes every job,
    whatever the other patterns are (the empty string is its own lower
    case). *)
Theorem filterHardNos_empty_pattern {platform : StringCase}
    (jobs : list Job.t) (hardNos : list string) :
  toLowerCase "" = "" ->
  In "" hardNos -> filterHardNos jobs hardNos = [].
Proof.
  intros Hempty Hin. rewrite filterHardNos_as_filter. apply filter_all_false.
  intros job _. destruct (passesHardNos hardNos job) eqn:Hp; [|reflexivity].
  apply passesHardNos_spec in Hp. exfalso. apply Hp.
  exists "", (Job.title job). split; [exact Hin|]. split; [now left|].
  rewrite Hempty. exists "", (toLowerCase (Job.title job)). reflexivity.
Qed.

Lemma filterHardNos_empty_pattern_witness :
  filterHardNos [scenarioA_job; crypto_job] ["crypto"; ""] = [].
Proof.
  apply (filterHardNos_empty_pattern [scenarioA_job; crypto_job] ["crypto"; ""]).
  - reflexivity.
  - right. now left.
Defined.

(** X4. Only the lower-cased patterns matter: two hard-no lists that agree
    after lower-casing filter alike. *)
Theorem filterHardNos_case_insensitive {platform : StringCase}
    (jobs : list Job.t) (h1 h2 : list string) :
  List.map toLowerCase h1 = List.map toLowerCase h2 ->
  filterHardNos jobs h1 = filterHardNos jobs h2.
Proof.
  intros Heq. rewrite !filterHardNos_as_filter.
  apply List.filter_ext. intros job. unfold passesHardNos. now rewrite Heq.
Qed.

Lemma filterHardNos_case_insensitive_witness :
  filterHardNos [scenarioA_job; crypto_job] ["CRYPTO"]
  = filterHardNos [scenarioA_job; crypto_job] ["crypto"].
Proof.
  apply (filterHardNos_case_insensitive [scenarioA_job; crypto_job] ["CRYPTO"] ["crypto"]).
  reflexivity.
Defined.

(* ===================================================================== *)
(** * Further properties of the scorer *)
(* ===================================================================== *)

Lemma round_min_bounds (x : Q) (lo : Z) :
  (inject_Z lo <= x)%Q -> (lo <= 100)%Z ->
  (lo <= round_half_up (Qmin 100 x) <= 100)%Z.
Proof.
  intros Hx Hlo. unfold round_half_up.
  assert (Hmin_hi : (Qmin 100 x <= 100)%Q) by apply Q.le_min_l.
  assert (Hmin_lo : (inject_Z lo <= Qmin 100 x)%Q).
  { apply Q.min_glb; [|exact Hx].
    change 100%Q with (inject_Z 100). rewrite <- Zle_Qle. exact Hlo. }
  split.
  - rewrite <- (Qfloor_Z lo). apply Qfloor_resp_le. lra.
  - assert (H : (Qfloor (Qmin 100 x + (1 # 2)) < 101)%Z); [|lia].
    rewrite Zlt_Qlt. pose proof (Qfloor_le (Qmin 100 x + (1 # 2))) as Hf.
    change (inject_Z 101) with 101%Q. lra.
Qed.

Lemma includes_empty (s : string) : includes s "" = true.
Proof. destruct s; reflexivity. Qed.

(** Lower bounds of the sum that double arithmetic computes. *)
Lemma doubleSum_bounds (ratio : Q) (c1 c2 : bool) :
  (0 <= ratio)%Q -> (ratio <= 1)%Q ->
  (0 <= doubleSum ratio (if c1 then 10 else 0) (if c2 then 10 else 0))%Q
  /\ (c2 = true ->
      (10 <= doubleSum ratio (if c1 then 10 else 0) (if c2 then 10 else 0))%Q)
  /\ ((1 <= ratio)%Q ->
      (100 <= doubleSum ratio (if c1 then 10 else 0) (if c2 then 10 else 0))%Q).
Proof.
  intros H0 H1. destruct (doubleSum_steps ratio c1 c2 H0 H1) as (Hr & Hs & Ht & Hu & _).
  destruct (bonus_range c1) as (Hb1 & _). destruct (bonus_range c2) as (Hb2 & _).
  split; [exact Hu|]. split.
  - intros ->. unfold doubleSum. apply binary64_above; [discriminate | lra | reflexivity].
  - intros Hone.
    assert (Hr1 : (1 <= Num.binary64 ratio)%Q)
      by (apply binary64_above; [discriminate | lra | reflexivity]).
    assert (Hs1 : (100 <= Num.binary64 (Num.binary64 ratio * 100))%Q)
      by (apply binary64_above; [discriminate | lra | reflexivity]).
    assert (Ht1 : (100 <= Num.binary64 (Num.binary64 (Num.binary64 ratio * 100)
                                        + (if c1 then 10 else 0)))%Q)
      by (apply binary64_above; [discriminate | lra | reflexivity]).
    unfold doubleSum. apply binary64_above; [discriminate | lra | reflexivity].
Qed.

Lemma scoreJob_range {platform : StringCase} (job : Job.t) (config : Config.t) :
  Config.skills (Config.preferences config) <> [] ->
  exists z : Z,
    ScoreResult.score (scoreJob job config) = Fin (inject_Z z)
    /\ (0 <= z <= 100)%Z.
Proof.
  intros Hne. rewrite (scoreJob_score job config Hne).
  eexists. split; [reflexivity|].
  apply round_min_bounds; [|lia].
  assert (Hn : length (Config.skills (Config.preferences config)) <> 0)
    by (intros H0; apply Hne; now apply length_zero_iff_nil).
  destruct (ratio_range _ _ Hn (matched_le job config)) as [H0 H1].
  change (inject_Z 0) with 0%Q. now apply doubleSum_bounds.
Qed.

(** X5. For a non-empty preference skill list the score is an integer
    between 0 and 100, whatever the job (its salary may even be [NaN]);
    for an empty preference list the division is 0/0 and the score is
    [NaN]. *)
Theorem scoreJob_bounds {platform : StringCase} (job : Job.t) (config : Config.t) :
  (Config.skills (Config.preferences config) <> [] ->
   exists z : Z,
     ScoreResult.score (scoreJob job config) = Fin (inject_Z z)
     /\ (0 <= z <= 100)%Z)
  /\ (Config.skills (Config.preferences config) = [] ->
      ScoreResult.score (scoreJob job config) = NaN
      /\ ScoreResult.matchedSkills (scoreJob job config) = []).
Proof.
  split; [apply scoreJob_range|].
  intros Hempty. unfold scoreJob. rewrite Hempty. split; reflexivity.
Qed.

Lemma scoreJob_bounds_witness :
  (exists z : Z,
     ScoreResult.score (scoreJob crypto_job scenarioA_config) = Fin (inject_Z z)
     /\ (0 <= z <= 100)%Z)
  /\ ScoreResult.score
       (scoreJob crypto_job
          (Config.mk (Config.mkUser "Ada" "ada@example.org" "UTC")
             (Config.mkPreferences [] (Fin 100000) "Berlin") []))
     = NaN.
Proof.
  split.
  - apply (proj1 (scoreJob_bounds crypto_job scenarioA_config)). discriminate.
  - apply (proj2 (scoreJob_bounds crypto_job
                    (Config.mk (Config.mkUser "Ada" "ada@example.org" "UTC")
                       (Config.mkPreferences [] (Fin 100000) "Berlin") []))).
    reflexivity.
Defined.

(** X6. A preferred location that is empty, or that contains "remote" in
    any casing, earns the location bonus for every job: the score is then
    at least 10, wherever the job is (the empty string is its own lower
    case). *)
Theorem scoreJob_location_always {platform : StringCase} (job : Job.t) (config : Config.t) :
  Config.skills (Config.preferences config) <> [] ->
  toLowerCase "" = "" ->
  Config.location (Config.preferences config) = ""
  \/ includes (toLowerCase (Config.location (Config.preferences config))) "remote" = true ->
  exists z : Z,
    ScoreResult.score (scoreJob job config) = Fin (inject_Z z)
    /\ (10 <= z <= 100)%Z.
Proof.
  intros Hne Hlower Hloc. rewrite (scoreJob_score job config Hne).
  eexists. split; [reflexivity|].
  apply round_min_bounds; [|lia].
  assert (Hn : length (Config.skills (Config.preferences config)) <> 0)
    by (intros H0; apply Hne; now apply length_zero_iff_nil).
  destruct (ratio_range _ _ Hn (matched_le job config)) as [H0 H1].
  assert (Hbonus : includes (toLowerCase (Job.location job))
                     (toLowerCase (Config.location (Config.preferences config)))
                   || includes (toLowerCase (Config.location (Config.preferences config)))
                        "remote" = true).
  { destruct Hloc as [Hempty|Hremote].
    - rewrite Hempty, Hlower. now rewrite includes_empty.
    - rewrite Hremote. apply orb_true_r. }
  change (inject_Z 10) with 10%Q. now apply doubleSum_bounds.
Qed.

Lemma scoreJob_location_always_witness :
  exists z : Z,
    ScoreResult.score
      (scoreJob crypto_job
         (Config.mk (Config.mkUser "Ada" "ada@example.org" "UTC")
            (Config.mkPreferences ["cobol"] (Fin 100000) "Fully REMOTE") []))
    = Fin (inject_Z z)
    /\ (10 <= z <= 100)%Z.
Proof.
  apply scoreJob_location_always; [discriminate | reflexivity | right; reflexivity].
Defined.

(** X7. When every preference skill occurs among the job's skills (both
    lower-cased), the score is 100: the bonuses are clamped away. *)
Theorem scoreJob_full_match {platform : StringCase} (job : Job.t) (config : Config.t) :
  Config.skills (Config.preferences config) <> [] ->
  (forall skill, In skill (Config.skills (Config.preferences config)) ->
     In (toLowerCase skill) (List.map toLowerCase (Job.skills job))) ->
  ScoreResult.score (scoreJob job config) = Fin 100
  /\ ScoreResult.matchedSkills (scoreJob job config)
     = List.map toLowerCase (Config.skills (Config.preferences config)).
Proof.
  intros Hne Hall.
  assert (Hmatched : ScoreResult.matchedSkills (scoreJob job config)
                     = List.map toLowerCase (Config.skills (Config.preferences config))).
  { unfold scoreJob; simpl. apply filter_all_true.
    intros skill Hin. apply in_map_iff in Hin. destruct Hin as (s & <- & Hin).
    rewrite existsb_eqb_elem. apply bool_decide_eq_true_2.
    apply list_elem_of_In. now apply Hall. }
  split; [|exact Hmatched].
  rewrite (scoreJob_score job config Hne), Hmatched, length_map.
  assert (Hn : length (Config.skills (Config.preferences config)) <> 0)
    by (intros H0; apply Hne; now apply length_zero_iff_nil).
  set (n := inject_Z (Z.of_nat (length (Config.skills (Config.preferences config))))).
  assert (Hpos : (0 < n)%Q).
  { subst n. change 0%Q with (inject_Z 0). rewrite <- Zlt_Qlt. lia. }
  assert (Hone : (n / n == 1)%Q) by (field; lra).
  set (ratio := (n / n)%Q) in *.
  destruct (doubleSum_bounds ratio
              (Num.ge (Salary.min (Job.salary job))
                      (Config.salaryMinimum (Config.preferences config)))
              (includes (toLowerCase (Job.location job))
                        (toLowerCase (Config.location (Config.preferences config)))
               || includes (toLowerCase (Config.location (Config.preferences config)))
                           "remote"))
    as (_ & _ & Hfull); [lra | lra |].
  unfold round_half_up. rewrite Q.min_l by (apply Hfull; lra). reflexivity.
Qed.

Lemma scoreJob_full_match_witness :
  ScoreResult.score
    (scoreJob scenarioA_job
       (Config.mk (Config.mkUser "Ada" "ada@example.org" "UTC")
          (Config.mkPreferences ["Rust"; "GO"] (Fin 500000) "Lisbon") []))
  = Fin 100.
Proof.
  apply scoreJob_full_match; [discriminate|].
  intros skill [<-|[<-|[]]]; simpl; tauto.
Defined.

(* ===================================================================== *)
(** * Properties of [matchJobs] and of the explanation *)
(* ===================================================================== *)

Lemma rank_In (scored : list MatchResult.t) (r : MatchResult.t) :
  In r (rank scored) -> In r scored.
Proof.
  unfold rank, slice0. intros Hin.
  apply (Permutation_in _ (Array_sort_perm compareFn scored)).
  rewrite <- (firstn_skipn TOP_MATCHES (Array_sort compareFn scored)).
  apply in_or_app. now left.
Qed.

(** X8. [matchJobs] returns at most [TOP_MATCHES = 10] results and never
    more than there are jobs; every result is the scoring of one of the
    input jobs, and of one that no hard-no pattern hits. *)
Theorem matchJobs_members {platform : StringCase} (NumberToString : number -> string)
    (jobs : list Job.t) (config : Config.t) :
  length (matchJobs NumberToString jobs config) <= 10
  /\ length (matchJobs NumberToString jobs config) <= length jobs
  /\ (forall r : MatchResult.t,
        In r (matchJobs NumberToString jobs config) ->
        exists job : Job.t,
          In job jobs
          /\ ~ hardNoHit (Config.hardNos config) job
          /\ r = scoreOne NumberToString config job).
Proof.
  unfold matchJobs. split; [|split].
  - unfold rank, slice0, TOP_MATCHES. apply firstn_le_length.
  - unfold rank, slice0. rewrite length_firstn.
    rewrite (Permutation_length (Array_sort_perm compareFn _)), length_map.
    pose proof (sublist_length _ _
                  (List_filter_sublist (passesHardNos (Config.hardNos config)) jobs)) as Hlen.
    rewrite filterHardNos_as_filter. lia.
  - intros r Hin. apply rank_In in Hin. apply in_map_iff in Hin.
    destruct Hin as (job & <- & Hin).
    rewrite filterHardNos_as_filter in Hin. apply filter_In in Hin.
    destruct Hin as [Hin Hpass]. exists job.
    split; [exact Hin|]. split; [now apply passesHardNos_spec | reflexivity].
Qed.

Lemma matchJobs_members_witness :
  exists job : Job.t,
    In job [crypto_job; scenarioA_job]
    /\ scoreOne sample_NumberToString scenarioA_config scenarioA_job
       = scoreOne sample_NumberToString scenarioA_config job.
Proof.
  destruct (proj2 (proj2 (matchJobs_members sample_NumberToString
                            [crypto_job; scenarioA_job] scenarioA_config))
              (scoreOne sample_NumberToString scenarioA_config scenarioA_job))
    as (job & Hin & _ & Heq).
  - vm_compute. left. reflexivity.
  - exists job. split; assumption.
Defined.

Lemma StronglySorted_app_cross {A : Type} (R : A -> A -> Prop) (l1 l2 : list A) :
  StronglySorted R (l1 ++ l2) -> forall x y, In x l1 -> In y l2 -> R x y.
Proof.
  induction l1 as [|a l1 IH]; intros Hs x y Hx Hy; [destruct Hx|].
  apply StronglySorted_inv in Hs. destruct Hs as [Hs Hall].
  destruct Hx as [<-|Hx].
  - rewrite List.Forall_forall in Hall. apply Hall, in_or_app. now right.
  - now apply IH.
Qed.

(** X9. With a non-empty preference list and valid dates the results of
    [matchJobs] are the best ones, best first: they are the first
    [min(10, n)] entries of the stable sorted arrangement of the [n]
    scored survivors, so every result ranks before everything that was
    cut off. *)
Theorem matchJobs_best_first {platform : StringCase} (NumberToString : number -> string)
    (jobs : list Job.t) (config : Config.t) :
  Config.skills (Config.preferences config) <> [] ->
  (forall job, In job jobs -> Job.postedAt job <> InvalidDate) ->
  let scored :=
    List.map (scoreOne NumberToString config)
      (filterHardNos jobs (Config.hardNos config)) in
  let results := matchJobs NumberToString jobs config in
  length results = Nat.min 10 (length scored)
  /\ exists cutOff : list MatchResult.t,
       results ++ cutOff ≡ₚ scored
       /\ StronglySorted ranksBefore (results ++ cutOff)
       /\ (forall r c, In r results -> In c cutOff -> ranksBefore r c)
       /\ (forall k : MatchResult.t,
             List.filter (sameKeys k) (results ++ cutOff)
             = List.filter (sameKeys k) scored).
Proof.
  intros Hne Hdates scored results.
  assert (Hscored : Forall scoredJob scored).
  { apply List.Forall_forall. intros r Hin. apply in_map_iff in Hin.
    destruct Hin as (job & <- & Hin).
    apply scoreOne_scoredJob; [exact Hne|]. apply Hdates.
    rewrite filterHardNos_as_filter in Hin. now apply filter_In in Hin. }
  assert (Hresults : results = firstn 10 (Array_sort compareFn scored)) by reflexivity.
  split.
  - rewrite Hresults, length_firstn.
    now rewrite (Permutation_length (Array_sort_perm compareFn scored)).
  - exists (skipn 10 (Array_sort compareFn scored)).
    rewrite Hresults, firstn_skipn.
    assert (Hsorted : StronglySorted ranksBefore (Array_sort compareFn scored))
      by now apply Array_sort_sorted.
    split; [apply Array_sort_perm|]. split; [exact Hsorted|]. split.
    + intros r c Hr Hc.
      rewrite <- (firstn_skipn 10 (Array_sort compareFn scored)) in Hsorted.
      now apply (StronglySorted_app_cross _ _ _ Hsorted).
    + intros k. now apply Array_sort_stable.
Qed.

Lemma matchJobs_best_first_witness :
  List.map (fun r => Job.title (MatchResult.job r))
    (matchJobs sample_NumberToString [crypto_job; scenarioA_job] open_config)
  = ["Systems Engineer"; "Crypto Backend Engineer"]
  /\ length (matchJobs sample_NumberToString [crypto_job; scenarioA_job] open_config)
     = Nat.min 10
         (length (List.map (scoreOne sample_NumberToString open_config)
                    (filterHardNos [crypto_job; scenarioA_job]
                       (Config.hardNos open_config)))).
Proof.
  split; [vm_compute; reflexivity|].
  apply (matchJobs_best_first sample_NumberToString [crypto_job; scenarioA_job] open_config).
  - discriminate.
  - intros job [<-|[<-|[]]]; discriminate.
Defined.

(** X10. The explanation has three lines, and its salary line reads "Not
    disclosed" whenever [salary.min] is not positive, even when the job
    carries a salary text: a RemoteOK record with [salary_min = 0] and a
    positive [salary_max] gets the text ["$0-$max"] and the line "Salary:
    Not disclosed". *)
Theorem explanation_salary_hidden {platform : StringCase} (sha256hex : string -> string)
    (NumberToString : number -> string) (DateParse : string -> Date)
    (matchedSkills : list string) (config : Config.t) :
  (forall job : Job.t,
     length (generateExplanation NumberToString job matchedSkills config) = 3
     /\ (Num.gt (Salary.min (Job.salary job)) (Fin 0) = false ->
         nth_error (generateExplanation NumberToString job matchedSkills config) 1
         = Some "Salary: Not disclosed"))
  /\ (forall raw : RemoteOKJob.t,
        RemoteOKJob.salary_min raw = Fin 0 ->
        Num.gt (RemoteOKJob.salary_max raw) (Fin 0) = true ->
        let job := normalizeRemoteOKJob sha256hex NumberToString DateParse raw in
        Salary.raw (Job.salary job)
        = "$" +:+ NumberToString (Fin 0) +:+ "-$"
          +:+ NumberToString (RemoteOKJob.salary_max raw)
        /\ nth_error (generateExplanation NumberToString job matchedSkills config) 1
           = Some "Salary: Not disclosed").
Proof.
  split.
  - intros job. split; [reflexivity|].
    intros Hgt. unfold generateExplanation. cbn [nth_error]. now rewrite Hgt.
  - intros raw Hmin Hmax job. subst job. split.
    + cbn [normalizeRemoteOKJob Job.salary Salary.raw]. now rewrite Hmin, Hmax.
    + unfold generateExplanation.
      cbn [nth_error normalizeRemoteOKJob Job.salary Salary.min]. now rewrite Hmin.
Qed.

Lemma explanation_salary_hidden_witness :
  nth_error
    (generateExplanation sample_NumberToString
       (sample_normalizeRemoteOK
          (RemoteOKJob.mk "9" "Analyst" "Acme" "https://remoteok.com/jobs/9"
             (Fin 0) (Fin 90000) "" [] "2024-01-05"))
       [] scenarioA_config) 1
  = Some "Salary: Not disclosed".
Proof.
  apply (proj2 (explanation_salary_hidden sample_digest sample_NumberToString
                  sample_DateParse [] scenarioA_config)
           (RemoteOKJob.mk "9" "Analyst" "Acme" "https://remoteok.com/jobs/9"
              (Fin 0) (Fin 90000) "" [] "2024-01-05"));
    reflexivity.
Defined.

(* ===================================================================== *)
(** * Further properties of the bounded retry *)
(* ===================================================================== *)

Lemma retryLoop_slept (url : string) (remaining attempt : nat) (w : World) :
  attempt + remaining = MAX_RETRIES + 1 ->
  slept (snd (retryLoop url remaining attempt w))
  = (slept w + RETRY_DELAY_MS * Z.of_nat (pauses (upcoming w url remaining)))%Z.
Proof.
  revert attempt w. induction remaining as [|k IH]; intros attempt w Hsum.
  - simpl. lia.
  - cbn [retryLoop]. unfold mbind, M_bind. rewrite fetchAttempt_outcome.
    unfold upcoming. cbn [outcomesFrom pauses].
    destruct (succeeded (network w url (fetches w))) as [r|].
    + simpl. lia.
    + destruct k as [|k'].
      * assert (Hattempt : attempt = MAX_RETRIES) by (unfold MAX_RETRIES in *; lia).
        subst attempt. simpl. lia.
      * assert (Hlt : Nat.ltb attempt MAX_RETRIES = true)
          by (apply Nat.ltb_lt; unfold MAX_RETRIES in *; lia).
        rewrite Hlt. unfold sleep at 1.
        rewrite IH by lia. unfold upcoming. cbn [network fetches slept].
        cbn [outcomesFrom]. lia.
Qed.

(** X11. [fetchWithRetry] pauses [RETRY_DELAY_MS] after every failed
    attempt except the last one: nothing when the first attempt succeeds,
    at most [MAX_RETRIES] pauses, and exactly 6000 ms when all three
    attempts fail. *)
Theorem fetchWithRetry_pauses (url : string) (w : World) :
  let outcomes := upcoming w url (MAX_RETRIES + 1) in
  slept (snd (fetchWithRetry url w))
  = (slept w + RETRY_DELAY_MS * Z.of_nat (pauses outcomes))%Z
  /\ pauses outcomes <= MAX_RETRIES
  /\ (succeeded (network w url (fetches w)) <> None ->
      slept (snd (fetchWithRetry url w)) = slept w)
  /\ (Forall (fun o => succeeded o = None) outcomes ->
      slept (snd (fetchWithRetry url w)) = (slept w + 6000)%Z).
Proof.
  intros outcomes. unfold fetchWithRetry.
  rewrite (retryLoop_slept url (MAX_RETRIES + 1) 0 w eq_refl). fold outcomes.
  split; [reflexivity|].
  subst outcomes. unfold upcoming. cbn [MAX_RETRIES Nat.add outcomesFrom pauses].
  split; [|split].
  - unfold MAX_RETRIES. repeat (destruct (succeeded _); try lia).
  - intros Hfirst. destruct (succeeded (network w url (fetches w))); [lia | contradiction].
  - intros Hall.
    apply Forall_cons in Hall. destruct Hall as [-> Hall].
    apply Forall_cons in Hall. destruct Hall as [-> Hall].
    apply Forall_cons in Hall. destruct Hall as [-> _].
    reflexivity.
Qed.

Lemma fetchWithRetry_pauses_witness :
  slept (snd (fetchWithRetry REMOTEOK_URL offline_world)) = 6000%Z.
Proof.
  apply (proj2 (proj2 (proj2 (fetchWithRetry_pauses REMOTEOK_URL offline_world)))).
  repeat constructor.
Defined.

(** X12. The response [fetchWithRetry] hands back is always one with a
    success status, and it is one of the (at most three) responses the
    network gave; a failed response is never passed on to an adapter. *)
Theorem fetchWithRetry_only_ok (url : string) (w : World) (r : Response) :
  fst (fetchWithRetry url w) = Normal (Some r) ->
  Response_ok r = true
  /\ In (Responded r) (upcoming w url (MAX_RETRIES + 1))
  /\ (200 <= status r <= 299)%Z.
Proof.
  destruct (fetchWithRetry_run url w) as (w' & Hrun & _). rewrite Hrun.
  cbn [fst]. intros Hret.
  assert (Hfirst : firstSuccess (upcoming w url (MAX_RETRIES + 1)) = Some r)
    by congruence.
  apply firstSuccess_In in Hfirst. destruct Hfirst as [Hin Hok].
  split; [exact Hok|]. split; [exact Hin|].
  unfold Response_ok in Hok. apply andb_true_iff in Hok. lia.
Qed.

Lemma fetchWithRetry_only_ok_witness :
  Response_ok (mkResponse 200
                 (Some (JArr [ JObj [("legal", JStr "terms")];
                               JObj sample_remoteok_fields;
                               JObj [("id", JStr "7"); ("position", JStr "Intern")] ])))
  = true.
Proof.
  apply (fetchWithRetry_only_ok REMOTEOK_URL flaky_world). reflexivity.
Defined.

(* ===================================================================== *)
(** * Further properties of the adapters *)
(* ===================================================================== *)

Lemma fetchWithRetry_world (url : string) (w : World) :
  exists w' : World,
    fetchWithRetry url w
    = (Normal (firstSuccess (upcoming w url (MAX_RETRIES + 1))), w')
    /\ diskWritable w' = diskWritable w
    /\ saved w' = saved w.
Proof.
  destruct (retryLoop_spec url (MAX_RETRIES + 1) 0 w) as (w' & Hrun & _ & _ & _ & Hd & Hs).
  exists w'. repeat split; assumption.
Qed.

Section AdapterResults.
Context {platform : StringCase}.
Variable sha256hex : string -> string.
Variable StringToNumber : string -> number.
Variable NumberToString : number -> string.
Variable DateParse : string -> Date.
Variable isURL : string -> bool.

Local Abbreviation normalizeRemoteOK :=
  (normalizeRemoteOKJob sha256hex NumberToString DateParse).
Local Abbreviation normalizeWeb3Career :=
  (normalizeWeb3CareerJob sha256hex StringToNumber NumberToString DateParse).
Local Abbreviation fetchFromRemoteOK_v1 :=
  (FetcherV1.fetchFromRemoteOK sha256hex NumberToString DateParse isURL).
Local Abbreviation fetchFromRemoteOK :=
  (Fetcher.fetchFromRemoteOK sha256hex NumberToString DateParse isURL).
Local Abbreviation fetchFromWeb3Career :=
  (Fetcher.fetchFromWeb3Career sha256hex StringToNumber NumberToString DateParse isURL).

Lemma remoteOK_fold (items : list json)
    (jobs : list Job.t) (rawParsed : list RemoteOKJob.t) :
  fold_left (remoteOKStep sha256hex NumberToString DateParse isURL) items (jobs, rawParsed)
  = (jobs ++ List.map normalizeRemoteOK (validRemoteOK isURL items),
     rawParsed ++ validRemoteOK isURL items).
Proof.
  revert jobs rawParsed. induction items as [|item items IH]; intros jobs rawParsed.
  - simpl. now rewrite !app_nil_r.
  - cbn [fold_left]. unfold remoteOKStep at 2, validRemoteOK. cbn [omap list_omap].
    fold (validRemoteOK isURL items).
    destruct (RemoteOKJobSchema_safeParse isURL item) as [data|].
    + cbn [fst snd]. rewrite IH. cbn [List.map]. now rewrite <- !app_assoc.
    + now rewrite IH.
Qed.

Lemma web3Career_fold (items : list json)
    (jobs : list Job.t) (rawParsed : list Web3CareerJob.t) :
  fold_left (web3CareerStep sha256hex StringToNumber NumberToString DateParse isURL)
    items (jobs, rawParsed)
  = (jobs ++ List.map normalizeWeb3Career (validWeb3Career isURL items),
     rawParsed ++ validWeb3Career isURL items).
Proof.
  revert jobs rawParsed. induction items as [|item items IH]; intros jobs rawParsed.
  - simpl. now rewrite !app_nil_r.
  - cbn [fold_left]. unfold web3CareerStep at 2, validWeb3Career. cbn [omap list_omap].
    fold (validWeb3Career isURL items).
    destruct (Web3CareerJobSchema_safeParse isURL item) as [data|].
    + cbn [fst snd]. rewrite IH. cbn [List.map]. now rewrite <- !app_assoc.
    + now rewrite IH.
Qed.

(** X13. When the retry yields a response whose body is a JSON array, the
    early version of the RemoteOK adapter returns the normalisation of
    exactly the records after the first element that pass the schema, in
    their order: the first element is always skipped, a record that fails
    validation is dropped alone.  The later version returns the same jobs
    provided the raw-data file can be written, and then has recorded the
    validated records in it. *)
Theorem fetchFromRemoteOK_result (w : World) (response : Response) (items : list json) :
  firstSuccess (upcoming w REMOTEOK_URL (MAX_RETRIES + 1)) = Some response ->
  body response = Some (JArr items) ->
  let valid := validRemoteOK isURL (skipn 1 items) in
  fst (fetchFromRemoteOK_v1 w) = Normal (List.map normalizeRemoteOK valid)
  /\ (diskWritable w = true ->
      fst (fetchFromRemoteOK w) = Normal (List.map normalizeRemoteOK valid)
      /\ saved (snd (fetchFromRemoteOK w)) = ("remoteok", RawRemoteOK valid) :: saved w).
Proof.
  intros Hfirst Hbody valid.
  destruct (fetchWithRetry_world REMOTEOK_URL w) as (w1 & Hrun & Hdisk & Hsaved).
  rewrite Hfirst in Hrun. split.
  - unfold FetcherV1.fetchFromRemoteOK, mbind, M_bind. rewrite Hrun.
    unfold tryCatch, Response_json. rewrite Hbody. rewrite remoteOK_fold. reflexivity.
  - intros Hwritable.
    unfold Fetcher.fetchFromRemoteOK, mbind, M_bind. rewrite Hrun.
    unfold tryCatch, Response_json. rewrite Hbody. rewrite remoteOK_fold.
    unfold saveRawData. rewrite Hdisk, Hwritable. cbn. rewrite Hsaved. split; reflexivity.
Qed.

(** X14. In the later version the raw-data file is written inside the
    [try] block: when the write fails, the adapter returns no job at all,
    although the response held valid records (which the early version
    returns). *)
Theorem fetchFromRemoteOK_disk_failure (w : World) (response : Response)
    (items : list json) :
  firstSuccess (upcoming w REMOTEOK_URL (MAX_RETRIES + 1)) = Some response ->
  body response = Some (JArr items) ->
  diskWritable w = false ->
  fst (fetchFromRemoteOK w) = Normal []
  /\ saved (snd (fetchFromRemoteOK w)) = saved w
  /\ fst (fetchFromRemoteOK_v1 w)
     = Normal (List.map normalizeRemoteOK (validRemoteOK isURL (skipn 1 items))).
Proof.
  intros Hfirst Hbody Hfull.
  destruct (fetchWithRetry_world REMOTEOK_URL w) as (w1 & Hrun & Hdisk & Hsaved).
  rewrite Hfirst in Hrun. split; [|split].
  - unfold Fetcher.fetchFromRemoteOK, mbind, M_bind. rewrite Hrun.
    unfold tryCatch, Response_json. rewrite Hbody.
    unfold saveRawData. rewrite Hdisk, Hfull. reflexivity.
  - unfold Fetcher.fetchFromRemoteOK, mbind, M_bind. rewrite Hrun.
    unfold tryCatch, Response_json. rewrite Hbody.
    unfold saveRawData. rewrite Hdisk, Hfull. exact Hsaved.
  - unfold FetcherV1.fetchFromRemoteOK, mbind, M_bind. rewrite Hrun.
    unfold tryCatch, Response_json. rewrite Hbody. rewrite remoteOK_fold. reflexivity.
Qed.

(** X15. A response whose body is not JSON, or is JSON but not an array,
    makes the RemoteOK adapter return no job, without an error and without
    writing a raw-data file. *)
Theorem fetchFromRemoteOK_bad_body (w : World) (response : Response) :
  firstSuccess (upcoming w REMOTEOK_URL (MAX_RETRIES + 1)) = Some response ->
  (forall items : list json, body response <> Some (JArr items)) ->
  fst (fetchFromRemoteOK w) = Normal []
  /\ saved (snd (fetchFromRemoteOK w)) = saved w
  /\ fst (fetchFromRemoteOK_v1 w) = Normal [].
Proof.
  intros Hfirst Hbody.
  destruct (fetchWithRetry_world REMOTEOK_URL w) as (w1 & Hrun & Hdisk & Hsaved).
  rewrite Hfirst in Hrun.
  unfold Fetcher.fetchFromRemoteOK, FetcherV1.fetchFromRemoteOK, mbind, M_bind.
  rewrite Hrun. unfold tryCatch, Response_json.
  destruct (body response) as [[| | | |items|]|];
    try (split; [reflexivity | split; [exact Hsaved | reflexivity]]).
  exfalso. now apply (Hbody items).
Qed.

(** X16. Without an API key (absent or empty) the Web3.Career adapter is
    disabled: it returns no job and touches nothing, in particular it
    makes no request. *)
Theorem fetchFromWeb3Career_disabled (w : World) :
  env_WEB3_CAREER_API_KEY w = None \/ env_WEB3_CAREER_API_KEY w = Some "" ->
  fetchFromWeb3Career w = (Normal [], w).
Proof.
  intros Henv. unfold Fetcher.fetchFromWeb3Career, mbind, M_bind, getenv_WEB3_CAREER_API_KEY.
  destruct Henv as [-> | ->]; reflexivity.
Qed.

(** X17. With an API key, a successful response and a writable disk, the
    Web3.Career adapter reads the job array at index 2 of the envelope and
    returns the normalisation of its valid records, in order; an envelope
    without an array at index 2 gives no job. *)
Theorem fetchFromWeb3Career_result (w : World) (token : string)
    (response : Response) (items : list json) :
  env_WEB3_CAREER_API_KEY w = Some token ->
  token <> "" ->
  firstSuccess (upcoming w (web3CareerURL token) (MAX_RETRIES + 1)) = Some response ->
  body response = Some (JArr items) ->
  diskWritable w = true ->
  (forall jobsArray : list json,
     nth_error items 2 = Some (JArr jobsArray) ->
     fst (fetchFromWeb3Career w)
     = Normal (List.map normalizeWeb3Career (validWeb3Career isURL jobsArray)))
  /\ ((forall jobsArray, nth_error items 2 <> Some (JArr jobsArray)) ->
      fst (fetchFromWeb3Career w) = Normal [])
  /\ (length items < 3 -> fst (fetchFromWeb3Career w) = Normal []).
Proof.
  intros Henv Htoken Hfirst Hbody Hwritable.
  destruct (fetchWithRetry_world (web3CareerURL token) w) as (w1 & Hrun & Hdisk & Hsaved).
  rewrite Hfirst in Hrun.
  assert (Hrun' : forall rawJobs : list json,
            match nth_error items 2 with
            | Some (JArr jobsArray) => jobsArray
            | _ => []
            end = rawJobs ->
            fst (fetchFromWeb3Career w)
            = Normal (List.map normalizeWeb3Career (validWeb3Career isURL rawJobs))).
  { intros rawJobs HrawJobs.
    unfold Fetcher.fetchFromWeb3Career, mbind, M_bind, getenv_WEB3_CAREER_API_KEY.
    rewrite Henv. destruct token as [|c token]; [contradiction|].
    fold (web3CareerURL (String c token)). rewrite Hrun.
    unfold tryCatch, Response_json. rewrite Hbody. rewrite HrawJobs, web3Career_fold.
    unfold saveRawData. rewrite Hdisk, Hwritable. reflexivity. }
  assert (Hnone : (forall jobsArray, nth_error items 2 <> Some (JArr jobsArray)) ->
                  fst (fetchFromWeb3Career w) = Normal []).
  { intros Hno. apply (Hrun' []).
    destruct (nth_error items 2) as [[| | | |jobsArray|]|]; try reflexivity.
    exfalso. now apply (Hno jobsArray). }
  split; [|split].
  - intros jobsArray Hnth. apply Hrun'. now rewrite Hnth.
  - exact Hnone.
  - intros Hlen. apply Hnone. intros jobsArray Hnth.
    assert (Hsome : nth_error items 2 <> None) by congruence.
    apply nth_error_Some in Hsome. lia.
Qed.
End AdapterResults.

Lemma fetchFromRemoteOK_result_witness :
  fst (Fetcher.fetchFromRemoteOK sample_digest sample_NumberToString sample_DateParse
         sample_isURL flaky_world)
  = Normal [sample_normalizeRemoteOK sample_remoteok_raw].
Proof.
  apply (proj2 (fetchFromRemoteOK_result sample_digest sample_NumberToString
                  sample_DateParse sample_isURL flaky_world flaky_response
                  [ JObj [("legal", JStr "terms")];
                    JObj sample_remoteok_fields;
                    JObj [("id", JStr "7"); ("position", JStr "Intern")] ]
                  eq_refl eq_refl) eq_refl).
Defined.

Lemma fetchFromRemoteOK_disk_failure_witness :
  fst (Fetcher.fetchFromRemoteOK sample_digest sample_NumberToString sample_DateParse
         sample_isURL readonly_world)
  = Normal []
  /\ fst (FetcherV1.fetchFromRemoteOK sample_digest sample_NumberToString sample_DateParse
            sample_isURL readonly_world)
     = Normal [sample_normalizeRemoteOK sample_remoteok_raw].
Proof.
  destruct (fetchFromRemoteOK_disk_failure sample_digest sample_NumberToString
              sample_DateParse sample_isURL readonly_world flaky_response
              [ JObj [("legal", JStr "terms")];
                JObj sample_remoteok_fields;
                JObj [("id", JStr "7"); ("position", JStr "Intern")] ]
              eq_refl eq_refl eq_refl) as (Hlater & _ & Hearly).
  split; [exact Hlater | exact Hearly].
Defined.

Lemma fetchFromRemoteOK_bad_body_witness :
  fst (Fetcher.fetchFromRemoteOK sample_digest sample_NumberToString sample_DateParse
         sample_isURL garbled_world)
  = Normal [].
Proof.
  apply (fetchFromRemoteOK_bad_body sample_digest sample_NumberToString sample_DateParse
           sample_isURL garbled_world (mkResponse 200 None) eq_refl).
  discriminate.
Defined.

Lemma fetchFromWeb3Career_disabled_witness :
  Fetcher.fetchFromWeb3Career sample_digest sample_StringToNumber sample_NumberToString
    sample_DateParse sample_isURL garbled_world
  = (Normal [], garbled_world).
Proof.
  apply fetchFromWeb3Career_disabled. right. reflexivity.
Defined.

Lemma fetchFromWeb3Career_result_witness :
  fst (Fetcher.fetchFromWeb3Career sample_digest sample_StringToNumber
         sample_NumberToString sample_DateParse sample_isURL web3_world)
  = Normal [sample_normalizeWeb3Career sample_web3_minimal].
Proof.
  assert (Htoken : "k3y" <> "") by discriminate.
  apply (proj1 (fetchFromWeb3Career_result sample_digest sample_StringToNumber
                  sample_NumberToString sample_DateParse sample_isURL web3_world "k3y"
                  web3_response
                  [ JStr "metadata"; JStr "docs";
                    JArr [ JObj sample_web3_fields; JNull ] ]
                  eq_refl Htoken eq_refl eq_refl eq_refl)
           [ JObj sample_web3_fields; JNull ] eq_refl).
Defined.

(* ===================================================================== *)
(** * Further properties of the normalisation and of the job id *)
(* ===================================================================== *)

Lemma ascii_toLowerCase_idem (c : ascii) :
  ascii_toLowerCase (ascii_toLowerCase c) = ascii_toLowerCase c.
Proof. destruct c as [[] [] [] [] [] [] [] []]; reflexivity. Qed.

(** The ASCII mapping is idempotent, so the stand-in of the examples
    satisfies [lowersOnce]. *)
Lemma lowerASCII_idem (s : string) : lowerASCII (lowerASCII s) = lowerASCII s.
Proof.
  induction s as [|c s IH]; simpl; [reflexivity|].
  now rewrite ascii_toLowerCase_idem, IH.
Qed.

Lemma string_min1_nonempty (v : option json) (s : string) :
  Zod.string_min1 v = Some s -> s <> "".
Proof.
  unfold Zod.string_min1. destruct (Zod.string_ v) as [s'|]; simpl; [|discriminate].
  destruct s' as [|c s']; simpl; [discriminate|]. intros [= <-]. discriminate.
Qed.

Lemma string_url_valid (isURL : string -> bool) (v : option json) (s : string) :
  Zod.string_url isURL v = Some s -> isURL s = true.
Proof.
  unfold Zod.string_url. destruct (Zod.string_ v) as [s'|]; simpl; [|discriminate].
  destruct (isURL s') eqn:Hurl; [|discriminate]. now intros [= <-].
Qed.

Lemma lowered_skills {platform : StringCase} (tags : list string) :
  lowersOnce ->
  Forall (fun s => toLowerCase s = s) (List.map toLowerCase tags).
Proof.
  intros Hidem. apply List.Forall_forall. intros s Hin. apply in_map_iff in Hin.
  destruct Hin as (t & <- & _). apply Hidem.
Qed.

Section NormalisedJobs.
Context {platform : StringCase}.
Variable sha256hex : string -> string.
Variable StringToNumber : string -> number.
Variable NumberToString : number -> string.
Variable DateParse : string -> Date.
Variable isURL : string -> bool.

Local Abbreviation normalizeRemoteOK :=
  (normalizeRemoteOKJob sha256hex NumberToString DateParse).
Local Abbreviation normalizeWeb3Career :=
  (normalizeWeb3CareerJob sha256hex StringToNumber NumberToString DateParse).

(** X18. Every job made from a record that a schema accepts has a
    non-empty title and company, a URL that [new URL] accepts, a non-empty
    location, skills that are all lower-case (lower-casing being
    idempotent), and the source tag of its adapter. *)
Theorem normalised_job_invariants :
  lowersOnce ->
  (forall (item : json) (raw : RemoteOKJob.t),
     RemoteOKJobSchema_safeParse isURL item = Some raw ->
     let job := normalizeRemoteOK raw in
     Job.title job <> "" /\ Job.company job <> "" /\ isURL (Job.url job) = true
     /\ Job.location job <> ""
     /\ Forall (fun s => toLowerCase s = s) (Job.skills job)
     /\ Job.source job = remoteok)
  /\ (forall (item : json) (raw : Web3CareerJob.t),
        Web3CareerJobSchema_safeParse isURL item = Some raw ->
        let job := normalizeWeb3Career raw in
        Job.title job <> "" /\ Job.company job <> "" /\ isURL (Job.url job) = true
        /\ Job.location job <> ""
        /\ Forall (fun s => toLowerCase s = s) (Job.skills job)
        /\ Job.source job = web3career).
Proof.
  intros Hidem. split.
  - intros item raw Hparse job. subst job.
    destruct item as [| | | | |fields]; try discriminate Hparse.
    unfold RemoteOKJobSchema_safeParse in Hparse.
    destruct (Zod.string_ (prop_lookup "id" fields)) as [id|]; [|discriminate].
    destruct (Zod.string_min1 (prop_lookup "position" fields)) as [position|] eqn:Hpos;
      [|discriminate].
    destruct (Zod.string_min1 (prop_lookup "company" fields)) as [company|] eqn:Hcom;
      [|discriminate].
    destruct (Zod.string_url isURL _) as [url|] eqn:Hurl; [|discriminate].
    simpl in Hparse.
    destruct (Zod.optional_default Zod.number_ (Fin 0) (prop_lookup "salary_min" fields))
      as [smin|]; [|discriminate].
    destruct (Zod.optional_default Zod.number_ (Fin 0) (prop_lookup "salary_max" fields))
      as [smax|]; [|discriminate].
    destruct (Zod.optional_default Zod.string_ "" _) as [location|]; [|discriminate].
    destruct (Zod.optional_default Zod.array_string [] _) as [tags|]; [|discriminate].
    destruct (Zod.string_ (prop_lookup "date" fields)) as [date|]; [|discriminate].
    simpl in Hparse. injection Hparse as <-. simpl.
    split; [now apply string_min1_nonempty in Hpos|].
    split; [now apply string_min1_nonempty in Hcom|].
    split; [now apply string_url_valid in Hurl|].
    split; [apply str_or_nonempty; discriminate|].
    split; [now apply lowered_skills | reflexivity].
  - intros item raw Hparse job. subst job.
    destruct item as [| | | | |fields]; try discriminate Hparse.
    unfold Web3CareerJobSchema_safeParse in Hparse.
    destruct (Zod.number_ _) as [id|]; [|discriminate].
    destruct (Zod.string_min1 (prop_lookup "title" fields)) as [title|] eqn:Htitle;
      [|discriminate].
    destruct (Zod.string_min1 (prop_lookup "company" fields)) as [company|] eqn:Hcom;
      [|discriminate].
    destruct (Zod.string_url isURL _) as [apply_url|] eqn:Hurl; [|discriminate].
    destruct (Zod.string_ (prop_lookup "date" fields)) as [date|]; [|discriminate].
    simpl in Hparse.
    destruct (Zod.optional_default Zod.boolean_ false _) as [is_remote|]; [|discriminate].
    destruct (Zod.optional_default Zod.string_ "" (prop_lookup "location" fields))
      as [location|]; [|discriminate].
    destruct (Zod.optional_default Zod.string_ "" (prop_lookup "country" fields))
      as [country|]; [|discriminate].
    destruct (Zod.optional_default Zod.array_string [] _) as [tags|]; [|discriminate].
    destruct (Zod.nullable_optional Zod.number_or_string
                (prop_lookup "salary_min_value" fields)) as [smin|]; [|discriminate].
    destruct (Zod.nullable_optional Zod.number_or_string
                (prop_lookup "salary_max_value" fields)) as [smax|]; [|discriminate].
    destruct (Zod.nullable_optional Zod.string_ (prop_lookup "salary_currency" fields))
      as [cur|]; [|discriminate].
    destruct (Zod.nullable_optional Zod.string_ (prop_lookup "salary_unit" fields))
      as [unit_|]; [|discriminate].
    simpl in Hparse. injection Hparse as <-. simpl.
    split; [now apply string_min1_nonempty in Htitle|].
    split; [now apply string_min1_nonempty in Hcom|].
    split; [now apply string_url_valid in Hurl|].
    split; [apply str_or_nonempty; discriminate|].
    split; [now apply lowered_skills | reflexivity].
Qed.

(** X19. The job id depends only on the lower-cased concatenation of
    title and company: two postings whose concatenations agree up to case
    get the same id, also when they split the text differently between
    title and company, and the aggregation then keeps only the first. *)
Theorem generateJobId_collision (raw1 raw2 : RemoteOKJob.t) :
  toLowerCase (RemoteOKJob.position raw1 +:+ RemoteOKJob.company raw1)
  = toLowerCase (RemoteOKJob.position raw2 +:+ RemoteOKJob.company raw2) ->
  Job.id (normalizeRemoteOK raw1) = Job.id (normalizeRemoteOK raw2)
  /\ Fetcher.aggregate [normalizeRemoteOK raw1; normalizeRemoteOK raw2] []
     = [normalizeRemoteOK raw1].
Proof.
  intros Heq.
  assert (Hid : Job.id (normalizeRemoteOK raw1) = Job.id (normalizeRemoteOK raw2)).
  { simpl. unfold generateJobId. now rewrite Heq. }
  split; [exact Hid|].
  rewrite aggregate_keepFirst. cbn [app keepFirst].
  rewrite bool_decide_eq_false_2 by apply not_elem_of_empty.
  rewrite bool_decide_eq_true_2; [reflexivity|].
  rewrite Hid, elem_of_union, elem_of_singleton. now left.
Qed.
End NormalisedJobs.

Lemma normalised_job_invariants_witness :
  Job.title (sample_normalizeRemoteOK sample_remoteok_raw) <> ""
  /\ Job.location (sample_normalizeRemoteOK sample_remoteok_raw) <> "".
Proof.
  destruct (proj1 (normalised_job_invariants (platform := sample_StringCase)
                     sample_digest sample_StringToNumber
                     sample_NumberToString sample_DateParse sample_isURL
                     lowerASCII_idem)
              (JObj sample_remoteok_fields) sample_remoteok_raw eq_refl)
    as (Htitle & _ & _ & Hlocation & _).
  split; [exact Htitle | exact Hlocation].
Defined.

Lemma generateJobId_collision_witness :
  Fetcher.aggregate
    [ sample_normalizeRemoteOK
        (RemoteOKJob.mk "1" "Data" "Base Inc" "https://remoteok.com/jobs/1"
           (Fin 0) (Fin 0) "" [] "2024-01-05");
      sample_normalizeRemoteOK
        (RemoteOKJob.mk "2" "DATABASE" " inc" "https://remoteok.com/jobs/2"
           (Fin 0) (Fin 0) "" [] "2024-01-05") ]
    []
  = [ sample_normalizeRemoteOK
        (RemoteOKJob.mk "1" "Data" "Base Inc" "https://remoteok.com/jobs/1"
           (Fin 0) (Fin 0) "" [] "2024-01-05") ].
Proof.
  apply (generateJobId_collision sample_digest sample_NumberToString sample_DateParse).
  reflexivity.
Defined.

(* ===================================================================== *)
(** * Further properties of the aggregation step *)
(* ===================================================================== *)

Lemma idsOf_cons (x : Job.t) (l : list Job.t) :
  idsOf (x :: l) = {[ Job.id x ]} ∪ idsOf l.
Proof. reflexivity. Qed.

Lemma keepFirst_app (seen : gset string) (l1 l2 : list Job.t) :
  keepFirst seen (l1 ++ l2)
  = keepFirst seen l1 ++ keepFirst (seen ∪ idsOf l1) l2.
Proof.
  revert seen. induction l1 as [|x l1 IH]; intros seen.
  - change (idsOf []) with (∅ : gset string). now rewrite union_empty_r_L.
  - cbn [app keepFirst]. rewrite idsOf_cons.
    destruct (decide (Job.id x ∈ seen)) as [Hin|Hnin].
    + rewrite (bool_decide_eq_true_2 _ Hin), IH. f_equal. f_equal.
      apply set_eq. intros v. rewrite !elem_of_union, elem_of_singleton.
      split; [tauto|]. intros [Hv|[->|Hv]]; tauto.
    + rewrite (bool_decide_eq_false_2 _ Hnin), IH. cbn [app]. f_equal. f_equal. f_equal.
      apply set_eq. intros v. rewrite !elem_of_union, elem_of_singleton. tauto.
Qed.

(** X20. The provider listed first takes precedence: when the RemoteOK
    jobs have pairwise distinct ids, all of them are kept, in order, at the
    front of the result, and a Web3.Career job follows only if its id is
    new. *)
Theorem aggregate_precedence (remoteOKJobs web3Jobs : list Job.t) :
  NoDup (List.map Job.id remoteOKJobs) ->
  exists added : list Job.t,
    Fetcher.aggregate remoteOKJobs web3Jobs = remoteOKJobs ++ added
    /\ sublist added web3Jobs
    /\ (forall job, In job added -> ~ In (Job.id job) (List.map Job.id remoteOKJobs))
    /\ (forall job, In job web3Jobs ->
          ~ In (Job.id job) (List.map Job.id remoteOKJobs) ->
          In (Job.id job) (List.map Job.id added)).
Proof.
  intros Hnd. exists (keepFirst (idsOf remoteOKJobs) web3Jobs).
  rewrite aggregate_keepFirst, keepFirst_app, (keepFirst_NoDup_id _ Hnd).
  rewrite union_empty_l_L.
  split; [reflexivity|]. split; [apply keepFirst_sublist|]. split.
  - intros job Hin Hid. apply keepFirst_fresh in Hin. apply Hin.
    unfold idsOf. apply elem_of_list_to_set, list_elem_of_In. exact Hid.
  - intros job Hin Hnew.
    assert (Hfresh : Job.id job ∉ idsOf remoteOKJobs).
    { unfold idsOf. rewrite elem_of_list_to_set, list_elem_of_In. exact Hnew. }
    pose proof (keepFirst_withId (Job.id job) (idsOf remoteOKJobs) web3Jobs) as Hw.
    rewrite (bool_decide_eq_false_2 _ Hfresh) in Hw.
    assert (Hsome : In job (withId (Job.id job) web3Jobs)).
    { unfold withId. apply filter_In. split; [exact Hin | apply String.eqb_refl]. }
    destruct (withId (Job.id job) web3Jobs) as [|first rest] eqn:Hlist; [contradiction|].
    assert (Hfirst : In first (withId (Job.id job) (keepFirst (idsOf remoteOKJobs) web3Jobs)))
      by (rewrite Hw; now left).
    unfold withId in Hfirst. apply filter_In in Hfirst. destruct Hfirst as [Hkept Hid].
    apply String.eqb_eq in Hid. rewrite <- Hid. now apply in_map.
Qed.

Lemma aggregate_precedence_witness :
  exists added : list Job.t,
    Fetcher.aggregate [scenarioA_job] [crypto_job; scenarioA_job] = [scenarioA_job] ++ added
    /\ sublist added [crypto_job; scenarioA_job].
Proof.
  assert (Hnd : NoDup (List.map Job.id [scenarioA_job])) by apply NoDup_singleton.
  destruct (aggregate_precedence [scenarioA_job] [crypto_job; scenarioA_job] Hnd)
    as (added & Hagg & Hsub & _).
  exists added. split; assumption.
Defined.

(** X21. De-duplication is idempotent, and it depends only on the
    concatenation of the two adapter results, not on where the one ends
    and the other begins. *)
Theorem aggregate_idempotent (remoteOKJobs web3Jobs : list Job.t) :
  Fetcher.aggregate (Fetcher.aggregate remoteOKJobs web3Jobs) []
  = Fetcher.aggregate remoteOKJobs web3Jobs
  /\ Fetcher.aggregate [] (Fetcher.aggregate remoteOKJobs web3Jobs)
     = Fetcher.aggregate remoteOKJobs web3Jobs
  /\ Fetcher.aggregate remoteOKJobs web3Jobs
     = Fetcher.aggregate (remoteOKJobs ++ web3Jobs) [].
Proof.
  rewrite !aggregate_keepFirst, !app_nil_r. cbn [app].
  split; [|split]; try reflexivity; apply keepFirst_NoDup_id, keepFirst_NoDup.
Qed.

(* ===================================================================== *)
(** * Properties of the configuration schema and of [loadConfig] *)
(* ===================================================================== *)

Lemma array_string_min1_nonempty (v : option json) (l : list string) :
  ZodConfig.array_string_min1 v = Some l -> l <> [].
Proof.
  unfold ZodConfig.array_string_min1.
  destruct (Zod.array_string v) as [l'|]; simpl; [|discriminate].
  destruct l' as [|x l']; simpl; [discriminate|]. intros [= <-]. discriminate.
Qed.

Lemma number_positive_gt (v : option json) (n : number) :
  ZodConfig.number_positive v = Some n -> Num.gt n (Fin 0) = true.
Proof.
  unfold ZodConfig.number_positive.
  destruct (Zod.number_ v) as [n'|]; cbn -[Num.gt]; [|discriminate].
  destruct (Num.gt n' (Fin 0)) eqn:Hgt; [|discriminate]. now intros [= <-].
Qed.

Lemma string_email_valid (isEmail : string -> bool) (v : option json) (s : string) :
  ZodConfig.string_email isEmail v = Some s -> isEmail s = true.
Proof.
  unfold ZodConfig.string_email. destruct (Zod.string_ v) as [s'|]; simpl; [|discriminate].
  destruct (isEmail s') eqn:Hemail; [|discriminate]. now intros [= <-].
Qed.

Lemma ConfigSchema_valid (isEmail : string -> bool) (data : json) (config : Config.t) :
  ConfigSchema_safeParse isEmail data = Some config ->
  Config.skills (Config.preferences config) <> []
  /\ Num.gt (Config.salaryMinimum (Config.preferences config)) (Fin 0) = true
  /\ Config.name (Config.user config) <> ""
  /\ isEmail (Config.email (Config.user config)) = true
  /\ (forall fields, data = JObj fields ->
        prop_lookup "hardNos" fields = None -> Config.hardNos config = []).
Proof.
  intros Hparse. destruct data as [| | | | |fields]; try discriminate Hparse.
  unfold ConfigSchema_safeParse in Hparse.
  destruct (UserSchema_safeParse isEmail (prop_lookup "user" fields)) as [user|] eqn:Huser;
    [|discriminate].
  destruct (PreferencesSchema_safeParse (prop_lookup "preferences" fields))
    as [preferences|] eqn:Hprefs; [|discriminate].
  simpl in Hparse.
  destruct (ZodConfig.default_ Zod.array_string [] (prop_lookup "hardNos" fields))
    as [hardNos|] eqn:Hhard; [|discriminate].
  simpl in Hparse. injection Hparse as <-. simpl.
  unfold UserSchema_safeParse in Huser.
  destruct (prop_lookup "user" fields) as [[| | | | |ufields]|]; try discriminate Huser.
  destruct (Zod.string_min1 (prop_lookup "name" ufields)) as [name|] eqn:Hname;
    [|discriminate].
  destruct (ZodConfig.string_email isEmail (prop_lookup "email" ufields))
    as [email|] eqn:Hemail; [|discriminate].
  simpl in Huser.
  destruct (ZodConfig.default_ Zod.string_ "UTC" (prop_lookup "timezone" ufields))
    as [timezone|]; [|discriminate].
  simpl in Huser. injection Huser as <-.
  unfold PreferencesSchema_safeParse in Hprefs.
  destruct (prop_lookup "preferences" fields) as [[| | | | |pfields]|];
    try discriminate Hprefs.
  destruct (ZodConfig.array_string_min1 (prop_lookup "skills" pfields))
    as [skills|] eqn:Hskills; [|discriminate].
  destruct (ZodConfig.number_positive (prop_lookup "salaryMinimum" pfields))
    as [salaryMinimum|] eqn:Hsalary; [|discriminate].
  simpl in Hprefs.
  destruct (Zod.string_ (prop_lookup "location" pfields)) as [location|]; [|discriminate].
  simpl in Hprefs. injection Hprefs as <-. simpl.
  split; [now apply array_string_min1_nonempty in Hskills|].
  split; [now apply number_positive_gt in Hsalary|].
  split; [now apply string_min1_nonempty in Hname|].
  split; [now apply string_email_valid in Hemail|].
  intros fields' [= <-] Habsent. rewrite Habsent in Hhard. simpl in Hhard. congruence.
Qed.

(** X22. A configuration that [ConfigSchema] accepts has at least one
    preference skill, a positive salary minimum, a non-empty user name and
    a valid e-mail address, and its hard-no list is empty when the key is
    absent; a configuration whose skill list is empty or whose salary
    minimum is not positive is rejected. *)
Theorem ConfigSchema_accepts (isEmail : string -> bool) :
  (forall (data : json) (config : Config.t),
     ConfigSchema_safeParse isEmail data = Some config ->
     Config.skills (Config.preferences config) <> []
     /\ Num.gt (Config.salaryMinimum (Config.preferences config)) (Fin 0) = true
     /\ Config.name (Config.user config) <> ""
     /\ isEmail (Config.email (Config.user config)) = true
     /\ (forall fields, data = JObj fields ->
           prop_lookup "hardNos" fields = None -> Config.hardNos config = []))
  /\ (forall fields pfields : list (string * json),
        prop_lookup "preferences" fields = Some (JObj pfields) ->
        prop_lookup "skills" pfields = Some (JArr []) ->
        ConfigSchema_safeParse isEmail (JObj fields) = None)
  /\ (forall (fields pfields : list (string * json)) (n : number),
        prop_lookup "preferences" fields = Some (JObj pfields) ->
        prop_lookup "salaryMinimum" pfields = Some (JNum n) ->
        Num.gt n (Fin 0) = false ->
        ConfigSchema_safeParse isEmail (JObj fields) = None).
Proof.
  split; [apply ConfigSchema_valid|]. split.
  - intros fields pfields Hprefs Hskills. unfold ConfigSchema_safeParse.
    destruct (UserSchema_safeParse isEmail (prop_lookup "user" fields)); [|reflexivity].
    simpl. rewrite Hprefs. unfold PreferencesSchema_safeParse. rewrite Hskills.
    reflexivity.
  - intros fields pfields n Hprefs Hsalary Hgt. unfold ConfigSchema_safeParse.
    destruct (UserSchema_safeParse isEmail (prop_lookup "user" fields)); [|reflexivity].
    simpl. rewrite Hprefs. unfold PreferencesSchema_safeParse.
    destruct (ZodConfig.array_string_min1 (prop_lookup "skills" pfields)); [|reflexivity].
    simpl. rewrite Hsalary. unfold ZodConfig.number_positive, Zod.number_.
    destruct n as [| |q|]; simpl; try reflexivity; try discriminate Hgt.
    simpl in Hgt. now rewrite Hgt.
Qed.

Lemma ConfigSchema_accepts_witness :
  ConfigSchema_safeParse sample_isEmail (JObj sample_config_fields) = Some sample_config
  /\ Config.skills (Config.preferences sample_config) <> []
  /\ Config.hardNos sample_config = [].
Proof.
  assert (Hparse : ConfigSchema_safeParse sample_isEmail (JObj sample_config_fields)
                   = Some sample_config) by reflexivity.
  destruct (proj1 (ConfigSchema_accepts sample_isEmail)
              (JObj sample_config_fields) sample_config Hparse)
    as (Hskills & _ & _ & _ & Hhard).
  split; [exact Hparse|]. split; [exact Hskills|].
  apply (Hhard sample_config_fields); reflexivity.
Defined.

(** X23. [loadConfig] reports every failure to read the file as "Config
    file not found: <path>", whatever the cause; a configuration it
    returns has passed the schema, so with it every score is an integer
    between 0 and 100. *)
Theorem loadConfig_spec {platform : StringCase} (isEmail : string -> bool)
    (readFileSync : string -> Completion string)
    (YAML_parse : string -> Completion json)
    (ZodError_message : json -> string) (path : string) :
  (forall message : string,
     readFileSync path = Throw message ->
     loadConfig isEmail readFileSync YAML_parse ZodError_message path
     = Throw ("Config file not found: " +:+ path))
  /\ (forall config : Config.t,
        loadConfig isEmail readFileSync YAML_parse ZodError_message path = Normal config ->
        (exists (raw : string) (parsed : json),
            readFileSync path = Normal raw
            /\ YAML_parse raw = Normal parsed
            /\ ConfigSchema_safeParse isEmail parsed = Some config)
        /\ (forall job : Job.t,
              exists z : Z,
                ScoreResult.score (scoreJob job config) = Fin (inject_Z z)
                /\ (0 <= z <= 100)%Z)).
Proof.
  unfold loadConfig, ConfigSchema_parse. split.
  - intros message ->. reflexivity.
  - intros config Hload.
    destruct (readFileSync path) as [raw|] eqn:Hread; [|discriminate].
    destruct (YAML_parse raw) as [parsed|] eqn:Hyaml; [|discriminate].
    destruct (ConfigSchema_safeParse isEmail parsed) as [c|] eqn:Hparse; [|discriminate].
    injection Hload as ->. split.
    + exists raw, parsed. repeat split; assumption.
    + intros job. apply scoreJob_range.
      now apply (ConfigSchema_valid isEmail parsed config).
Qed.

Lemma loadConfig_spec_witness :
  loadConfig sample_isEmail sample_readFileSync sample_YAML_parse sample_ZodError_message
    "./missing.yaml"
  = Throw "Config file not found: ./missing.yaml"
  /\ exists z : Z,
       ScoreResult.score (scoreJob scenarioA_job sample_config) = Fin (inject_Z z)
       /\ (0 <= z <= 100)%Z.
Proof.
  split.
  - apply (proj1 (loadConfig_spec sample_isEmail sample_readFileSync sample_YAML_parse
                    sample_ZodError_message "./missing.yaml")
             "ENOENT: no such file or directory").
    reflexivity.
  - apply (proj2 (loadConfig_spec sample_isEmail sample_readFileSync sample_YAML_parse
                    sample_ZodError_message "./config.yaml") sample_config).
    reflexivity.
Defined.

(* ===================================================================== *)
(** * Properties of the rendered digest *)
(* ===================================================================== *)

Lemma append_nil_r (s : string) : s +:+ "" = s.
Proof. induction s as [|c s IH]; [reflexivity|]. rewrite append_cons. now rewrite IH. Qed.

Lemma append_assoc (a b c : string) : (a +:+ b) +:+ c = a +:+ (b +:+ c).
Proof.
  induction a as [|x a IH]; [reflexivity|]. rewrite !append_cons. now rewrite IH.
Qed.

Lemma isSubstring_refl (s : string) : isSubstring s s.
Proof. exists "", "". now rewrite append_nil_l, append_nil_r. Qed.

Lemma isSubstring_here (pat rest : string) : isSubstring pat (pat +:+ rest).
Proof. exists "", rest. reflexivity. Qed.

Lemma isSubstring_app_l (pat a s : string) :
  isSubstring pat s -> isSubstring pat (a +:+ s).
Proof.
  intros (pre & post & ->). exists (a +:+ pre), post. now rewrite append_assoc.
Qed.

Lemma isSubstring_app_r (pat s b : string) :
  isSubstring pat s -> isSubstring pat (s +:+ b).
Proof.
  intros (pre & post & ->). exists pre, (post +:+ b). now rewrite !append_assoc.
Qed.

Lemma isSubstring_trans (a b c : string) :
  isSubstring a b -> isSubstring b c -> isSubstring a c.
Proof.
  intros (pre & post & ->) (pre' & post' & ->).
  exists (pre' +:+ pre), (post +:+ post'). now rewrite !append_assoc.
Qed.

Lemma isSubstring_join (sep x : string) (l : list string) :
  In x l -> isSubstring x (join sep l).
Proof.
  unfold join. induction l as [|y l IH]; [intros []|].
  intros [->|Hin].
  - destruct l as [|z l]; [apply isSubstring_refl | apply isSubstring_here].
  - destruct l as [|z l]; [destruct Hin|].
    change (String.concat sep (y :: z :: l))
      with (y +:+ sep +:+ String.concat sep (z :: l)).
    apply isSubstring_app_l, isSubstring_app_l, IH, Hin.
Qed.

Lemma isSubstring_here2 (a b rest : string) :
  isSubstring (a +:+ b) (a +:+ b +:+ rest).
Proof. exists "", rest. now rewrite append_nil_l, !append_assoc. Qed.

Lemma isSubstring_here3 (a b c rest : string) :
  isSubstring (a +:+ b +:+ c) (a +:+ b +:+ c +:+ rest).
Proof. exists "", rest. now rewrite append_nil_l, !append_assoc. Qed.

Lemma isSubstring_here4 (a b c d rest : string) :
  isSubstring (a +:+ b +:+ c +:+ d) (a +:+ b +:+ c +:+ d +:+ rest).
Proof. exists "", rest. now rewrite append_nil_l, !append_assoc. Qed.

Lemma isSubstring_here5 (a b c d e rest : string) :
  isSubstring (a +:+ b +:+ c +:+ d +:+ e) (a +:+ b +:+ c +:+ d +:+ e +:+ rest).
Proof. exists "", rest. now rewrite append_nil_l, !append_assoc. Qed.

(** Finds a piece of a right-nested concatenation. *)
Ltac find_substring :=
  first [ apply isSubstring_here5
        | apply isSubstring_here4
        | apply isSubstring_here3
        | apply isSubstring_here2
        | apply isSubstring_here
        | apply isSubstring_app_r; assumption
        | apply isSubstring_refl
        | apply isSubstring_app_l; find_substring ].

Lemma card_in_email (NumberToString : number -> string)
    (matches : list MatchResult.t) (m : MatchResult.t) :
  In m matches ->
  isSubstring (jobCardHTML NumberToString m) (generateEmailHTML NumberToString matches).
Proof.
  intros Hin.
  assert (Hcards : isSubstring (jobCardHTML NumberToString m)
                     (join "" (List.map (jobCardHTML NumberToString) matches)))
    by (apply isSubstring_join, in_map, Hin).
  unfold generateEmailHTML.
  destruct matches as [|m0 matches]; [destruct Hin|].
  cbn [length Nat.ltb Nat.leb]. find_substring.
Qed.

Lemma card_title (NumberToString : number -> string) (m : MatchResult.t) :
  isSubstring (">" +:+ Job.title (MatchResult.job m) +:+ "</h2>")
    (jobCardHTML NumberToString m).
Proof. unfold jobCardHTML. cbv zeta. find_substring. Qed.

Lemma card_company_salary (NumberToString : number -> string) (m : MatchResult.t) :
  isSubstring
    (">" +:+ Job.company (MatchResult.job m) +:+ " &bull; "
     +:+ str_or (Salary.raw (Job.salary (MatchResult.job m))) "Not disclosed" +:+ "</p>")
    (jobCardHTML NumberToString m).
Proof. unfold jobCardHTML. cbv zeta. find_substring. Qed.

Lemma card_url (NumberToString : number -> string) (m : MatchResult.t) :
  isSubstring ("<a href=" +:+ dq +:+ Job.url (MatchResult.job m) +:+ dq)
    (jobCardHTML NumberToString m).
Proof.
  unfold jobCardHTML. cbv zeta.
  change "        <a href=" with ("        " +:+ "<a href=").
  rewrite (append_assoc "        " "<a href=").
  find_substring.
Qed.

Lemma card_explanation (NumberToString : number -> string) (m : MatchResult.t)
    (line : string) :
  In line (MatchResult.explanation m) ->
  isSubstring ("<div>" +:+ line +:+ "</div>") (jobCardHTML NumberToString m).
Proof.
  intros Hin.
  assert (Hlines : isSubstring ("<div>" +:+ line +:+ "</div>")
                     (join "" (List.map (fun line => "<div>" +:+ line +:+ "</div>")
                                 (MatchResult.explanation m))))
    by (apply isSubstring_join,
          (in_map (fun line => "<div>" +:+ line +:+ "</div>")), Hin).
  unfold jobCardHTML. cbv zeta. find_substring.
Qed.

(** X24. The digest contains, for every match, the job's title, its URL
    and each explanation line exactly as they are stored, with no
    escaping; for an empty list it contains the no-match paragraph; and the
    subject reads "No matches today" exactly when the list is empty. *)
Theorem generateEmailHTML_verbatim (NumberToString : number -> string)
    (matches : list MatchResult.t) :
  (forall m : MatchResult.t,
     In m matches ->
     let html := generateEmailHTML NumberToString matches in
     isSubstring (">" +:+ Job.title (MatchResult.job m) +:+ "</h2>") html
     /\ isSubstring ("<a href=" +:+ dq +:+ Job.url (MatchResult.job m) +:+ dq) html
     /\ (forall line : string,
           In line (MatchResult.explanation m) ->
           isSubstring ("<div>" +:+ line +:+ "</div>") html))
  /\ (matches = [] ->
      isSubstring noMatchesHTML (generateEmailHTML NumberToString matches))
  /\ (generateSubject NumberToString (length matches) = "No matches today"
      <-> matches = []).
Proof.
  split; [|split].
  - intros m Hin html. subst html.
    pose proof (card_in_email NumberToString matches m Hin) as Hcard.
    split; [|split].
    + exact (isSubstring_trans _ _ _ (card_title NumberToString m) Hcard).
    + exact (isSubstring_trans _ _ _ (card_url NumberToString m) Hcard).
    + intros line Hline.
      exact (isSubstring_trans _ _ _ (card_explanation NumberToString m line Hline) Hcard).
  - intros ->. unfold generateEmailHTML. cbn [length Nat.ltb Nat.leb].
    assert (Hrefl : isSubstring noMatchesHTML noMatchesHTML) by apply isSubstring_refl.
    find_substring.
  - unfold generateSubject. destruct matches as [|m matches].
    + split; reflexivity.
    + cbn [length Nat.eqb]. split; [|discriminate].
      change ("Your " +:+ ?rest) with (String "Y" ("our " +:+ rest)). discriminate.
Qed.

Lemma generateEmailHTML_verbatim_witness :
  isSubstring (">" +:+ "Systems Engineer" +:+ "</h2>")
    (generateEmailHTML sample_NumberToString [sample_card_match])
  /\ isSubstring noMatchesHTML (generateEmailHTML sample_NumberToString []).
Proof.
  split.
  - apply (proj1 (generateEmailHTML_verbatim sample_NumberToString [sample_card_match])
             sample_card_match).
    left. reflexivity.
  - apply (proj1 (proj2 (generateEmailHTML_verbatim sample_NumberToString []))).
    reflexivity.
Defined.

(** X25. A card shows "Not disclosed" after the company when the job has
    no salary text, and the text itself otherwise. For a RemoteOK record
    with [salary_min = 0] and a positive [salary_max] that went through
    [normalizeRemoteOKJob] and the scoring, the card shows the salary
    range after the company and "Salary: Not disclosed" in the
    explanation. *)
Theorem jobCardHTML_salary {platform : StringCase} (sha256hex : string -> string)
    (NumberToString : number -> string) (DateParse : string -> Date) :
  (forall m : MatchResult.t,
     Salary.raw (Job.salary (MatchResult.job m)) = "" ->
     isSubstring (" &bull; Not disclosed</p>") (jobCardHTML NumberToString m))
  /\ (forall m : MatchResult.t,
        Salary.raw (Job.salary (MatchResult.job m)) <> "" ->
        isSubstring
          (" &bull; " +:+ Salary.raw (Job.salary (MatchResult.job m)) +:+ "</p>")
          (jobCardHTML NumberToString m))
  /\ (forall (raw : RemoteOKJob.t) (config : Config.t),
        RemoteOKJob.salary_min raw = Fin 0 ->
        Num.gt (RemoteOKJob.salary_max raw) (Fin 0) = true ->
        let card :=
          jobCardHTML NumberToString
            (scoreOne NumberToString config
               (normalizeRemoteOKJob sha256hex NumberToString DateParse raw)) in
        isSubstring
          (" &bull; "
           +:+ ("$" +:+ NumberToString (Fin 0) +:+ "-$"
                +:+ NumberToString (RemoteOKJob.salary_max raw))
           +:+ "</p>") card
        /\ isSubstring "<div>Salary: Not disclosed</div>" card).
Proof.
  split; [|split].
  - intros m Hraw. pose proof (card_company_salary NumberToString m) as Hcard.
    rewrite Hraw in Hcard. cbn [str_or] in Hcard.
    refine (isSubstring_trans _ _ _ _ Hcard).
    change (" &bull; Not disclosed</p>") with (" &bull; " +:+ "Not disclosed" +:+ "</p>").
    apply isSubstring_app_l, isSubstring_app_l, isSubstring_refl.
  - intros m Hraw. pose proof (card_company_salary NumberToString m) as Hcard.
    destruct (Salary.raw (Job.salary (MatchResult.job m))) as [|c raw] eqn:Hr;
      [congruence|].
    cbn [str_or] in Hcard. refine (isSubstring_trans _ _ _ _ Hcard).
    apply isSubstring_app_l, isSubstring_app_l, isSubstring_refl.
  - intros raw config Hmin Hmax card. subst card. split.
    + pose proof (card_company_salary NumberToString
                    (scoreOne NumberToString config
                       (normalizeRemoteOKJob sha256hex NumberToString DateParse raw)))
        as Hcard.
      cbn [scoreOne MatchResult.job normalizeRemoteOKJob Job.salary Salary.raw
           Job.company] in Hcard.
      rewrite Hmin, Hmax in Hcard. cbn [Num.gt Num.lt Num.Qltb orb] in Hcard.
      change (str_or ("$" +:+ ?rest) ?d) with ("$" +:+ rest) in Hcard.
      refine (isSubstring_trans _ _ _ _ Hcard).
      apply isSubstring_app_l, isSubstring_app_l, isSubstring_refl.
    + change "<div>Salary: Not disclosed</div>"
        with ("<div>" +:+ "Salary: Not disclosed" +:+ "</div>").
      apply (card_explanation NumberToString).
      cbn [scoreOne MatchResult.explanation]. unfold generateExplanation.
      cbn [normalizeRemoteOKJob Job.salary Salary.min]. rewrite Hmin.
      right. left. reflexivity.
Qed.

Lemma jobCardHTML_salary_witness :
  isSubstring "<div>Salary: Not disclosed</div>"
    (jobCardHTML sample_NumberToString
       (scoreOne sample_NumberToString scenarioA_config
          (sample_normalizeRemoteOK zero_min_raw))).
Proof.
  apply (proj2 (proj2 (jobCardHTML_salary sample_digest sample_NumberToString
                         sample_DateParse))
           zero_min_raw scenarioA_config); reflexivity.
Defined.
